(** * Model lifecycle subsystem: registry, ensemble training, inference, drift

    A shallow embedding of the Python sources
    [src/models/registry.py], [src/models/train.py],
    [src/models/hybrid_ensemble.py], [src/models/predict.py],
    [src/pipelines/inference_pipeline.py] and
    [src/monitoring/data_drift.py], with the properties the specification
    states about them.

    Conventions.
    - A Python [dict] whose iteration order is observable (the versions of
      one model name, the rows handed to pandas) is an insertion-ordered
      association list; a [dict] used only through lookups is a [gmap].
    - A method that mutates [self] is a function from the state before to
      the result and the state after.
    - A raised exception is the [Err] constructor of [Res]; the state
      reached before the [raise] is kept.
    - The means, deviations, relative changes and threshold of the
      summary-statistic drift test are IEEE 754 doubles ([float]), NaN,
      infinities and rounding included; the other real-valued quantities
      (probabilities, metrics, p-values) are rationals [Q]. *)

From stdpp Require Import gmap strings list.
From Stdlib Require Import QArith Qabs Lqa Floats.
Close Scope Q_scope.

(** ** Python values shared by the modules *)

(** Exceptions the embedded code raises or lets through. *)
Inductive Exn :=
  | ValueError (msg : string)
  | MissingFeatures (names : list string)   (* ValueError("Missing required features: [...]") *)
  | IndexError
  | KeyError (key : string)
  | NotImplementedError
  | RecursionError
  | External (tag : string).               (* raised inside a third-party call *)

Inductive Res (A : Type) :=
  | Ok (a : A)
  | Err (e : Exn).
Arguments Ok {A} a.
Arguments Err {A} e.

Definition res_bind {A B} (r : Res A) (k : A → Res B) : Res B :=
  match r with
  | Ok a => k a
  | Err e => Err e
  end.

(** Insertion-ordered dictionaries: [d[k]], [k in d], [d[k] = v]. *)
Module Dict.
Section Dict.
Context {V : Type}.

Fixpoint get (k : string) (d : list (string * V)) : option V :=
  match d with
  | [] => None
  | (k', v) :: d' => if decide (k' = k) then Some v else get k d'
  end.

(* [d[k] = v]: an existing key keeps its position, a new key goes last *)
Fixpoint set (k : string) (v : V) (d : list (string * V)) : list (string * V) :=
  match d with
  | [] => [(k, v)]
  | (k', v') :: d' => if decide (k' = k) then (k', v) :: d' else (k', v') :: set k v d'
  end.

Definition keys (d : list (string * V)) : list string := d.*1.

(* what holds of every Python dict: a key occurs once *)
Definition wf (d : list (string * V)) : Prop := NoDup (keys d).
End Dict.
End Dict.

(** ** [src/models/registry.py] *)
Module Registry.

(** The dictionary [register_model] builds (lines 78-87); [stage] is the
    key [promote_model] adds.  [registered_at] is read with
    [.get("registered_at", "")], so it may be missing.  [metrics] maps a
    metric name to its value, [metadata] a key to its rendered value. *)
Record Entry := {
  model_id : string;
  model_name : string;
  version : string;
  path : string;
  registered_at : option string;
  metrics : list (string * Q);
  metadata : list (string * string);
  status : string;
  stage : option string
}.

(** [entry["status"] = s] *)
Definition set_status (e : Entry) (s : string) : Entry :=
  {| model_id := model_id e; model_name := model_name e; version := version e;
     path := path e; registered_at := registered_at e; metrics := metrics e;
     metadata := metadata e; status := s; stage := stage e |}.

(** [self.registry["models"]]: name -> version -> entry. *)
Abbreviation Index := (gmap string (list (string * Entry))).

(** What a path holds on disk. *)
Inductive Node :=
  | Dir
  | Blob (bytes : string)          (* model.pkl, metadata.json, metrics.json *)
  | IndexDoc (idx : Index).        (* registry.json *)

(** The registry object together with the disk it reads and writes:
    [registry] is [self.registry["models"]]; [Path(p).exists()] holds when
    [disk !! p] is defined.  Errors of the operating system (a file where a
    directory is expected, permissions) are outside the embedding. *)
Record State := {
  registry_path : string;
  registry : Index;
  disk : gmap string Node
}.

Definition registry_file (st : State) : string :=
  registry_path st +:+ "/registry.json".

Definition path_exists (st : State) (p : string) : bool :=
  bool_decide (is_Some (disk st !! p)).

(** [ensure_dir]: [mkdir(parents=True, exist_ok=True)] leaves an existing
    path alone. *)
Definition ensure_dir (p : string) (d : gmap string Node) : gmap string Node :=
  match d !! p with
  | Some _ => d
  | None => <[p := Dir]> d
  end.

(** [_save_registry]: [save_json] creates the parent directory and writes
    the whole index to [registry_file]. *)
Definition _save_registry (st : State) : State :=
  {| registry_path := registry_path st;
     registry := registry st;
     disk := <[registry_file st := IndexDoc (registry st)]>
               (ensure_dir (registry_path st) (disk st)) |}.

(** [x[1].get("registered_at", "")] *)
Definition reg_key (x : string * Entry) : string :=
  default "" (registered_at x.2).

(** Python's [max(iterable, key=...)] on a non-empty iterable: the first
    item whose key is not exceeded by a later one (a later item replaces
    the candidate only when its key is strictly greater). *)
Fixpoint py_max {A} (key : A → string) (best : A) (rest : list A) : A :=
  match rest with
  | [] => best
  | x :: rest' => py_max key (if String.ltb (key best) (key x) then x else best) rest'
  end.

(** Lines 127-132: the version a lookup resolves to. *)
Definition resolve_version (versions : list (string * Entry)) (version : string)
  : option string :=
  if decide (version = "latest") then
    match versions with
    | [] => None                           (* max() of an empty sequence *)
    | x :: rest => Some (py_max reg_key x rest).1
    end
  else Some version.

(** [get_model_path], lines 106-144. *)
Definition get_model_path (st : State) (name : string) (version : string)
  : option string :=
  match registry st !! name with
  | None => None
  | Some versions =>
      match versions with
      | [] => None
      | _ :: _ =>
          match resolve_version versions version with
          | None => None
          | Some v =>
              match Dict.get v versions with
              | None => None
              | Some e =>
                  if path_exists st (path e) then Some (path e) else None
              end
          end
      end
  end.

(** [delete_model], lines 193-216. *)
Definition delete_model (st : State) (name : string) (version : string)
  : bool * State :=
  match registry st !! name with
  | None => (false, st)
  | Some versions =>
      match Dict.get version versions with
      | None => (false, st)
      | Some e =>
          let versions' := Dict.set version (set_status e "deleted") versions in
          (true,
           _save_registry
             {| registry_path := registry_path st;
                registry := <[name := versions']> (registry st);
                disk := disk st |})
      end
  end.

(** The state a constructed registry with registered models is in: its
    directory was created by [__init__] and the index document written by
    the last [_save_registry]. *)
Definition index_on_disk (st : State) : Prop :=
  is_Some (disk st !! registry_path st) ∧ is_Some (disk st !! registry_file st).

(** A registry holding versions 1.0 and 1.1 of model [m]. *)
Definition entry_m (v at_ : string) : Entry :=
  {| model_id := "m_v" +:+ v; model_name := "m"; version := v;
     path := "models/m/" +:+ v; registered_at := Some at_;
     metrics := []; metadata := []; status := "active"; stage := None |}.

Definition e10 : Entry := entry_m "1.0" "2024-03-01T10:15:00.000001".
Definition e11 : Entry := entry_m "1.1" "2024-03-02T08:00:00.000000".

Definition two_versions : list (string * Entry) := [("1.0", e10); ("1.1", e11)].

Definition st_m : State :=
  {| registry_path := "models";
     registry := {[ "m" := two_versions ]};
     disk := {[ "models" := Dir;
                "models/registry.json" := IndexDoc {[ "m" := two_versions ]};
                "models/m/1.0" := Dir;
                "models/m/1.1" := Dir ]} |}.

End Registry.

(** ** [src/models/train.py] and [src/models/hybrid_ensemble.py] *)
Module Trainer.
Section Trainer.
(** [Data] is the pair (X_train, y_train), [Handle] an estimator object of
    scikit-learn or mlxtend, [Params] a keyword dictionary. *)
Context {Data Handle Params : Type}.

(** A [BaseModel] instance; [base_models] is empty except in a
    [HybridEnsembleModel]. *)
#[warnings="-register-all"]
Inductive Model := MkModel {
  model_name : string;
  params : Params;
  model : option Handle;
  is_trained : bool;
  base_models : list Model
}.

(** Calls into the estimators, recorded in the order they happen. *)
Inductive Event :=
  | FitBase (name : string)                     (* model.fit(X, y) of a base class *)
  | FitEnsemble (clfs : list (option Handle)).  (* EnsembleVoteClassifier.fit(X, y) *)

(** [ModelTrainer]: the run-scoped cache [self.trained_models], and the
    calls made so far. *)
Record TrainerState := {
  trained_models : gmap string Model;
  trace : list Event
}.

(** The collaborators outside the repository. *)
Context (config_models : list string)           (* hybrid_ensemble.models of model_config *)
        (config_params : string → Params)       (* <name>.params of model_config *)
        (estimator_build : string → Params → Res Handle)  (* e.g. SklearnLR( **params) *)
        (estimator_fit : string → Handle → Data → Res Handle)
        (vote_build : list (option Handle) → Params → Res Handle)
        (vote_fit : Handle → Data → Res Handle).

(** Methods of the trainer read and write its state and may raise. *)
Definition M (A : Type) : Type := TrainerState → Res A * TrainerState.

Definition ret {A} (a : A) : M A := λ s, (Ok a, s).
Definition raise {A} (e : Exn) : M A := λ s, (Err e, s).
Definition lift {A} (r : Res A) : M A := λ s, (r, s).
Definition bind {A B} (m : M A) (k : A → M B) : M B :=
  λ s, match m s with
       | (Ok a, s') => k a s'
       | (Err e, s') => (Err e, s')
       end.

Notation "'let*' x := m 'in' k" := (bind m (λ x, k))
  (at level 10, x name, m at level 100, k at level 200).
Notation "'run' m 'in' k" := (bind m (λ _, k))
  (at level 10, m at level 100, k at level 200).

Definition log (ev : Event) : M unit :=
  λ s, (Ok tt, {| trained_models := trained_models s; trace := trace s ++ [ev] |}).

(* self.trained_models[name] = m *)
Definition store (name : string) (m : Model) : M unit :=
  λ s, (Ok tt, {| trained_models := <[name := m]> (trained_models s); trace := trace s |}).

(* self.trained_models.get(name) *)
Definition cached (name : string) : M (option Model) :=
  λ s, (Ok (trained_models s !! name), s).

Definition MODEL_REGISTRY : list string :=
  ["logistic_regression"; "gradient_boosting"; "neural_network"; "hybrid_ensemble"].

Definition default_base_model_names : list string :=
  ["logistic_regression"; "gradient_boosting"; "neural_network"].

(** [HybridEnsembleModel.__init__] *)
Definition HybridEnsembleModel (base_models : list Model) (params : option Params) : Model :=
  {| model_name := "hybrid_ensemble";
     params := default (config_params "hybrid_ensemble") params;
     model := None;
     is_trained := false;
     base_models := base_models |}.

(** [HybridEnsembleModel.build], lines 52-69. *)
Definition build (self : Model) : Res Handle :=
  match base_models self with
  | [] => Err (ValueError "Base models must be set before building ensemble")
  | _ :: _ => vote_build (model <$> base_models self) (params self)
  end.

(** [HybridEnsembleModel.fit], lines 71-95. *)
Definition fit (self : Model) (data : Data) : M Model :=
  match base_models self with
  | [] => raise (ValueError "Base models must be set and trained before fitting ensemble")
  | _ :: _ =>
      let* h := match model self with
                | None => lift (build self)
                | Some h => ret h
                end in
      run log (FitEnsemble (model <$> base_models self)) in
      let* h' := lift (vote_fit h data) in
      ret {| model_name := model_name self; params := params self;
             model := Some h'; is_trained := true;
             base_models := base_models self |}
  end.

(** The loop of [_train_ensemble], lines 100-108. *)
Fixpoint resolve_base_models (train_model : string → option Params → M Model)
    (base_model_names : list string) (base_models : list Model) : M (list Model) :=
  match base_model_names with
  | [] => ret base_models
  | model_name :: rest =>
      let* c := cached model_name in
      let* m := match c with
                | Some m => ret m                  (* already trained *)
                | None => train_model model_name None
                end in
      resolve_base_models train_model rest (base_models ++ [m])
  end.

(** Lines 91-95. *)
Definition base_model_names : list string :=
  match config_models with
  | [] => default_base_model_names
  | _ :: _ => config_models
  end.

(** [_train_ensemble], lines 73-118; [train_model] is [self.train_model]. *)
Definition _train_ensemble (train_model : string → option Params → M Model)
    (data : Data) (params : option Params) : M Model :=
  let* base_models := resolve_base_models train_model base_model_names [] in
  let* ensemble := fit (HybridEnsembleModel base_models params) data in
  run store "hybrid_ensemble" ensemble in
  ret ensemble.

(** [train_model], lines 32-71.  [fuel] bounds the depth of the calls
    between [train_model] and [_train_ensemble], as the interpreter's
    recursion limit does. *)
Fixpoint train_model (fuel : nat) (data : Data) (model_name : string)
    (params : option Params) : M Model :=
  match fuel with
  | O => raise RecursionError
  | S fuel' =>
      if decide (model_name ∈ MODEL_REGISTRY) then
        if decide (model_name = "hybrid_ensemble") then
          _train_ensemble (train_model fuel' data) data params
        else
          let p := default (config_params model_name) params in
          let* h := lift (estimator_build model_name p) in
          run log (FitBase model_name) in
          let* h' := lift (estimator_fit model_name h data) in
          let m := {| model_name := model_name; params := p; model := Some h';
                      is_trained := true; base_models := [] |} in
          run store model_name m in
          ret m
      else raise (ValueError "Unknown model")
  end.

(** The names whose base-class [fit] a list of events records. *)
Definition fit_names (evs : list Event) : list string :=
  omap (λ ev, match ev with FitBase n => Some n | FitEnsemble _ => None end) evs.

(** What a call that started in [s] and ended in [s'] with result [r]
    did: it appended the events [new]; it fitted no name twice and only
    names satisfying [P] that were not cached in [s]; it kept every cached
    model; whatever it added to the cache (other than the ensemble) it
    fitted; and when it returned normally, whatever it fitted is cached. *)
Definition run_inv {A} (P : string → Prop) (s : TrainerState)
    (out : Res A * TrainerState) : Prop :=
  ∃ new,
    trace out.2 = trace s ++ new ∧
    NoDup (fit_names new) ∧
    (∀ n, n ∈ fit_names new → P n ∧ trained_models s !! n = None) ∧
    trained_models s ⊆ trained_models out.2 ∧
    (∀ n, trained_models s !! n = None → is_Some (trained_models out.2 !! n) →
          n = "hybrid_ensemble" ∨ n ∈ fit_names new) ∧
    ((∃ a, out.1 = Ok a) →
     ∀ n, n ∈ fit_names new → is_Some (trained_models out.2 !! n)).

End Trainer.

(** A run in which every estimator call succeeds: handles are strings, a
    fitted handle carries a mark. *)
Definition demo_build (name : string) (_ : unit) : Res string := Ok name.
Definition demo_fit (_ : string) (h : string) (_ : unit) : Res string := Ok (h +:+ "*").
Definition demo_vote_build (_ : list (option string)) (_ : unit) : Res string := Ok "vote".
Definition demo_vote_fit (h : string) (_ : unit) : Res string := Ok (h +:+ "*").

Definition demo_train_model (config_models : list string) (fuel : nat)
  : string → option unit → M (Handle:=string) (Params:=unit)
                             (Model (Handle:=string) (Params:=unit)) :=
  train_model config_models (λ _, tt) demo_build demo_fit demo_vote_build demo_vote_fit
              fuel tt.

Definition demo_train_ensemble (config_models : list string) (fuel : nat)
  : M (Handle:=string) (Params:=unit) (Model (Handle:=string) (Params:=unit)) :=
  _train_ensemble config_models (λ _, tt) demo_vote_build demo_vote_fit
                  (demo_train_model config_models fuel) tt None.

Definition empty_trainer : TrainerState (Handle:=string) (Params:=unit) :=
  {| trained_models := ∅; trace := [] |}.

(* a trainer that has already trained logistic regression *)
Definition demo_lr : Model (Handle:=string) (Params:=unit) :=
  {| model_name := "logistic_regression"; params := tt;
     model := Some "logistic_regression*"; is_trained := true; base_models := [] |}.

Definition lr_trained : TrainerState (Handle:=string) (Params:=unit) :=
  {| trained_models := {[ "logistic_regression" := demo_lr ]}; trace := [] |}.

End Trainer.

(** ** [src/pipelines/inference_pipeline.py]: [prepare_input] *)
Module Inference.
Section Inference.
(** [V] is the type of a cell; [nan] is what pandas stores where a record
    lacks a column. *)
Context {V : Type} (nan : V).

(** A pandas DataFrame: column labels and rows aligned with them. *)
Record DataFrame := {
  columns : list string;
  rows : list (list V)
}.

(** The four shapes [prepare_input] accepts. *)
Inductive Input :=
  | InDict (d : list (string * V))            (* one feature mapping *)
  | InList (l : list (list (string * V)))     (* a sequence of mappings *)
  | InArray (a : list (list V))               (* numpy.ndarray *)
  | InFrame (df : DataFrame).

(** [pd.DataFrame(records)]: the columns are the keys of the records in
    order of first appearance; a record lacking a column gets NaN. *)
Fixpoint add_keys (cols : list string) (ks : list string) : list string :=
  match ks with
  | [] => cols
  | k :: ks' => add_keys (if decide (k ∈ cols) then cols else cols ++ [k]) ks'
  end.

Definition record_columns (records : list (list (string * V))) : list string :=
  fold_left (λ cols d, add_keys cols (Dict.keys d)) records [].

Definition DataFrame_of_records (records : list (list (string * V))) : DataFrame :=
  let cols := record_columns records in
  {| columns := cols;
     rows := (λ d, (λ c, default nan (Dict.get c d)) <$> cols) <$> records |}.

(** The cells of one row under the columns labelled [f] (pandas returns
    every column carrying the label). *)
Fixpoint cells_of (f : string) (cols : list string) (row : list V) : list V :=
  match cols, row with
  | c :: cols', v :: row' =>
      if decide (c = f) then v :: cells_of f cols' row' else cells_of f cols' row'
  | _, _ => []
  end.

(** [data[feature_names].values] *)
Definition getitem_values (df : DataFrame) (names : list string) : Res (list (list V)) :=
  match filter (λ f, f ∉ columns df) names with
  | [] => Ok ((λ row, names ≫= (λ f, cells_of f (columns df) row)) <$> rows df)
  | f :: _ => Err (KeyError f)
  end.

(** [self.feature_builder.get_feature_names()] *)
Context (feature_names : list string).

(** Lines 104-114, on a DataFrame. *)
Definition select_features (data : DataFrame) : Res (list (list V)) :=
  let missing_features := filter (λ f, f ∉ columns data) feature_names in
  match missing_features with
  | [] => getitem_values data feature_names
  | _ :: _ => Err (MissingFeatures missing_features)
  end.

(** [prepare_input], lines 83-114. *)
Definition prepare_input (data : Input) : Res (list (list V)) :=
  match data with
  | InDict d => select_features (DataFrame_of_records [d])
  | InList l => select_features (DataFrame_of_records l)
  | InArray a => Ok a
  | InFrame df => select_features df
  end.

(** The records of a mapping-like input. *)
Definition records_of (data : Input) : option (list (list (string * V))) :=
  match data with
  | InDict d => Some [d]
  | InList l => Some l
  | InArray _ | InFrame _ => None
  end.

(** The DataFrame the feature check runs on, when it runs. *)
Definition frame_of (data : Input) : option DataFrame :=
  match data with
  | InDict d => Some (DataFrame_of_records [d])
  | InList l => Some (DataFrame_of_records l)
  | InArray _ => None
  | InFrame df => Some df
  end.

End Inference.

(** A contract of four features and a mapping that lacks two of them. *)
Definition demo_features : list string := ["radius"; "texture"; "area"; "symmetry"].
Definition demo_partial : list (string * Z) := [("area", 7%Z); ("radius", 3%Z)].
Definition demo_full : list (string * Z) :=
  [("symmetry", 4%Z); ("area", 7%Z); ("id", 0%Z); ("radius", 3%Z); ("texture", 5%Z)].

End Inference.

(** ** [src/models/predict.py] and the prediction methods of [base_model.py] *)
Module Predictor.

Notation "'try' x := m 'in' k" := (res_bind m (λ x, k))
  (at level 10, x name, m at level 100, k at level 200).

(** The sequential loop [for x in l: ys.append(f(x))], which stops at the
    first exception. *)
Fixpoint mapM {A B} (f : A → Res B) (l : list A) : Res (list B) :=
  match l with
  | [] => Ok []
  | x :: l' => try y := f x in try ys := mapM f l' in Ok (y :: ys)
  end.

(** [range(0, stop, step)] unfolded: [i = 0; while i < stop: yield i; i += step]
    for a positive step, the mirror image for a negative one.  At most
    [|stop|] items are produced. *)
Fixpoint range_up (fuel : nat) (i stop step : Z) : list Z :=
  match fuel with
  | O => []
  | S fuel' => if decide (i < stop)%Z then i :: range_up fuel' (i + step) stop step else []
  end.

Fixpoint range_down (fuel : nat) (i stop step : Z) : list Z :=
  match fuel with
  | O => []
  | S fuel' => if decide (stop < i)%Z then i :: range_down fuel' (i + step) stop step else []
  end.

Definition py_range0 (stop step : Z) : Res (list Z) :=
  if decide (step = 0)%Z then Err (ValueError "range() arg 3 must not be zero")
  else if decide (0 < step)%Z then Ok (range_up (Z.to_nat stop) 0 stop step)
  else Ok (range_down (Z.to_nat (- stop)) 0 stop step).

(** [X[lo:hi]] on a sequence: negative bounds count from the end, and
    bounds are clipped to the length. *)
Definition py_slice {A} (X : list A) (lo hi : Z) : list A :=
  let n := Z.of_nat (length X) in
  let clip k := if decide (k < 0)%Z then Z.max (k + n) 0 else Z.min k n in
  drop (Z.to_nat (clip lo)) (take (Z.to_nat (clip hi)) X).

(** [np.concatenate] of one-dimensional arrays. *)
Definition np_concatenate {A} (arrays : list (list A)) : Res (list A) :=
  match arrays with
  | [] => Err (ValueError "need at least one array to concatenate")
  | _ :: _ => Ok (concat arrays)
  end.

(** A probability matrix: an array of shape [(length prows, ncols)]. *)
Record Proba := {
  ncols : nat;
  prows : list (list Q)
}.

Definition proba_wf (P : Proba) : Prop := Forall (λ r, length r = ncols P) (prows P).

(** [P[:, j]] *)
Definition column (P : Proba) (j : nat) : Res (list Q) :=
  if decide (j < ncols P) then Ok ((λ r, nth j r 0%Q) <$> prows P) else Err IndexError.

Definition qmax (a b : Q) : Q := if Qle_bool a b then b else a.

Definition row_max (r : list Q) : Q :=
  match r with
  | [] => 0%Q
  | x :: xs => fold_left qmax xs x
  end.

(** [np.max(P, axis=1)] *)
Definition np_max_axis1 (P : Proba) : Res (list Q) :=
  if decide (ncols P = 0)
  then Err (ValueError "zero-size array to reduction operation maximum which has no identity")
  else Ok (row_max <$> prows P).

Definition qsum (r : list Q) : Q := foldr Qplus 0%Q r.

Section Predictor.
(** [Row] is one row of the feature matrix. *)
Context {Row : Type}.

(** A [BaseModel] as prediction sees it: the flag, and the methods of the
    wrapped estimator ([None] where the estimator has no [predict_proba]). *)
Record BaseModel := {
  is_trained : bool;
  model_predict : list Row → Res (list Z);
  model_predict_proba : option (list Row → Res Proba)
}.

(** [BaseModel.predict], [BaseModel.predict_proba] *)
Definition BaseModel_predict (self : BaseModel) (X : list Row) : Res (list Z) :=
  if is_trained self then model_predict self X
  else Err (ValueError "Model must be trained before making predictions").

Definition BaseModel_predict_proba (self : BaseModel) (X : list Row) : Res Proba :=
  if is_trained self then
    match model_predict_proba self with
    | Some predict_proba => predict_proba X
    | None => Err NotImplementedError
    end
  else Err (ValueError "Model must be trained before making predictions").

(** Input of the predictor: an array or a DataFrame. *)
Inductive Features :=
  | Array (X : list Row)
  | Frame (columns : list string) (X : list Row).

(** [X.values] for a DataFrame, [X] itself otherwise. *)
Definition values (X : Features) : list Row :=
  match X with
  | Array X => X
  | Frame _ X => X
  end.

(** [ModelPredictor]: [self.model]. *)
Definition ModelPredictor := option BaseModel.

(** [ModelPredictor.predict], lines 73-92. *)
Definition predict (self : ModelPredictor) (X : Features) : Res (list Z) :=
  match self with
  | None => Err (ValueError "No model loaded. Call load_model() first.")
  | Some model => BaseModel_predict model (values X)
  end.

(** [ModelPredictor.predict_proba], lines 94-113. *)
Definition predict_proba (self : ModelPredictor) (X : Features) : Res Proba :=
  match self with
  | None => Err (ValueError "No model loaded. Call load_model() first.")
  | Some model => BaseModel_predict_proba model (values X)
  end.

Record Confidence := {
  predictions : list Z;
  probabilities : Proba;
  confidence : list Q;
  positive_proba : list Q
}.

(** [predict_with_confidence], lines 115-141. *)
Definition predict_with_confidence (self : ModelPredictor) (X : Features) (threshold : Q)
  : Res Confidence :=
  try probabilities := predict_proba self X in
  try positive := column probabilities 1 in
  let predictions := (λ p, if Qle_bool threshold p then 1%Z else 0%Z) <$> positive in
  try confidence := np_max_axis1 probabilities in
  try positive_proba := column probabilities 1 in
  Ok {| predictions := predictions;
        probabilities := probabilities;
        confidence := confidence;
        positive_proba := positive_proba |}.

(** [batch_predict], lines 143-169. *)
Definition batch_predict (self : ModelPredictor) (X : Features) (batch_size : Z)
  : Res (list Z) :=
  let X := values X in
  let n_samples := Z.of_nat (length X) in
  try starts := py_range0 n_samples batch_size in
  try predictions :=
    mapM (λ i, predict self (Array (py_slice X i (i + batch_size)))) starts in
  np_concatenate predictions.

End Predictor.

(** The chunks of [X] of size [b], in order; the last may be shorter.
    [fuel] bounds the number of chunks. *)
Fixpoint chunks_aux {A} (fuel b : nat) (X : list A) : list (list A) :=
  match fuel with
  | O => []
  | S fuel' =>
      match X with
      | [] => []
      | _ :: _ => take b X :: chunks_aux fuel' b (drop b X)
      end
  end.

Definition contiguous_chunks {A} (b : nat) (X : list A) : list (list A) :=
  chunks_aux (length X) b X.

(** A classifier whose label depends on the row alone. *)
Definition row_wise {Row} (clf : BaseModel (Row:=Row)) (f : Row → Z) : Prop :=
  ∀ X, X ≠ [] → model_predict clf X = Ok (f <$> X).

(** A classifier over one-feature rows: positive when the feature is. *)
Definition sign_label (x : Z) : Z := if decide (0 < x)%Z then 1%Z else 0%Z.

Definition sign_proba (x : Z) : list Q :=
  if decide (0 < x)%Z then [(3 # 10)%Q; (7 # 10)%Q] else [(6 # 10)%Q; (4 # 10)%Q].

Definition sign_model : BaseModel (Row:=Z) :=
  {| is_trained := true;
     model_predict := λ X, Ok (sign_label <$> X);
     model_predict_proba := Some (λ X, Ok {| ncols := 2; prows := sign_proba <$> X |}) |}.

Definition ten_rows : list Z := [3; -1; 4; -1; 5; -9; 2; -6; 5; 3]%Z.

End Predictor.

(** ** [src/monitoring/data_drift.py]: the summary-statistic test *)
Module Drift.

(** Mean and standard deviation of one column, as pandas computed them:
    IEEE 754 doubles, which may be infinite or NaN. *)
Record Stats := {
  mean : float;
  std : float
}.

(** [current_data]: its column labels, and [mean()] / [std()] by column. *)
Record CurrentData := {
  columns : list string;
  column_stats : list (string * Stats)
}.

(** One value of [drift_results]. *)
Record Detail := {
  mean_change : float;
  std_change : float;
  reference_mean : float;
  current_mean : float;
  reference_std : float;
  current_std : float;
  drifted : bool
}.

Record Summary := {
  total_features : nat;
  drifted_features : list string;
  drift_count : nat;
  threshold : float;
  details : list (string * Detail)
}.

(** [abs((cur - ref) / ref) if ref != 0 else 0], lines 144-145, in double
    arithmetic: [ref != 0] is false for both zeros and true for NaN. *)
Definition rel_change (ref cur : float) : float :=
  if PrimFloat.eqb ref 0 then 0%float
  else PrimFloat.abs (PrimFloat.div (PrimFloat.sub cur ref) ref).

(** [a > b] on exact numbers (the p-values of the other test). *)
Definition Qgt_bool (a b : Q) : bool := negb (Qle_bool a b).

(** Line 147; [a > b] on doubles is false when either side is NaN. *)
Definition is_drifted (threshold : float) (ref cur : Stats) : bool :=
  PrimFloat.ltb threshold (rel_change (mean ref) (mean cur))
  || PrimFloat.ltb threshold (rel_change (std ref) (std cur)).

(** Lines 149-157. *)
Definition detail (threshold : float) (ref cur : Stats) : Detail :=
  {| mean_change := rel_change (mean ref) (mean cur);
     std_change := rel_change (std ref) (std cur);
     reference_mean := mean ref;
     current_mean := mean cur;
     reference_std := std ref;
     current_std := std cur;
     drifted := is_drifted threshold ref cur |}.

(** The loop of lines 133-160 over the reference columns, carrying
    [drift_results] and [drifted_features]. *)
Fixpoint scan (current : CurrentData) (threshold : float)
    (reference : list (string * Stats))
    (drift_results : list (string * Detail)) (drifted_features : list string)
  : Res (list (string * Detail) * list string) :=
  match reference with
  | [] => Ok (drift_results, drifted_features)
  | (column, ref) :: rest =>
      if decide (column ∈ columns current) then
        match Dict.get column (column_stats current) with
        | None => Err (KeyError column)
        | Some cur =>
            scan current threshold rest
                 (Dict.set column (detail threshold ref cur) drift_results)
                 (if is_drifted threshold ref cur
                  then drifted_features ++ [column] else drifted_features)
        end
      else scan current threshold rest drift_results drifted_features   (* continue *)
  end.

(** [detect_drift_statistics], lines 109-170; [reference_stats] is
    [self.reference_stats]. *)
Definition detect_drift_statistics (reference_stats : option (list (string * Stats)))
    (current_data : CurrentData) (threshold : float) : Res Summary :=
  match reference_stats with
  | None => Err (ValueError "Reference statistics not calculated")
  | Some reference =>
      res_bind (scan current_data threshold reference [] [])
        (λ '(drift_results, drifted_features),
           Ok {| total_features := length drift_results;
                 drifted_features := drifted_features;
                 drift_count := length drifted_features;
                 threshold := threshold;
                 details := drift_results |})
  end.

(** The default of the [threshold] parameter, the double written [0.2],
    and the call that omits the argument. *)
#[warnings="-inexact-float"]
Definition default_threshold : float := 0.2%float.

Definition detect_drift_statistics_default
    (reference_stats : option (list (string * Stats))) (current_data : CurrentData)
  : Res Summary :=
  detect_drift_statistics reference_stats current_data default_threshold.

(** A reference with a zero-mean column, and a batch in which [area]
    moved by half, [texture], with zero reference mean, moved too, and the
    mean of [radius] went from 31.5 to 25.2. *)
Definition radius_reference : Stats := {| mean := 31.5; std := 1 |}.

#[warnings="-inexact-float"]
Definition radius_current : Stats := {| mean := 25.2; std := 1 |}.

Definition demo_reference : list (string * Stats) :=
  [("area", {| mean := 10; std := 2 |});
   ("texture", {| mean := 0; std := 1 |});
   ("radius", radius_reference);
   ("gone", {| mean := 1; std := 1 |})]%float.

Definition demo_current : CurrentData :=
  {| columns := ["texture"; "area"; "radius"; "extra"];
     column_stats := [("texture", {| mean := 5; std := 1 |});
                      ("area", {| mean := 15; std := 2 |});
                      ("radius", radius_current);
                      ("extra", {| mean := 1; std := 1 |})]%float |}.

End Drift.

(** ** [src/models/registry.py]: registration, lookup of entries, stages;
       [BaseModel.save] and [BaseModel.load] of [src/models/base_model.py] *)
Module RegistryOps.
Import Registry.

(** [entry["stage"] = s] *)
Definition set_stage (e : Entry) (s : string) : Entry :=
  {| model_id := model_id e; model_name := model_name e; version := version e;
     path := path e; registered_at := registered_at e; metrics := metrics e;
     metadata := metadata e; status := status e; stage := Some s |}.

(** [Path(a) / b], as a string, for a component [b] that pathlib keeps
    as it is: not empty, not [.], without a separator. *)
Definition path_join (a b : string) : string := a +:+ "/" +:+ b.

(** [registry_path / model_name / version] *)
Definition model_dir (st : State) (name version : string) : string :=
  path_join (path_join (registry_path st) name) version.

(** [mkdir(parents=True, exist_ok=True)] on [model_dir]: the directories
    from the registry path down (what lies above it is not tracked). *)
Definition ensure_model_dir (st : State) (name version : string)
    (d : gmap string Node) : gmap string Node :=
  ensure_dir (model_dir st name version)
    (ensure_dir (path_join (registry_path st) name)
       (ensure_dir (registry_path st) d)).

(** [get_model_info], lines 146-168.  Unlike [get_model_path] it neither
    guards the empty dictionary, on which [max] raises, nor looks at the
    disk. *)
Definition get_model_info (st : State) (name version : string) : Res (option Entry) :=
  match registry st !! name with
  | None => Ok None
  | Some versions =>
      match resolve_version versions version with
      | None => Err (ValueError "max() arg is an empty sequence")
      | Some v => Ok (Dict.get v versions)
      end
  end.

(** [list_models], lines 170-191.  An empty name is falsy and lists
    everything.  Across names the order follows the index, whose
    iteration order this embedding does not keep. *)
Definition list_models (st : State) (name : option string) : list Entry :=
  match name with
  | Some n =>
      if decide (n = "") then (map_to_list (registry st)).*2 ≫= (λ vs, vs.*2)
      else match registry st !! n with
           | Some versions => versions.*2
           | None => []
           end
  | None => (map_to_list (registry st)).*2 ≫= (λ vs, vs.*2)
  end.

(** [promote_model], lines 218-242. *)
Definition promote_model (st : State) (name version stage_ : string) : bool * State :=
  match registry st !! name with
  | None => (false, st)
  | Some versions =>
      match Dict.get version versions with
      | None => (false, st)
      | Some e =>
          let versions' := Dict.set version (set_stage e stage_) versions in
          (true,
           _save_registry
             {| registry_path := registry_path st;
                registry := <[name := versions']> (registry st);
                disk := disk st |})
      end
  end.

Section Save.
(** [Obj] is what [self.model] holds (an estimator, or [None] before an
    ensemble is built); [dumps]/[loads] are joblib's, and the two [render]
    functions are [json.dump] on the two kinds of dictionary. *)
Context {Obj : Type}
        (dumps : Obj → string) (loads : string → option Obj)
        (render_metadata : list (string * string) → string)
        (render_metrics : list (string * Q) → string).

(** A [BaseModel] instance as [save] and [load] see it; [params] is the
    rendered parameter dictionary. *)
Record BaseModel := {
  bm_name : string;
  bm_params : string;
  bm_model : Obj;
  bm_is_trained : bool
}.

Definition render_bool (b : bool) : string := if b then "true" else "false".

(** [metadata.update({...})], lines 110-116. *)
Definition update_metadata (self : BaseModel) (metadata : list (string * string))
  : list (string * string) :=
  Dict.set "is_trained" (render_bool (bm_is_trained self))
    (Dict.set "params" (bm_params self)
       (Dict.set "model_name" (bm_name self) metadata)).

(** [BaseModel.save], lines 90-120: it creates [save_dir], writes
    [model.pkl] and [metadata.json] and, when the caller passed a
    dictionary, leaves the three added keys in it.  The first component of
    the result is the caller's dictionary after the call.  Dictionaries
    are values here: an object that still refers to the caller's
    dictionary does not see the update. *)
Definition save (self : BaseModel) (save_dir : string)
    (metadata : option (list (string * string))) (d : gmap string Node)
  : option (list (string * string)) * gmap string Node :=
  let d1 := ensure_dir save_dir d in
  let d2 := <[path_join save_dir "model.pkl" := Blob (dumps (bm_model self))]> d1 in
  let written := update_metadata self (default [] metadata) in
  let d3 := <[path_join save_dir "metadata.json" := Blob (render_metadata written)]> d2 in
  (match metadata with
   | Some _ => Some written
   | None => None
   end, d3).

(** How [load] can fail. *)
Inductive LoadError :=
  | ModelFileNotFound (file : string)     (* FileNotFoundError, line 137 *)
  | Unreadable.                           (* raised by joblib and pickle *)

(** [BaseModel.load], lines 122-143. *)
Definition load (self : BaseModel) (load_dir : string) (d : gmap string Node)
  : LoadError + BaseModel :=
  let model_path := path_join load_dir "model.pkl" in
  match d !! model_path with
  | None => inl (ModelFileNotFound model_path)
  | Some (Blob bytes) =>
      match loads bytes with
      | Some o => inr {| bm_name := bm_name self; bm_params := bm_params self;
                         bm_model := o; bm_is_trained := true |}
      | None => inl Unreadable
      end
  | Some Dir | Some (IndexDoc _) => inl Unreadable
  end.

(** [register_model], lines 47-104; [now] is [datetime.now().isoformat()].
    The entry holds the content the metadata dictionary has after [save];
    entries written by earlier calls with the same dictionary object,
    which Python would update with it, keep theirs. *)
Definition register_model (st : State) (model : BaseModel) (name version : string)
    (metrics : option (list (string * Q))) (metadata : option (list (string * string)))
    (now : string) : string * State :=
  let model_id := name +:+ "_v" +:+ version in
  let dir := model_dir st name version in
  let d1 := ensure_model_dir st name version (disk st) in
  let '(metadata', d2) := save model dir metadata d1 in
  let entry := {| Registry.model_id := model_id;
                  Registry.model_name := name;
                  Registry.version := version;
                  path := dir;
                  registered_at := Some now;
                  Registry.metrics := default [] metrics;
                  Registry.metadata := default [] metadata';
                  status := "active";
                  stage := None |} in
  let versions := default [] (registry st !! name) in
  let registry' := <[name := Dict.set version entry versions]> (registry st) in
  let d3 := match metrics with
            | Some (_ :: _ as m) =>
                <[path_join dir "metrics.json" := Blob (render_metrics m)]> d2
            | _ => d2
            end in
  (model_id,
   _save_registry {| registry_path := registry_path st;
                     registry := registry';
                     disk := d3 |}).

End Save.

(** A fresh registry directory, and a model to register. *)
Definition st_fresh : State :=
  {| registry_path := "models"; registry := ∅; disk := {[ "models" := Dir ]} |}.

Definition lr_artifact : BaseModel (Obj:=string) :=
  {| bm_name := "logistic_regression"; bm_params := "{}";
     bm_model := "weights"; bm_is_trained := true |}.

Definition demo_register (st : State) (version now : string) : string * State :=
  register_model (λ o, "pkl:" +:+ o) (λ _, "meta") (λ _, "metrics")
    st lr_artifact "logistic_regression" version
    (Some [("accuracy", (95 # 100)%Q)]) None now.

End RegistryOps.

(** ** File names *)
(** The last character of a path; the files of a model directory and the
    index are told apart by it. *)
Fixpoint last_char (s : string) : option Ascii.ascii :=
  match s with
  | EmptyString => None
  | String c EmptyString => Some c
  | String _ s' => last_char s'
  end.

(** ** [src/models/train.py]: [train_all_models], [get_trained_model];
       [HybridEnsembleModel.get_base_model_names] *)
Module TrainerOps.
Import Trainer.
Section TrainerOps.
Context {Data Handle Params : Type}.
Context (config_models : list string)
        (config_params : string → Params)
        (estimator_build : string → Params → Res Handle)
        (estimator_fit : string → Handle → Data → Res Handle)
        (vote_build : list (option Handle) → Params → Res Handle)
        (vote_fit : Handle → Data → Res Handle)
        (config_models_to_train : option (list string)).  (* models_to_train of training_config *)

Local Abbreviation Mdl := (@Model Handle Params).

Local Notation "'let*' x := m 'in' k" := (bind m (λ x, k))
  (at level 10, x name, m at level 100, k at level 200).

(** The loop of [train_all_models], lines 142-148: an exception is logged
    and raised again. *)
Fixpoint train_each (train_model : string → option Params → @M Handle Params Mdl)
    (models_to_train : list string) (trained_models : list (string * Mdl))
  : @M Handle Params (list (string * Mdl)) :=
  match models_to_train with
  | [] => ret trained_models
  | model_name :: rest =>
      let* model := train_model model_name None in
      train_each train_model rest (Dict.set model_name model trained_models)
  end.

(** Lines 134-136. *)
Definition names_to_train (models_to_train : option (list string)) : list string :=
  match models_to_train with
  | Some l => l
  | None => default MODEL_REGISTRY config_models_to_train
  end.

(** [train_all_models], lines 120-151. *)
Definition train_all_models (fuel : nat) (data : Data)
    (models_to_train : option (list string)) : @M Handle Params (list (string * Mdl)) :=
  train_each (train_model config_models config_params estimator_build estimator_fit
                          vote_build vote_fit fuel data)
             (names_to_train models_to_train) [].

(** [get_trained_model], lines 153-163. *)
Definition get_trained_model (model_name : string)
  : M (Handle:=Handle) (Params:=Params) (option Model) :=
  cached model_name.

(** [HybridEnsembleModel.get_base_model_names], lines 97-104. *)
Definition get_base_model_names (self : Model (Handle:=Handle) (Params:=Params))
  : list string :=
  model_name <$> base_models self.

(** Every cached model sits under its own name. *)
Definition cache_named (s : TrainerState (Handle:=Handle) (Params:=Params)) : Prop :=
  ∀ k m, trained_models s !! k = Some m → model_name m = k.

End TrainerOps.

(** A run in which fitting gradient boosting raises. *)
Definition demo_fit_gb_fails (name : string) (h : string) (_ : unit) : Res string :=
  if decide (name = "gradient_boosting") then Err (External "fit") else Ok (h +:+ "*").

Definition demo_train_model_with (fit_ : string → string → unit → Res string)
    (fuel : nat)
  : string → option unit → M (Handle:=string) (Params:=unit)
                             (Model (Handle:=string) (Params:=unit)) :=
  train_model [] (λ _, tt) demo_build fit_ demo_vote_build demo_vote_fit fuel tt.

Definition demo_train_all (fit_ : string → string → unit → Res string)
    (models_to_train : option (list string))
  : M (Handle:=string) (Params:=unit)
      (list (string * Model (Handle:=string) (Params:=unit))) :=
  train_all_models [] (λ _, tt) demo_build fit_ demo_vote_build demo_vote_fit None
                   2 tt models_to_train.

End TrainerOps.

(** ** [src/pipelines/inference_pipeline.py]: [predict],
       [predict_with_confidence], [predict_single], [batch_predict] *)
Module Pipeline.
Import Inference Predictor.
Section Pipeline.
(** The feature matrix [prepare_input] returns is what the predictor is
    called on: a row is a list of cells. *)
Context {V : Type} (nan : V) (feature_names : list string).

Local Abbreviation Loaded := (ModelPredictor (Row:=list V)).

(** What [predict] and [batch_predict] return: the array of labels, or a
    dictionary ([positive_probability] is a key of [predict]'s only). *)
Inductive Output :=
  | Labels (predictions : list Z)
  | WithProba (predictions : list Z) (probabilities : Proba)
              (positive_probability : option (list Q)).

(** [predict], lines 116-148; [self] is [self.predictor]. *)
Definition predict (self : Loaded) (data : Input) (return_proba : bool) : Res Output :=
  try X := prepare_input nan feature_names data in
  if return_proba then
    try predictions := Predictor.predict self (Array X) in
    try probabilities := Predictor.predict_proba self (Array X) in
    try positive := column probabilities 1 in
    Ok (WithProba predictions probabilities (Some positive))
  else
    try predictions := Predictor.predict self (Array X) in
    Ok (Labels predictions).

(** [predict_with_confidence], lines 150-173. *)
Definition predict_with_confidence (self : Loaded) (data : Input) (threshold : Q)
  : Res Confidence :=
  try X := prepare_input nan feature_names data in
  Predictor.predict_with_confidence self (Array X) threshold.

(** [a[i]] for a non-negative [i]. *)
Definition item {A} (a : list A) (i : nat) : Res A :=
  match a !! i with
  | Some x => Ok x
  | None => Err IndexError
  end.

(** The dictionary [predict_single] returns; the two probabilities are
    present when [return_proba] is set. *)
Record Single := {
  prediction : Z;
  diagnosis : string;
  single_confidence : Q;
  probability_benign : option Q;
  probability_malignant : option Q
}.

(** [predict_single], lines 175-200. *)
Definition predict_single (self : Loaded) (features : list (string * V))
    (return_proba : bool) : Res Single :=
  try result := predict_with_confidence self (InList [features]) (1 # 2)%Q in
  try p := item (predictions result) 0 in
  try c := item (confidence result) 0 in
  let d := if decide (p = 1%Z) then "Malignant" else "Benign" in
  if return_proba then
    try row := item (prows (probabilities result)) 0 in
    try pb := item row 0 in
    try pm := item row 1 in
    Ok {| prediction := p; diagnosis := d; single_confidence := c;
          probability_benign := Some pb; probability_malignant := Some pm |}
  else
    Ok {| prediction := p; diagnosis := d; single_confidence := c;
          probability_benign := None; probability_malignant := None |}.

(** [batch_predict], lines 202-234. *)
Definition batch_predict (self : Loaded) (data : Input) (batch_size : Z)
    (return_proba : bool) : Res Output :=
  try X := prepare_input nan feature_names data in
  try predictions := Predictor.batch_predict self (Array X) batch_size in
  if return_proba then
    try probabilities := Predictor.predict_proba self (Array X) in
    Ok (WithProba predictions probabilities None)
  else Ok (Labels predictions).

End Pipeline.

(** A classifier over one-feature rows of the pipeline: positive when the
    feature is. *)
Definition head_sign (r : list Z) : Z := sign_label (default 0%Z (head r)).

Definition head_model : BaseModel (Row:=list Z) :=
  {| is_trained := true;
     model_predict := λ X, Ok (head_sign <$> X);
     model_predict_proba :=
       Some (λ X, Ok {| ncols := 2;
                        prows := (λ r, sign_proba (default 0%Z (head r))) <$> X |}) |}.

End Pipeline.

(** ** [src/monitoring/data_drift.py]: the Kolmogorov-Smirnov test *)
Module DriftKS.
Import Drift.
Section KS.
(** [Series] is one column of a DataFrame, and a DataFrame its labelled
    columns in order (labels are taken to be distinct, as [df[column]] is
    a single column only then); [ks_2samp] is scipy's, which returns the
    statistic and the p-value, or raises. *)
Context {Series : Type} (ks_2samp : Series → Series → Res (Q * Q)).

Record KsDetail := {
  ks_statistic : Q;
  p_value : Q;
  ks_drifted : bool
}.

Record KsSummary := {
  ks_total_features : nat;
  ks_drifted_features : list string;
  ks_drift_count : nat;
  drift_percentage : Q;
  ks_threshold : Q;
  ks_details : list (string * KsDetail)
}.

(** How the call can fail: the division of line 95, or an exception of
    the kinds listed in [Exn]. *)
Inductive Failure :=
  | ZeroDivisionError
  | Raised (e : Exn).

(** The loop of lines 71-89 over the reference columns. *)
Fixpoint ks_scan (current : list (string * Series)) (threshold : Q)
    (reference : list (string * Series))
    (drift_results : list (string * KsDetail)) (drifted_features : list string)
  : Res (list (string * KsDetail) * list string) :=
  match reference with
  | [] => Ok (drift_results, drifted_features)
  | (column, ref) :: rest =>
      match Dict.get column current with
      | None => ks_scan current threshold rest drift_results drifted_features  (* continue *)
      | Some cur =>
          match ks_2samp ref cur with
          | Err e => Err e
          | Ok (statistic, p) =>
              let is_drifted := Qgt_bool threshold p in         (* p_value < threshold *)
              ks_scan current threshold rest
                (Dict.set column {| ks_statistic := statistic; p_value := p;
                                    ks_drifted := is_drifted |} drift_results)
                (if is_drifted then drifted_features ++ [column] else drifted_features)
          end
      end
  end.

(** [len(a) / len(b) * 100] for a non-zero [len(b)]. *)
Definition percentage (a b : nat) : Q :=
  (inject_Z (Z.of_nat a) / inject_Z (Z.of_nat b) * 100)%Q.

(** [detect_drift_ks_test], lines 52-107. *)
Definition detect_drift_ks_test (reference_data : option (list (string * Series)))
    (current_data : list (string * Series)) (threshold : Q) : Failure + KsSummary :=
  match reference_data with
  | None => inl (Raised (ValueError "Reference data not set"))
  | Some reference =>
      match ks_scan current_data threshold reference [] [] with
      | Err e => inl (Raised e)
      | Ok (drift_results, drifted_features) =>
          if decide (length drift_results = 0) then inl ZeroDivisionError
          else inr {| ks_total_features := length drift_results;
                      ks_drifted_features := drifted_features;
                      ks_drift_count := length drifted_features;
                      drift_percentage :=
                        percentage (length drifted_features) (length drift_results);
                      ks_threshold := threshold;
                      ks_details := drift_results |}
      end
  end.

End KS.

(** A test that reports the distance of two one-number columns as its
    p-value. *)
Definition demo_ks (a b : Q) : Res (Q * Q) := Ok (0%Q, Qabs (a - b)).

Definition demo_ks_reference : list (string * Q) :=
  [("area", 10%Q); ("texture", (1 # 100)%Q); ("gone", 1%Q)].

Definition demo_ks_current : list (string * Q) :=
  [("texture", (2 # 100)%Q); ("area", 15%Q); ("extra", 1%Q)].

End DriftKS.

(** ** [src/models/evaluate.py]: comparing models, the best model *)
Module Evaluator.
Section Evaluator.
(** [Mdl] is a model instance, [Data] the pair (X, y_true).
    [evaluate_metrics] is what [evaluate] computes from a model:
    [predict], [predict_proba] and scikit-learn's scores; of the metrics
    dictionary the scalar entries are kept. *)
Context {Mdl Data : Type}
        (evaluate_metrics : Mdl → Data → Res (list (string * Q))).

(** [ModelEvaluator]: [self.model]. *)
Definition ModelEvaluator := option Mdl.

Definition E (A : Type) : Type := ModelEvaluator → Res A * ModelEvaluator.

(** [set_model], lines 34-41. *)
Definition set_model (model : Mdl) : E unit := λ _, (Ok tt, Some model).

(** [evaluate], lines 43-74. *)
Definition evaluate (data : Data) : E (list (string * Q)) :=
  λ self,
    match self with
    | None => (Err (ValueError "No model set. Call set_model() first."), self)
    | Some model => (evaluate_metrics model data, self)
    end.

(** [compare_models], lines 129-153: the loop over [models.items()]. *)
Fixpoint compare_loop (models : list (string * Mdl)) (data : Data)
    (results : list (string * list (string * Q)))
  : E (list (string * list (string * Q))) :=
  λ self,
    match models with
    | [] => (Ok results, self)
    | (model_name, model) :: rest =>
        let '(_, self1) := set_model model self in
        match evaluate data self1 with
        | (Ok metrics, self2) =>
            compare_loop rest data (Dict.set model_name metrics results) self2
        | (Err e, self2) => (Err e, self2)
        end
    end.

Definition compare_models (models : list (string * Mdl)) (data : Data)
  : E (list (string * list (string * Q))) :=
  compare_loop models data [].

(** Python's [max(iterable, key=...)] with numeric keys, the keys already
    computed: a later item replaces the candidate only when its key is
    strictly greater. *)
Fixpoint max_by_key {A} (best : A * Q) (rest : list (A * Q)) : A * Q :=
  match rest with
  | [] => best
  | x :: rest' =>
      max_by_key (if Qle_bool x.2 best.2 then best else x) rest'
  end.

(** The keys [results[name][metric]], computed in order; a missing
    metric is a [KeyError]. *)
Fixpoint metric_keys (metric : string) (results : list (string * list (string * Q)))
  : Res (list (string * Q)) :=
  match results with
  | [] => Ok []
  | (name, metrics) :: rest =>
      match Dict.get metric metrics with
      | None => Err (KeyError metric)
      | Some v =>
          match metric_keys metric rest with
          | Ok ks => Ok ((name, v) :: ks)
          | Err e => Err e
          end
      end
  end.

(** [get_best_model], lines 155-183. *)
Definition get_best_model (models : list (string * Mdl)) (data : Data) (metric : string)
  : E (string * Mdl * list (string * Q)) :=
  λ self,
    match compare_models models data self with
    | (Err e, self1) => (Err e, self1)
    | (Ok results, self1) =>
        match metric_keys metric results with
        | Err e => (Err e, self1)
        | Ok [] => (Err (ValueError "max() arg is an empty sequence"), self1)
        | Ok (k :: ks) =>
            let best_name := (max_by_key k ks).1 in
            match Dict.get best_name models, Dict.get best_name results with
            | Some best_model, Some best_metrics =>
                (Ok (best_name, best_model, best_metrics), self1)
            | _, _ => (Err (KeyError best_name), self1)
            end
        end
    end.

End Evaluator.

(** Three models that are their own accuracy. *)
Definition demo_models : list (string * Q) :=
  [("logistic_regression", (95 # 100)%Q); ("gradient_boosting", (97 # 100)%Q);
   ("neural_network", (97 # 100)%Q)].

Definition demo_evaluate (m : Q) (_ : unit) : Res (list (string * Q)) :=
  Ok [("accuracy", m)].

End Evaluator.

(** ** [src/pipelines/training_pipeline.py]: [save_models] *)
Module TrainingPipeline.
Import Registry RegistryOps.
Section SaveModels.
Context {Obj : Type} (dumps : Obj → string)
        (render_metadata : list (string * string) → string)
        (render_metrics : list (string * Q) → string).

(** [save_models], lines 179-208: every trained model is registered under
    its name and the one [version], with the metrics of its evaluation
    ([{}] when it has none) and a fresh metadata dictionary.  [clock i] is
    what [datetime.now().isoformat()] answers in the registration of the
    [i]-th model from [i0] on. *)
Fixpoint save_models (st : State) (trained_models : list (string * BaseModel (Obj:=Obj)))
    (evaluation : list (string * list (string * Q))) (version : string)
    (metadata : list (string * string)) (clock : nat → string) (i0 : nat) : State :=
  match trained_models with
  | [] => st
  | (model_name, model) :: rest =>
      let metrics := default [] (Dict.get model_name evaluation) in
      let st' := (register_model dumps render_metadata render_metrics
                    st model model_name version (Some metrics) (Some metadata)
                    (clock i0)).2 in
      save_models st' rest evaluation version metadata clock (S i0)
  end.

End SaveModels.
End TrainingPipeline.

(** ** [src/features/build_features.py] *)
Module Features.
Import Inference.
Section FeatureBuilder.
Context {V : Type}.

(** [FeatureBuilder]: [self.features], [self.target]. *)
Record FeatureBuilder := {
  features : list string;
  target : string
}.

(** [df[names]] for a list of labels: a label not in the columns is a
    [KeyError]; every column carrying a label is taken. *)
Definition getitem_frame (df : DataFrame (V:=V)) (names : list string) : Res DataFrame :=
  match filter (λ f, f ∉ columns df) names with
  | [] => Ok {| columns := names ≫= (λ f, filter (λ c, c = f) (columns df));
                rows := (λ row, names ≫= (λ f, cells_of f (columns df) row)) <$> rows df |}
  | f :: _ => Err (KeyError f)
  end.

(** [df[name]], row by row. *)
Definition getitem_column (df : DataFrame (V:=V)) (name : string) : list (list V) :=
  (λ row, cells_of name (columns df) row) <$> rows df.

(** [select_features], lines 31-55. *)
Definition select_features (self : FeatureBuilder) (df : DataFrame (V:=V)) : Res DataFrame :=
  let columns_to_select :=
    if decide (target self ∈ columns df ∧ target self ∉ features self)
    then features self ++ [target self] else features self in
  let existing_columns := filter (λ col, col ∈ columns df) columns_to_select in
  getitem_frame df existing_columns.

(** [get_X_y], lines 57-75. *)
Definition get_X_y (self : FeatureBuilder) (df : DataFrame (V:=V))
  : Res (DataFrame * list (list V)) :=
  if decide (target self ∈ columns df) then
    match getitem_frame df (features self) with
    | Ok X => Ok (X, getitem_column df (target self))
    | Err e => Err e
    end
  else Err (ValueError "Target column not found in dataframe").

(** [get_feature_names], lines 77-84. *)
Definition get_feature_names (self : FeatureBuilder) : list string := features self.

End FeatureBuilder.
End Features.

(** ** [src/utils/config.py] *)
Module Config.

(** A parsed YAML document; of a mapping the entries with string keys. *)
#[warnings="-register-all"]
Inductive Yaml :=
  | YNull
  | YScalar (s : string)
  | YSeq (items : list Yaml)
  | YMap (entries : list (string * Yaml)).

(** How [load] can fail. *)
Inductive ConfigError :=
  | ConfigFileNotFound (path : string)   (* FileNotFoundError, line 47 *)
  | Unparsable.                          (* raised by [yaml.safe_load] *)

(** The files: a path that exists holds a document, or text that
    [yaml.safe_load] rejects.  [Config._configs] is the cache. *)
Abbreviation Files := (gmap string (option Yaml)).
Abbreviation Cache := (gmap string Yaml).

(** [config_dir / f"{config_name}.yaml"] *)
Definition default_path (config_name : string) : string :=
  "configs/" +:+ config_name +:+ ".yaml".

(** [Config.load], lines 26-53. *)
Definition load (fs : Files) (config_name : string) (config_path : option string)
    (_configs : Cache) : (ConfigError + Yaml) * Cache :=
  match _configs !! config_name with
  | Some config => (inr config, _configs)
  | None =>
      let config_path := default (default_path config_name) config_path in
      match fs !! config_path with
      | None => (inl (ConfigFileNotFound config_path), _configs)
      | Some None => (inl Unparsable, _configs)
      | Some (Some config) => (inr config, <[config_name := config]> _configs)
      end
  end.

(** [key.split(".")] and, in general, [s.split(sep)] for a one-character
    separator: the result is never empty. *)
Fixpoint split_on (sep : Ascii.ascii) (s : string) : list string :=
  match s with
  | EmptyString => [EmptyString]
  | String c s' =>
      if decide (c = sep) then EmptyString :: split_on sep s'
      else match split_on sep s' with
           | [] => [String c EmptyString]
           | w :: ws => String c w :: ws
           end
  end.

(** The character of [key.split(".")]. *)
Definition dot : Ascii.ascii :=
  Eval cbv in match "."%string with String c _ => c | EmptyString => Ascii.zero end.

(** The loop of lines 79-83: [None] where the code returns [default]. *)
Fixpoint walk (value : Yaml) (keys : list string) : option Yaml :=
  match keys with
  | [] => Some value
  | k :: keys' =>
      match value with
      | YMap entries =>
          match Dict.get k entries with
          | Some v => walk v keys'
          | None => None
          end
      | _ => None
      end
  end.

(** [Config.get], lines 55-85. *)
Definition get (fs : Files) (config_name : string) (key : option string)
    (default_ : Yaml) (_configs : Cache) : (ConfigError + Yaml) * Cache :=
  let loaded :=
    match _configs !! config_name with
    | Some _ => (None, _configs)
    | None =>
        match load fs config_name None _configs with
        | (inl e, c) => (Some e, c)
        | (inr _, c) => (None, c)
        end
    end in
  match loaded with
  | (Some e, c) => (inl e, c)
  | (None, c) =>
      match c !! config_name with
      | None => (inl Unparsable, c)          (* not reached: [load] has cached it *)
      | Some config =>
          match key with
          | None => (inr config, c)
          | Some key => (inr (default default_ (walk config (split_on dot key))), c)
          end
      end
  end.

(** [Config.reload], lines 87-99. *)
Definition reload (fs : Files) (config_name : string) (_configs : Cache)
  : (ConfigError + Yaml) * Cache :=
  load fs config_name None (delete config_name _configs).

(** A model configuration. *)
Definition demo_model_config : Yaml :=
  YMap [("target", YScalar "target");
        ("hybrid_ensemble",
           YMap [("models", YSeq [YScalar "logistic_regression"]);
                 ("voting", YScalar "soft")])].

Definition demo_files : Files := {[ "configs/model_config.yaml" := Some demo_model_config ]}.

End Config.

(** ** [ModelPredictor.load_model] of [src/models/predict.py] and
       [InferencePipeline.load_model_from_registry] *)
Module Serving.
Import Registry RegistryOps.

(** The keys of [ModelPredictor.MODEL_REGISTRY], in order. *)
Definition MODEL_REGISTRY : list string :=
  ["logistic_regression"; "gradient_boosting"; "neural_network"; "hybrid_ensemble"].

(** [needle in hay] on strings. *)
Fixpoint contains (needle hay : string) : bool :=
  String.prefix needle hay
  || match hay with
     | EmptyString => false
     | String _ hay' => contains needle hay'
     end.

Definition slash : Ascii.ascii :=
  Eval cbv in match "/"%string with String c _ => c | EmptyString => Ascii.zero end.

(** [Path(p).name]: the last component. *)
Definition basename (p : string) : string :=
  default "" (last (Config.split_on slash p)).

(** Lines 54-65: the name of the class that [load_model] instantiates. *)
Definition model_class_name (model_path : string) : string :=
  let model_name := basename model_path in
  let model_name :=
    if decide (model_name ∈ MODEL_REGISTRY) then model_name
    else default model_name (head (filter (λ r, contains r model_path = true) MODEL_REGISTRY)) in
  if decide (model_name ∈ MODEL_REGISTRY) then model_name else "logistic_regression".

Section Serving.
(** [instantiate] is [model_class()] by class name, which reads the
    configuration and may build an estimator. *)
Context {Obj : Type} (loads : string → option Obj)
        (instantiate : string → Res (BaseModel (Obj:=Obj))).

Inductive ServeError :=
  | ModelPathNotFound (path : string)            (* FileNotFoundError, line 52 *)
  | NotInRegistry (name version : string)        (* FileNotFoundError, pipeline line 62 *)
  | Construct (e : Exn)
  | Load (e : LoadError).

(** [ModelPredictor.load_model], lines 42-71; the second component is
    [self.model] afterwards. *)
Definition load_model (d : gmap string Node) (model_path : string)
    (self : option (BaseModel (Obj:=Obj))) : option ServeError * option BaseModel :=
  match d !! model_path with
  | None => (Some (ModelPathNotFound model_path), self)
  | Some _ =>
      match instantiate (model_class_name model_path) with
      | Err e => (Some (Construct e), self)
      | Ok instance =>
          match load loads instance model_path d with
          | inl e => (Some (Load e), Some instance)
          | inr loaded => (None, Some loaded)
          end
      end
  end.

(** [InferencePipeline.load_model_from_registry], lines 49-68. *)
Definition load_model_from_registry (st : State) (model_name version : string)
    (self : option (BaseModel (Obj:=Obj))) : option ServeError * option BaseModel :=
  match get_model_path st model_name version with
  | None => (Some (NotInRegistry model_name version), self)
  | Some model_path => load_model (disk st) model_path self
  end.

(** The same instance as prediction sees it: the flag and the methods of
    the wrapped estimator. *)
Definition as_predictor {Row}
    (estimator_predict : Obj → list Row → Res (list Z))
    (estimator_predict_proba : Obj → option (list Row → Res Predictor.Proba))
    (m : BaseModel (Obj:=Obj)) : Predictor.BaseModel (Row:=Row) :=
  {| Predictor.is_trained := bm_is_trained m;
     Predictor.model_predict := estimator_predict (bm_model m);
     Predictor.model_predict_proba := estimator_predict_proba (bm_model m) |}.

End Serving.
End Serving.

(** ** A registry in which the version registered last is not the newer
       of the first two *)
Module RegistryExamples.
Import Registry.

Definition e_jan : Entry := entry_m "1.0" "2024-01-15T09:00:00.000000".
Definition e_feb : Entry := entry_m "1.1" "2024-02-15T09:00:00.000000".
Definition e_mar : Entry := entry_m "0.9" "2024-03-15T09:00:00.000000".

Definition three_versions : list (string * Entry) :=
  [("1.0", e_jan); ("1.1", e_feb); ("0.9", e_mar)].

Definition st_three : State :=
  {| registry_path := "models";
     registry := {[ "m" := three_versions ]};
     disk := {[ "models" := Dir;
                "models/registry.json" := IndexDoc {[ "m" := three_versions ]};
                "models/m/1.0" := Dir;
                "models/m/1.1" := Dir;
                "models/m/0.9" := Dir ]} |}.

End RegistryExamples.

(** ** A classifier whose labels depend on the batch *)
Module PredictorExamples.
Import Predictor.

(** It compares every row with the first row of the batch it is given:
    1 when the row is greater, 0 otherwise. *)
Definition relative_label (X : list Z) (x : Z) : Z :=
  if decide (default 0 (head X) < x)%Z then 1%Z else 0%Z.

Definition relative_model : BaseModel (Row:=Z) :=
  {| is_trained := true;
     model_predict := λ X, Ok (relative_label X <$> X);
     model_predict_proba := None |}.

End PredictorExamples.
(** ** A voting classifier that fits what it is given

    [HybridEnsembleModel.build] (hybrid_ensemble.py:69) calls
    [EnsembleVoteClassifier(clfs=clfs, **self.params)] and [fit] (line 92)
    calls its [fit(X, y)]; the repository passes nothing else.  Here the
    estimators record what their [fit] trained: a voting classifier fits
    every classifier it holds, as mlxtend's does unless
    [fit_base_estimators=False] is among its keyword arguments. *)
Module TrainerExamples.
Import Trainer.

#[warnings="-register-all"]
Inductive Est :=
  | Base (name : string) (fitted : bool)
  | Vote (clfs : list Est) (trained : list string).

Definition est_name (e : Est) : string :=
  match e with
  | Base name _ => name
  | Vote _ _ => "vote"
  end.

Definition refit_build (name : string) (_ : unit) : Res Est := Ok (Base name false).

Definition refit_fit (_ : string) (h : Est) (_ : unit) : Res Est :=
  match h with
  | Base name _ => Ok (Base name true)
  | Vote _ _ => Err (External "fit")
  end.

Definition refit_vote_build (clfs : list (option Est)) (_ : unit) : Res Est :=
  Ok (Vote (omap id clfs) []).

Definition refit_vote_fit (h : Est) (_ : unit) : Res Est :=
  match h with
  | Vote clfs _ => Ok (Vote clfs (est_name <$> clfs))
  | Base _ _ => Err (External "fit")
  end.

Definition cached_lr : Model (Handle:=Est) (Params:=unit) :=
  {| model_name := "logistic_regression"; params := tt;
     model := Some (Base "logistic_regression" true); is_trained := true;
     base_models := [] |}.

Definition lr_cached : TrainerState (Handle:=Est) (Params:=unit) :=
  {| trained_models := {[ "logistic_regression" := cached_lr ]}; trace := [] |}.

(* trainer.train_model("hybrid_ensemble", X, y) with no configured names *)
Definition refit_train_ensemble
  : M (Handle:=Est) (Params:=unit) (Model (Handle:=Est) (Params:=unit)) :=
  train_model [] (λ _, tt) refit_build refit_fit refit_vote_build refit_vote_fit
              2 tt "hybrid_ensemble" None.

End TrainerExamples.


(* ===================================================================== *)
(** * Properties *)
(* ===================================================================== *)

(** ** Ordered dictionaries *)
Section DictFacts.
Context {V : Type}.
Implicit Types (d : list (string * V)) (k : string) (v : V).

Lemma dict_get_elem_of d k v : Dict.get k d = Some v → (k, v) ∈ d.
Proof.
  induction d as [|[k' v'] d IH]; simpl; [done|].
  case_decide as Hk.
  - intros [= ->]. subst. left.
  - intros H. right. auto.
Qed.

Lemma dict_get_None d k : Dict.get k d = None ↔ k ∉ Dict.keys d.
Proof.
  induction d as [|[k' v'] d IH]; simpl.
  - split; [intros _; apply not_elem_of_nil | done].
  - unfold Dict.keys in *. simpl. rewrite not_elem_of_cons. case_decide as Hk.
    + split; [done | intros [? _]; congruence].
    + rewrite IH. split; [intros ?; split; [congruence | done] | by intros [_ ?]].
Qed.

Lemma dict_wf_get d k v : Dict.wf d → (k, v) ∈ d → Dict.get k d = Some v.
Proof.
  unfold Dict.wf, Dict.keys.
  induction d as [|[k' v'] d IH]; simpl; [by intros _ ?%elem_of_nil|].
  intros [Hk' Hd]%NoDup_cons [Heq|Hin]%elem_of_cons.
  - injection Heq as -> ->. by rewrite decide_True.
  - case_decide as Hk; [|by apply IH].
    subst k'. exfalso. apply Hk'. apply list_elem_of_fmap. by exists (k, v).
Qed.

Lemma dict_get_set_eq d k v : Dict.get k (Dict.set k v d) = Some v.
Proof.
  induction d as [|[k' v'] d IH]; simpl.
  - by rewrite decide_True.
  - case_decide as Hk; simpl; [by rewrite decide_True | by rewrite decide_False].
Qed.

Lemma dict_get_set_ne d k k' v : k ≠ k' → Dict.get k' (Dict.set k v d) = Dict.get k' d.
Proof.
  intros Hne. induction d as [|[k0 v0] d IH]; simpl.
  - by rewrite decide_False.
  - case_decide as Hk; simpl.
    + subst k0. by rewrite !decide_False.
    + case_decide; [done | apply IH].
Qed.

Lemma dict_keys_set_present d k v :
  is_Some (Dict.get k d) → Dict.keys (Dict.set k v d) = Dict.keys d.
Proof.
  unfold Dict.keys.
  induction d as [|[k0 v0] d IH]; simpl; [by intros [? ?]|].
  case_decide as Hk; simpl; [done|]. intros H. f_equal. by apply IH.
Qed.

(** Overwriting a present key changes one item and keeps every first
    component, position by position. *)
Lemma dict_set_Forall2 (R : V → V → Prop) d k v v0 :
  (∀ x, R x x) → Dict.get k d = Some v0 → R v0 v →
  Forall2 (λ x y, x.1 = y.1 ∧ R x.2 y.2) d (Dict.set k v d).
Proof.
  intros Hrefl. induction d as [|[k1 v1] d IH]; simpl; [done|].
  case_decide as Hk.
  - intros [= ->] HR. constructor; [done|].
    apply Forall_Forall2_diag, Forall_forall. intros [? ?] _. by simpl.
  - intros Hg HR. constructor; [by simpl | by apply IH].
Qed.

Lemma dict_keys_set d k v k' :
  k' ∈ Dict.keys (Dict.set k v d) ↔ k' = k ∨ k' ∈ Dict.keys d.
Proof.
  unfold Dict.keys. induction d as [|[k0 v0] d IH]; simpl.
  - rewrite list_elem_of_singleton. split; [by left | by intros [?|?%elem_of_nil]].
  - case_decide as Hk; simpl; rewrite !elem_of_cons.
    + subst k0. split; [intros [?|?]; auto | intros [?|[?|?]]; auto].
    + rewrite IH. split; [intros [?|[?|?]]; auto | intros [?|[?|?]]; auto].
Qed.

Lemma dict_set_fresh_length d k v :
  k ∉ Dict.keys d → length (Dict.set k v d) = S (length d).
Proof.
  unfold Dict.keys. induction d as [|[k0 v0] d IH]; simpl; [done|].
  intros [Hne Hnin]%not_elem_of_cons. rewrite decide_False by done.
  simpl. f_equal. by apply IH.
Qed.
End DictFacts.

(** ** Registry: version resolution and soft delete *)
Section RegistryFacts.
Import Registry.

Lemma string_ltb_asym (a b : string) : String.ltb a b = true → String.ltb b a = false.
Proof.
  unfold String.ltb. rewrite (String.compare_antisym b a).
  destruct (String.compare a b); simpl; congruence.
Qed.

Lemma string_ltb_leb (a b : string) : String.ltb a b = true → String.leb a b = true.
Proof. unfold String.ltb, String.leb. by destruct (String.compare a b). Qed.

Lemma string_leb_refl (a : string) : String.leb a a = true.
Proof.
  by destruct (String.leb_total a a).
Qed.

Section PyMax.
Context {A : Type} (key : A → string).

Lemma py_max_elem_of best rest : py_max key best rest ∈ best :: rest.
Proof.
  revert best. induction rest as [|x rest IH]; intros best; simpl; [left|].
  specialize (IH (if String.ltb (key best) (key x) then x else best)).
  apply elem_of_cons in IH as [->|IH].
  - destruct (String.ltb _ _); [right; left | left].
  - right; by right.
Qed.

(* a candidate no later item exceeds stays the candidate *)
Lemma py_max_keep best rest :
  (∀ y, y ∈ rest → String.ltb (key best) (key y) = false) →
  py_max key best rest = best.
Proof.
  induction rest as [|x rest IH]; simpl; [done|]. intros H.
  rewrite (H x) by left. apply IH. intros y Hy. apply H. by right.
Qed.

(* an item strictly above the candidate and above everything else wins *)
Lemma py_max_strict best l1 x l2 :
  String.ltb (key best) (key x) = true →
  (∀ y, y ∈ l1 → String.ltb (key y) (key x) = true) →
  (∀ y, y ∈ l2 → String.ltb (key y) (key x) = true) →
  py_max key best (l1 ++ x :: l2) = x.
Proof.
  revert best. induction l1 as [|y l1 IH]; intros best Hb H1 H2; simpl.
  - rewrite Hb. apply py_max_keep. intros y Hy. by apply string_ltb_asym, H2.
  - apply IH; [|intros; apply H1; by right|done].
    destruct (String.ltb (key best) (key y)); [apply H1; left | done].
Qed.

(* the winner of a list is the strict maximum when there is one *)
Lemma py_max_unique_max best rest x :
  x ∈ best :: rest →
  (∀ l1 l2, best :: rest = l1 ++ x :: l2 →
            ∀ y, y ∈ l1 ++ l2 → String.ltb (key y) (key x) = true) →
  py_max key best rest = x.
Proof.
  intros Hin Hmax.
  apply list_elem_of_split in Hin as (l1 & l2 & Heq).
  specialize (Hmax l1 l2 Heq).
  destruct l1 as [|b l1]; simpl in Heq; injection Heq as -> ->.
  - apply py_max_keep. intros y Hy. apply string_ltb_asym, Hmax. by simpl.
  - apply py_max_strict.
    + apply Hmax. left.
    + intros y Hy. apply Hmax. right. apply elem_of_app. by left.
    + intros y Hy. apply Hmax. right. apply elem_of_app. by right.
Qed.

(* the winner does not depend on anything but the keys *)
Lemma py_max_Forall2 {B} (key' : B → string) (R : A → B → Prop) best best' rest rest' :
  (∀ a b, R a b → key a = key' b) →
  R best best' → Forall2 R rest rest' →
  R (py_max key best rest) (py_max key' best' rest').
Proof.
  intros Hkey Hb HF. revert best best' Hb.
  induction HF as [|x x' rest rest' Hx HF IH]; intros best best' Hb; simpl; [done|].
  apply IH. rewrite <- (Hkey _ _ Hb), <- (Hkey _ _ Hx).
  by destruct (String.ltb _ _).
Qed.
End PyMax.

Lemma resolve_latest_strict_max (vs : list (string * Entry)) v2 e2 :
  Dict.wf vs → Dict.get v2 vs = Some e2 →
  (∀ v e, Dict.get v vs = Some e → v ≠ v2 →
          String.ltb (reg_key (v, e)) (reg_key (v2, e2)) = true) →
  resolve_version vs "latest" = Some v2.
Proof.
  intros Hwf Hget Hmax. unfold resolve_version. rewrite decide_True by done.
  destruct vs as [|x rest]; [done|].
  rewrite (py_max_unique_max reg_key x rest (v2, e2)); [done| |].
  - by apply dict_get_elem_of.
  - intros l1 l2 Heq [v e] Hy. apply Hmax.
    + apply dict_wf_get; [done|]. rewrite Heq.
      apply elem_of_app in Hy as [Hy|Hy]; apply elem_of_app; [by left|right; by right].
    + intros ->. unfold Dict.wf, Dict.keys in Hwf. rewrite Heq in Hwf.
      rewrite fmap_app, fmap_cons in Hwf. simpl in Hwf.
      apply NoDup_app in Hwf as (_ & Hdisj & [Hnin _]%NoDup_cons).
      apply elem_of_app in Hy as [Hy|Hy].
      * apply (Hdisj v2); [apply list_elem_of_fmap; by exists (v2, e) | left].
      * apply Hnin. apply list_elem_of_fmap. by exists (v2, e).
Qed.

Lemma resolve_latest_elem_of (vs : list (string * Entry)) :
  vs ≠ [] → ∃ v e, resolve_version vs "latest" = Some v ∧ (v, e) ∈ vs.
Proof.
  intros Hne. unfold resolve_version. rewrite decide_True by done.
  destruct vs as [|x rest]; [done|].
  pose proof (py_max_elem_of reg_key x rest) as Hin.
  destruct (py_max reg_key x rest) as [v e]. by exists v, e.
Qed.

Lemma get_model_path_resolved st name vs v e version :
  registry st !! name = Some vs → resolve_version vs version = Some v →
  Dict.get v vs = Some e →
  get_model_path st name version =
    if path_exists st (path e) then Some (path e) else None.
Proof.
  intros Hvs Hres Hget. unfold get_model_path. rewrite Hvs.
  destruct vs as [|x rest]; [done|]. by rewrite Hres, Hget.
Qed.

(** C1. When a name has versions [v1] and [v2] with
    [v1.registered_at < v2.registered_at] (string order) and every other
    version of the name is older than [v2], "latest" resolves to [v2],
    which maximizes [registered_at], and [get_model_path(name, "latest")]
    returns the path stored for [v2], provided it exists on disk. *)
Theorem get_model_path_latest_newest st name vs v1 v2 e1 e2 :
  registry st !! name = Some vs → Dict.wf vs →
  Dict.get v1 vs = Some e1 → Dict.get v2 vs = Some e2 →
  String.ltb (reg_key (v1, e1)) (reg_key (v2, e2)) = true →
  (∀ v e, Dict.get v vs = Some e → v ≠ v1 → v ≠ v2 →
          String.ltb (reg_key (v, e)) (reg_key (v2, e2)) = true) →
  path_exists st (path e2) = true →
  resolve_version vs "latest" = Some v2 ∧
  (∀ v e, Dict.get v vs = Some e →
          String.leb (reg_key (v, e)) (reg_key (v2, e2)) = true) ∧
  get_model_path st name "latest" = Some (path e2).
Proof.
  intros Hvs Hwf H1 H2 Hlt Hothers Hex.
  assert (Hmax : ∀ v e, Dict.get v vs = Some e → v ≠ v2 →
                   String.ltb (reg_key (v, e)) (reg_key (v2, e2)) = true).
  { intros v e Hg Hne. destruct (decide (v = v1)) as [->|Hne1].
    - rewrite H1 in Hg. by injection Hg as <-.
    - by apply Hothers. }
  pose proof (resolve_latest_strict_max vs v2 e2 Hwf H2 Hmax) as Hres.
  split; [done|]. split.
  - intros v e Hg. destruct (decide (v = v2)) as [->|Hne].
    + rewrite H2 in Hg. injection Hg as <-. apply string_leb_refl.
    + by apply string_ltb_leb, Hmax.
  - by rewrite (get_model_path_resolved st name vs v2 e2 _ Hvs Hres H2), Hex.
Qed.

Lemma get_model_path_latest_newest_witness :
  get_model_path st_m "m" "latest" = Some "models/m/1.1".
Proof.
  refine (proj2 (proj2 (get_model_path_latest_newest st_m "m" two_versions
                          "1.0" "1.1" e10 e11 _ _ _ _ _ _ _))).
  - reflexivity.
  - apply (bool_decide_unpack _). vm_compute. reflexivity.
  - reflexivity.
  - reflexivity.
  - reflexivity.
  - intros v e Hg Hv1 Hv2. simpl in Hg.
    repeat case_decide; congruence.
  - reflexivity.
Defined.

(** C1, as stated for any two versions of a name, fails when a third
    version is newer than both: versions 1.0 and 1.1 are registered with
    [1.0.registered_at < 1.1.registered_at] and the path of 1.1 exists,
    yet "latest" resolves to version 0.9, registered after them, and
    [get_model_path] returns its path, not that of 1.1. *)
Lemma latest_is_newest_of_all :
  registry RegistryExamples.st_three !! "m" = Some RegistryExamples.three_versions ∧
  Dict.get "1.0" RegistryExamples.three_versions = Some RegistryExamples.e_jan ∧
  Dict.get "1.1" RegistryExamples.three_versions = Some RegistryExamples.e_feb ∧
  String.ltb (reg_key ("1.0", RegistryExamples.e_jan))
             (reg_key ("1.1", RegistryExamples.e_feb)) = true ∧
  path_exists RegistryExamples.st_three (path RegistryExamples.e_feb) = true ∧
  resolve_version RegistryExamples.three_versions "latest" = Some "0.9" ∧
  get_model_path RegistryExamples.st_three "m" "latest" = Some "models/m/0.9" ∧
  get_model_path RegistryExamples.st_three "m" "latest"
    ≠ Some (path RegistryExamples.e_feb).
Proof.
  assert (Hget : get_model_path RegistryExamples.st_three "m" "latest"
                 = Some "models/m/0.9") by (vm_compute; reflexivity).
  split; [reflexivity|]. split; [reflexivity|]. split; [reflexivity|].
  split; [vm_compute; reflexivity|]. split; [vm_compute; reflexivity|].
  split; [vm_compute; reflexivity|]. split; [exact Hget|].
  rewrite Hget. vm_compute. discriminate.
Qed.

(** C7. [get_model_path] returns None exactly when the name is absent
    from the index, or has no versions, or the resolved version is not
    among its versions, or the resolved entry's path does not exist on
    disk; in every other case it returns the path stored in the resolved
    entry. *)
Theorem get_model_path_not_found st name version :
  (get_model_path st name version = None ↔
     registry st !! name = None ∨
     registry st !! name = Some [] ∨
     (∃ vs v, registry st !! name = Some vs ∧ vs ≠ [] ∧
              resolve_version vs version = Some v ∧ Dict.get v vs = None) ∨
     (∃ vs v e, registry st !! name = Some vs ∧ vs ≠ [] ∧
                resolve_version vs version = Some v ∧ Dict.get v vs = Some e ∧
                path_exists st (path e) = false)) ∧
  (∀ p, get_model_path st name version = Some p ↔
     ∃ vs v e, registry st !! name = Some vs ∧
               resolve_version vs version = Some v ∧ Dict.get v vs = Some e ∧
               path_exists st (path e) = true ∧ p = path e).
Proof.
  unfold get_model_path.
  destruct (registry st !! name) as [vs|] eqn:Hvs.
  2:{ split; [split; [by left|done]|].
      intros p; split; [done|]. by intros (? & ? & ? & [=] & _). }
  destruct vs as [|x rest] eqn:Hcons.
  { split; [split; [right; by left|done]|].
    intros p; split; [done|]. intros (vs' & v & e & [= <-] & Hres & Hg & _).
    by destruct v. }
  rewrite <- Hcons in *.
  assert (Hne : vs ≠ []) by (by rewrite Hcons).
  assert (∃ v, resolve_version vs version = Some v) as [v Hres].
  { unfold resolve_version. case_decide; [|by eexists].
    rewrite Hcons. by eexists. }
  rewrite Hres.
  destruct (Dict.get v vs) as [e|] eqn:Hg.
  2:{ split.
      - split; [intros _; right; right; left; by exists vs, v|done].
      - intros p; split; [done|].
        intros (? & ? & ? & [= <-] & Hres' & Hg' & _). congruence. }
  destruct (path_exists st (path e)) eqn:Hex.
  - split.
    + split; [done|]. intros [?|[?|[H|H]]]; try congruence.
      * destruct H as (? & ? & [= <-] & _ & ? & ?). congruence.
      * destruct H as (? & ? & ? & [= <-] & _ & ? & ? & ?). congruence.
    + intros p; split.
      * intros [= <-]. by exists vs, v, e.
      * intros (? & v' & e' & [= <-] & Hres' & Hg' & _ & ->). congruence.
  - split.
    + split; [intros _; right; right; right; by exists vs, v, e|done].
    + intros p; split; [done|].
      intros (? & v' & e' & [= <-] & Hres' & Hg' & Hex' & _). congruence.
Qed.

Lemma ensure_dir_lookup_present p q (d : gmap string Node) :
  is_Some (d !! q) → ensure_dir p d !! q = d !! q.
Proof.
  intros Hq. unfold ensure_dir. destruct (d !! p) eqn:Hp; [done|].
  rewrite lookup_insert_ne; [done|]. intros ->. rewrite Hp in Hq. by destruct Hq.
Qed.

Lemma ensure_dir_lookup_ne p q (d : gmap string Node) :
  p ≠ q → ensure_dir p d !! q = d !! q.
Proof.
  intros Hne. unfold ensure_dir. destruct (d !! p); [done|].
  by rewrite lookup_insert_ne.
Qed.

Lemma ensure_dir_is_Some p q (d : gmap string Node) :
  is_Some (d !! p) → is_Some (ensure_dir p d !! q) ↔ is_Some (d !! q).
Proof. intros [n Hp]. unfold ensure_dir. by rewrite Hp. Qed.

(** Marking an entry deleted leaves what "latest" looks at untouched. *)
Lemma resolve_version_set_status (vs : list (string * Entry)) version e s req :
  Dict.get version vs = Some e →
  resolve_version (Dict.set version (set_status e s) vs) req = resolve_version vs req.
Proof.
  intros Hg. unfold resolve_version. case_decide; [|done].
  pose proof (dict_set_Forall2
                (λ a b : Entry, registered_at a = registered_at b)
                vs version (set_status e s) e (λ _, eq_refl) Hg eq_refl) as HF.
  destruct HF as [|x y rest rest' Hxy HF]; [done|].
  f_equal. symmetry.
  refine (proj1 (py_max_Forall2 reg_key reg_key
           (λ a b : string * Entry, a.1 = b.1 ∧ registered_at a.2 = registered_at b.2)
           x y rest rest' _ Hxy HF)).
  intros a b [_ Hr]. unfold reg_key. by rewrite Hr.
Qed.

Lemma save_registry_disk_other st p :
  p ≠ registry_file st → is_Some (disk st !! p) ∨ p ≠ registry_path st →
  disk (_save_registry st) !! p = disk st !! p.
Proof.
  intros Hrf Hp. unfold _save_registry. simpl.
  rewrite lookup_insert_ne by done.
  destruct Hp; [by apply ensure_dir_lookup_present | by apply ensure_dir_lookup_ne].
Qed.

Lemma save_registry_path_exists st p :
  index_on_disk st → path_exists (_save_registry st) p = path_exists st p.
Proof.
  intros [Hdir Hfile]. unfold path_exists. apply bool_decide_ext.
  unfold _save_registry. simpl.
  destruct (decide (p = registry_file st)) as [->|Hne].
  - rewrite lookup_insert_eq. split; [done | by eexists].
  - rewrite lookup_insert_ne by done. by apply ensure_dir_is_Some.
Qed.

(** Every save leaves the index on disk, so [index_on_disk] holds after
    any mutation of the registry. *)
Lemma save_registry_index_on_disk st : index_on_disk (_save_registry st).
Proof.
  unfold index_on_disk, _save_registry, registry_file. simpl. split.
  - destruct (decide (registry_path st +:+ "/registry.json" = registry_path st)) as [->|Hne].
    + rewrite lookup_insert_eq. by eexists.
    + rewrite lookup_insert_ne by done. unfold ensure_dir.
      destruct (disk st !! registry_path st) eqn:Hd; [by rewrite Hd|].
      rewrite lookup_insert_eq. by eexists.
  - rewrite lookup_insert_eq. by eexists.
Qed.

(** C9. For a registered (name, version), [delete_model] returns true;
    afterwards that entry has status [deleted] and all its other fields
    as before, every other version of the name and every other name is
    unchanged, the order of the versions is unchanged, every path that
    existed other than the index document holds what it held, and
    "latest" resolves as before, so [get_model_path(name, "latest")]
    gives the same answer.  For an unregistered (name, version) it
    returns false and the state is unchanged. *)
Theorem delete_model_soft st name version :
  (∀ vs e, registry st !! name = Some vs → Dict.get version vs = Some e →
     ∃ st' vs' e',
       delete_model st name version = (true, st') ∧
       registry st' !! name = Some vs' ∧
       Dict.get version vs' = Some e' ∧
       status e' = "deleted" ∧
       (model_id e' = model_id e ∧ model_name e' = model_name e ∧
        Registry.version e' = Registry.version e ∧ path e' = path e ∧
        registered_at e' = registered_at e ∧ metrics e' = metrics e ∧
        metadata e' = metadata e ∧ stage e' = stage e) ∧
       (∀ v, v ≠ version → Dict.get v vs' = Dict.get v vs) ∧
       Dict.keys vs' = Dict.keys vs ∧
       (∀ n, n ≠ name → registry st' !! n = registry st !! n) ∧
       registry_path st' = registry_path st ∧
       (∀ p, p ≠ registry_file st → is_Some (disk st !! p) →
             disk st' !! p = disk st !! p) ∧
       (∀ p, p ≠ registry_file st → p ≠ registry_path st →
             disk st' !! p = disk st !! p) ∧
       resolve_version vs' "latest" = resolve_version vs "latest" ∧
       (index_on_disk st →
        get_model_path st' name "latest" = get_model_path st name "latest")) ∧
  (registry st !! name = None ∨
   (∃ vs, registry st !! name = Some vs ∧ Dict.get version vs = None) →
   delete_model st name version = (false, st)).
Proof.
  split.
  - intros vs e Hvs Hg.
    set (e' := set_status e "deleted").
    set (vs' := Dict.set version e' vs).
    set (st0 := {| registry_path := registry_path st;
                   registry := <[name := vs']> (registry st);
                   disk := disk st |}).
    exists (_save_registry st0), vs', e'.
    assert (Hres : ∀ req, resolve_version vs' req = resolve_version vs req)
      by (intros req; by apply resolve_version_set_status).
    split; [unfold delete_model; by rewrite Hvs, Hg|].
    split; [simpl; apply lookup_insert_eq|].
    split; [apply dict_get_set_eq|].
    split; [done|]. split; [done|].
    split; [intros v Hv; by apply dict_get_set_ne|].
    split; [apply dict_keys_set_present; rewrite Hg; by eexists|].
    split; [intros n Hn; simpl; by apply lookup_insert_ne|].
    split; [done|].
    split; [intros p Hp Hsome; apply (save_registry_disk_other st0); [done | by left]|].
    split; [intros p Hp Hp'; apply (save_registry_disk_other st0); [done | by right]|].
    split; [done|].
    intros Hidx.
    destruct (resolve_latest_elem_of vs) as (v & el0 & Hv & Hin);
      [by intros ->|].
    assert (∃ el, Dict.get v vs = Some el ∧
                  ∃ el', Dict.get v vs' = Some el' ∧ path el' = path el)
      as (el & Hel & el' & Hel' & Hpath).
    { destruct (decide (version = v)) as [<-|Hne].
      - exists e. split; [done|]. exists e'. split; [apply dict_get_set_eq | done].
      - destruct (Dict.get v vs) as [el|] eqn:Hgv.
        + exists el. split; [done|]. exists el.
          split; [|done]. subst vs'. by rewrite dict_get_set_ne.
        + apply dict_get_None in Hgv. exfalso. apply Hgv.
          apply list_elem_of_fmap. by exists (v, el0). }
    rewrite (get_model_path_resolved (_save_registry st0) name vs' v el' "latest");
      [| simpl; apply lookup_insert_eq | by rewrite Hres | done].
    rewrite (get_model_path_resolved st name vs v el "latest"); [|done..].
    rewrite Hpath. by rewrite (save_registry_path_exists st0).
  - unfold delete_model. intros [Hn|(vs & Hvs & Hg)].
    + by rewrite Hn.
    + by rewrite Hvs, Hg.
Qed.

Lemma delete_model_soft_witness :
  (delete_model st_m "m" "1.1").1 = true ∧
  get_model_path (delete_model st_m "m" "1.1").2 "m" "latest"
    = get_model_path st_m "m" "latest" ∧
  delete_model st_m "m" "2.0" = (false, st_m).
Proof.
  destruct (proj1 (delete_model_soft st_m "m" "1.1") two_versions e11 eq_refl eq_refl)
    as (st' & vs' & e' & Hdel & _ & _ & _ & _ & _ & _ & _ & _ & _ & _ & _ & Hlatest).
  rewrite Hdel. simpl. split; [reflexivity|]. split.
  - apply Hlatest. split; vm_compute; eexists; reflexivity.
  - vm_compute. reflexivity.
Defined.
End RegistryFacts.


(** ** Trainer: resolving the ensemble against the run-scoped cache *)
Section TrainerFacts.
Import Trainer.
Context {Data Handle Params : Type}.
Context (config_models : list string)
        (config_params : string → Params)
        (estimator_build : string → Params → Res Handle)
        (estimator_fit : string → Handle → Data → Res Handle)
        (vote_build : list (option Handle) → Params → Res Handle)
        (vote_fit : Handle → Data → Res Handle)
        (data : Data).

Local Abbreviation State := (@TrainerState Handle Params).
Local Abbreviation Mdl := (@Model Handle Params).
Local Abbreviation TrainFn := (string → option Params → @M Handle Params Mdl).
Local Abbreviation names := (base_model_names config_models).
Local Abbreviation train fuel :=
  (train_model config_models config_params estimator_build estimator_fit
               vote_build vote_fit fuel data).
Local Abbreviation train_ensemble tm :=
  (_train_ensemble config_models config_params vote_build vote_fit tm data).
Local Abbreviation ensemble_fit := (fit vote_build vote_fit).
Local Abbreviation new_ensemble := (HybridEnsembleModel config_params).

Implicit Types (s : State) (n : string) (m : Mdl) (P : string → Prop).

Lemma elem_of_fit_names (evs : list (@Event Handle)) n :
  n ∈ fit_names evs ↔ FitBase n ∈ evs.
Proof.
  unfold fit_names. rewrite list_elem_of_omap. split.
  - intros ([k|clfs] & Hin & Heq); [|done]. by injection Heq as ->.
  - intros Hin. by exists (FitBase n).
Qed.

Lemma fit_names_app (l1 l2 : list (@Event Handle)) :
  fit_names (l1 ++ l2) = fit_names l1 ++ fit_names l2.
Proof. apply omap_app. Qed.

Lemma run_inv_here {A} P s (r : Res A) : run_inv P s (r, s).
Proof.
  exists []. simpl. rewrite app_nil_r.
  split; [done|]. split; [constructor|].
  split; [by intros n ?%elem_of_nil|]. split; [done|].
  split; [|by intros _ n ?%elem_of_nil].
  intros n Hn [m Hm]. congruence.
Qed.

Lemma run_inv_mono {A} P (Q : string → Prop) s (out : Res A * State) :
  (∀ n, P n → Q n) → run_inv P s out → run_inv Q s out.
Proof.
  intros HPQ (new & Htr & Hnd & Hfit & Hsub & Hadd & Hok).
  exists new. repeat split; try done; [apply HPQ|]; by apply Hfit.
Qed.

(** Sequencing two calls preserves the invariant. *)
Lemma run_inv_bind {A B} P s (c : M A) (k : A → M B) :
  run_inv P s (c s) →
  (∀ a s1, c s = (Ok a, s1) → run_inv P s1 (k a s1)) →
  run_inv P s (bind c k s).
Proof.
  intros (new1 & Htr1 & Hnd1 & Hfit1 & Hsub1 & Hadd1 & Hok1) Hk.
  unfold bind. destruct (c s) as [[a|e] s1] eqn:Hc; simpl in *.
  2:{ exists new1. repeat split; try done; try (by apply Hfit1).
      by intros [? [=]]. }
  specialize (Hk a s1 eq_refl).
  destruct Hk as (new2 & Htr2 & Hnd2 & Hfit2 & Hsub2 & Hadd2 & Hok2).
  assert (Hcached1 : ∀ n, n ∈ fit_names new1 → is_Some (trained_models s1 !! n))
    by (apply Hok1; by eexists).
  exists (new1 ++ new2). rewrite fit_names_app.
  split; [by rewrite Htr2, Htr1, app_assoc|].
  split.
  { apply NoDup_app. split; [done|]. split; [|done].
    intros n Hn1 Hn2. destruct (Hcached1 n Hn1) as [m Hm].
    destruct (Hfit2 n Hn2) as [_ Hnone]. congruence. }
  split.
  { intros n [Hn|Hn]%elem_of_app; [by apply Hfit1|].
    destruct (Hfit2 n Hn) as [HP Hnone]. split; [done|].
    by apply (lookup_weaken_None _ _ _ Hnone). }
  split; [by etrans|].
  split.
  { intros n Hnone Hsome. rewrite elem_of_app.
    destruct (trained_models s1 !! n) as [m|] eqn:Hs1.
    - destruct (Hadd1 n Hnone) as [?|?]; [by eexists | by left | right; by left].
    - destruct (Hadd2 n Hs1 Hsome) as [?|?]; [by left | right; by right]. }
  intros Hr n [Hn|Hn]%elem_of_app; [|by apply Hok2].
  destruct (Hcached1 n Hn) as [m Hm]. exists m.
  by apply (lookup_weaken _ _ _ _ Hm).
Qed.

(** [HybridEnsembleModel.fit] touches no cached model and calls no base
    class; when it returns, it made one call to the voting classifier, on
    the handles of the base models it was given. *)
Lemma ensemble_fit_spec (ens : Mdl) s :
  ∃ evs,
    trained_models (ensemble_fit ens data s).2 = trained_models s ∧
    trace (ensemble_fit ens data s).2 = trace s ++ evs ∧
    fit_names evs = [] ∧
    (∀ ens', (ensemble_fit ens data s).1 = Ok ens' →
       evs = [FitEnsemble (model <$> base_models ens)] ∧
       base_models ens' = base_models ens ∧
       is_trained ens' = true ∧
       base_models ens ≠ []).
Proof.
  unfold fit, bind, lift, log, ret, raise, build.
  destruct (base_models ens) as [|b bs] eqn:Hb.
  { exists []. simpl. by rewrite app_nil_r. }
  destruct (model ens) as [h|].
  - destruct (vote_fit h data) as [h'|e]; simpl.
    + exists [FitEnsemble (model <$> b :: bs)].
      split; [done|]. split; [done|]. split; [done|].
      intros ens' [= <-]. simpl. rewrite ?Hb. by repeat split.
    + exists [FitEnsemble (model <$> b :: bs)]. by repeat split.
  - destruct (vote_build _ _) as [h|e]; simpl.
    2:{ exists []. simpl. by rewrite app_nil_r. }
    destruct (vote_fit h data) as [h'|e]; simpl.
    + exists [FitEnsemble (model <$> b :: bs)].
      split; [done|]. split; [done|]. split; [done|].
      intros ens' [= <-]. simpl. rewrite ?Hb. by repeat split.
    + exists [FitEnsemble (model <$> b :: bs)]. by repeat split.
Qed.

(** [_train_ensemble] is its three steps in sequence. *)
Lemma train_ensemble_phases (tm : TrainFn) p s :
  train_ensemble tm p s =
    match resolve_base_models tm names [] s with
    | (Err e, s1) => (Err e, s1)
    | (Ok bms, s1) =>
        match ensemble_fit (new_ensemble bms p) data s1 with
        | (Err e, s2) => (Err e, s2)
        | (Ok ens, s2) =>
            (Ok ens, {| trained_models := <["hybrid_ensemble" := ens]> (trained_models s2);
                        trace := trace s2 |})
        end
    end.
Proof.
  unfold _train_ensemble, bind, store, ret.
  destruct (resolve_base_models _ _ _ _) as [[bms|e] s1]; [|done].
  by destruct (fit _ _ _ _ _) as [[ens|e] s2].
Qed.

Section Resolve.
(** What the loop needs of the [train_model] it calls. *)
Context (tm : TrainFn).
Hypothesis tm_inv : ∀ n p s, trained_models s !! n = None →
  run_inv (λ k, k = n ∨ k ∈ names) s (tm n p s).

Lemma resolve_base_models_inv (l : list string) (acc : list Mdl) s :
  (∀ n, n ∈ l → n ∈ names) →
  run_inv (λ k, k ∈ names) s (resolve_base_models tm l acc s).
Proof.
  revert acc s. induction l as [|n l IH]; intros acc s Hl; simpl.
  { apply run_inv_here. }
  apply run_inv_bind; [apply run_inv_here|].
  intros c s1 [= <- <-].
  apply run_inv_bind.
  - destruct (trained_models s !! n) eqn:Hn; [apply run_inv_here|].
    eapply run_inv_mono; [|by apply tm_inv].
    intros k [->|?]; [apply Hl; left | done].
  - intros m s1 _. apply IH. intros k Hk. apply Hl. by right.
Qed.

Lemma train_ensemble_inv p s :
  trained_models s !! "hybrid_ensemble" = None →
  run_inv (λ k, k ∈ names) s (train_ensemble tm p s).
Proof.
  intros Hhy. rewrite train_ensemble_phases.
  pose proof (resolve_base_models_inv names [] s (λ _ H, H)) as Hloop.
  destruct Hloop as (new & Htr & Hnd & Hfit & Hsub & Hadd & Hok).
  destruct (resolve_base_models tm names [] s) as [[bms|e] s1]; simpl in *.
  2:{ exists new. repeat split; try done; try (by apply Hfit). by intros [? [=]]. }
  destruct (ensemble_fit_spec (new_ensemble bms p) s1) as (evs & Hc & Ht & Hev & _).
  destruct (ensemble_fit _ _ s1) as [[ens|e] s2]; simpl in *.
  - exists (new ++ evs). simpl. rewrite fit_names_app, Hev, app_nil_r.
    split; [by rewrite Ht, Htr, app_assoc|]. split; [done|]. split; [done|].
    split; [apply insert_subseteq_r; [done | by rewrite Hc]|].
    split.
    + intros n Hn Hsome. destruct (decide (n = "hybrid_ensemble")) as [->|Hne]; [by left|].
      rewrite lookup_insert_ne, Hc in Hsome by done. by apply Hadd.
    + intros _ n Hn. destruct (decide (n = "hybrid_ensemble")) as [->|Hne].
      * rewrite lookup_insert_eq. by eexists.
      * rewrite lookup_insert_ne, Hc by done. apply Hok; [by eexists | done].
  - exists (new ++ evs). simpl. rewrite fit_names_app, Hev, app_nil_r.
    split; [by rewrite Ht, Htr, app_assoc|]. split; [done|]. split; [done|].
    split; [by rewrite Hc|]. split; [by rewrite Hc|]. by intros [? [=]].
Qed.
End Resolve.

Lemma train_model_inv fuel n p s :
  trained_models s !! n = None →
  run_inv (λ k, k = n ∨ k ∈ names) s (train fuel n p s).
Proof.
  revert n p s. induction fuel as [|fuel IH]; intros n p s Hn; simpl.
  { apply run_inv_here. }
  case_decide as Hreg; [|apply run_inv_here].
  case_decide as Hhy.
  { subst n. eapply run_inv_mono; [|by apply train_ensemble_inv]. by right. }
  unfold bind, lift, log, store, ret.
  destruct (estimator_build n _) as [h|e]; [|apply run_inv_here].
  destruct (estimator_fit n h data) as [h'|e]; simpl.
  - exists [FitBase n]. simpl.
    split; [done|]. split; [apply NoDup_singleton|].
    split; [intros k ->%list_elem_of_singleton; split; [by left | done]|].
    split; [by apply insert_subseteq|].
    split.
    + intros k Hk Hsome. right. apply list_elem_of_singleton.
      destruct (decide (n = k)) as [|Hne]; [done|].
      rewrite lookup_insert_ne in Hsome by done. destruct Hsome; congruence.
    + intros _ k ->%list_elem_of_singleton. rewrite lookup_insert_eq. by eexists.
  - exists [FitBase n]. simpl.
    split; [done|]. split; [apply NoDup_singleton|].
    split; [intros k ->%list_elem_of_singleton; split; [by left | done]|].
    split; [done|].
    split; [intros k Hk Hsome; destruct Hsome; congruence|]. by intros [? [=]].
Qed.

(** A successful [train_model] leaves the model it returns in the cache
    under the name it was asked for. *)
Lemma train_model_ok_cached fuel n p s m s' :
  train fuel n p s = (Ok m, s') → trained_models s' !! n = Some m.
Proof.
  destruct fuel as [|fuel]; simpl; [done|].
  case_decide as Hreg; [|done].
  case_decide as Hhy.
  - subst n. rewrite train_ensemble_phases.
    destruct (resolve_base_models _ _ _ _) as [[bms|e] s1]; [|done].
    destruct (fit _ _ _ _ _) as [[ens|e] s2]; [|done].
    intros [= <- <-]. simpl. apply lookup_insert_eq.
  - unfold bind, lift, log, store, ret.
    destruct (estimator_build n _) as [h|e]; [|done].
    destruct (estimator_fit n h data) as [h'|e]; [|done].
    intros [= <- <-]. simpl. apply lookup_insert_eq.
Qed.

(** When the loop returns, it has appended one model per name, each the
    model cached under that name. *)
Lemma resolve_base_models_ok fuel (l : list string) (acc bms : list Mdl) s s1 :
  (∀ n, n ∈ l → n ∈ names) →
  resolve_base_models (train fuel) l acc s = (Ok bms, s1) →
  ∃ ms, bms = acc ++ ms ∧ Forall2 (λ n m, trained_models s1 !! n = Some m) l ms.
Proof.
  revert acc s. induction l as [|n l IH]; intros acc s Hl; simpl.
  { intros [= <- <-]. exists []. by rewrite app_nil_r. }
  unfold bind at 1. simpl. unfold bind at 1.
  assert (Hl' : ∀ k, k ∈ l → k ∈ names) by (intros k Hk; apply Hl; by right).
  destruct (trained_models s !! n) as [m|] eqn:Hn.
  - simpl. intros Hrest.
    pose proof (resolve_base_models_inv (train fuel) (train_model_inv fuel)
                  l (acc ++ [m]) s Hl') as (_ & _ & _ & _ & Hsub & _).
    rewrite Hrest in Hsub. simpl in Hsub.
    destruct (IH _ _ Hl' Hrest) as (ms & -> & HF).
    exists (m :: ms). split; [by rewrite <- app_assoc|].
    constructor; [|done]. by apply (lookup_weaken _ _ _ _ Hn).
  - destruct (train fuel n None s) as [[m|e] s'] eqn:Htm; [|done].
    intros Hrest.
    pose proof (resolve_base_models_inv (train fuel) (train_model_inv fuel)
                  l (acc ++ [m]) s' Hl') as (_ & _ & _ & _ & Hsub & _).
    rewrite Hrest in Hsub. simpl in Hsub.
    destruct (IH _ _ Hl' Hrest) as (ms & -> & HF).
    exists (m :: ms). split; [by rewrite <- app_assoc|].
    constructor; [|done].
    apply (lookup_weaken _ _ _ _ (train_model_ok_cached _ _ _ _ _ _ Htm) Hsub).
Qed.

Lemma fit_names_FitBase (l : list string) :
  fit_names (Handle:=Handle) (FitBase <$> l) = l.
Proof.
  unfold fit_names. induction l as [|n l IH]; simpl; [done | by f_equal].
Qed.

(** Training a base class appends at most its own [fit] and does not
    touch the cached ensemble. *)
Lemma train_base_spec fuel n p s :
  n ≠ "hybrid_ensemble" →
  ∃ fresh,
    trace (train fuel n p s).2 = trace s ++ (FitBase <$> fresh) ∧
    trained_models (train fuel n p s).2 !! "hybrid_ensemble"
      = trained_models s !! "hybrid_ensemble".
Proof.
  intros Hne. destruct fuel as [|fuel]; simpl.
  { exists []. simpl. by rewrite app_nil_r. }
  case_decide as Hreg; [|exists []; simpl; by rewrite app_nil_r].
  rewrite decide_False by done.
  unfold bind, lift, log, store, ret.
  destruct (estimator_build n _) as [h|e]; [|exists []; simpl; by rewrite app_nil_r].
  destruct (estimator_fit n h data) as [h'|e]; simpl.
  - exists [n]. split; [done|]. by rewrite lookup_insert_ne.
  - by exists [n].
Qed.

(** A configuration that names the ensemble among its own base models
    never resolves while the ensemble is not cached: each attempt to train
    it starts the same resolution again. *)
Lemma resolve_uncached_ensemble_fails fuel :
  "hybrid_ensemble" ∈ names →
  ∀ (l : list string) (acc : list Mdl) s,
    "hybrid_ensemble" ∈ l →
    trained_models s !! "hybrid_ensemble" = None →
    ∃ e, (resolve_base_models (train fuel) l acc s).1 = Err e.
Proof.
  intros Hin. induction fuel as [|fuel IHf].
  - induction l as [|n l IH]; intros acc s Hl Hs; [by apply elem_of_nil in Hl|].
    simpl. unfold bind at 1. simpl. unfold bind at 1.
    destruct (trained_models s !! n) as [m|] eqn:Hn; simpl; [|by eexists].
    apply IH; [|done]. apply elem_of_cons in Hl as [<-|?]; [congruence | done].
  - induction l as [|n l IH]; intros acc s Hl Hs; [by apply elem_of_nil in Hl|].
    cbn [resolve_base_models]. unfold bind at 1. cbn [cached]. unfold bind at 1.
    destruct (trained_models s !! n) as [m|] eqn:Hn.
    { cbn [ret]. apply IH; [|done].
      apply elem_of_cons in Hl as [<-|?]; [congruence | done]. }
    destruct (decide (n = "hybrid_ensemble")) as [->|Hne].
    + cbn [train_model]. case_decide as Hreg; [|by eexists].
      rewrite decide_True by done. rewrite train_ensemble_phases.
      destruct (IHf names [] s Hin Hs) as [e He].
      destruct (resolve_base_models (train fuel) names [] s) as [[bms|e'] s1];
        [done | by eexists].
    + destruct (train_base_spec (S fuel) n None s Hne) as (fresh & _ & Hhy).
      destruct (train (S fuel) n None s) as [[m|e] s1]; [|by eexists].
      simpl in Hhy. apply IH; [|congruence].
      apply elem_of_cons in Hl as [<-|?]; [congruence | done].
Qed.

(** When the loop returns, all it did was fit base classes. *)
Lemma resolve_base_models_trace fuel (l : list string) (acc bms : list Mdl) s s1 :
  (∀ n, n ∈ l → n ∈ names) →
  resolve_base_models (train fuel) l acc s = (Ok bms, s1) →
  ∃ fresh, trace s1 = trace s ++ (FitBase <$> fresh).
Proof.
  revert acc s. induction l as [|n l IH]; intros acc s Hl.
  { intros [= <- <-]. exists []. simpl. by rewrite app_nil_r. }
  assert (Hl' : ∀ k, k ∈ l → k ∈ names) by (intros k Hk; apply Hl; by right).
  intros Hrun.
  destruct (trained_models s !! n) as [m|] eqn:Hn.
  - cbn [resolve_base_models] in Hrun. unfold bind at 1 in Hrun. cbn [cached] in Hrun.
    unfold bind at 1 in Hrun. rewrite Hn in Hrun. cbn [ret] in Hrun.
    by apply (IH _ _ Hl' Hrun).
  - destruct (decide (n = "hybrid_ensemble")) as [->|Hne].
    { destruct (resolve_uncached_ensemble_fails fuel (Hl _ (list_elem_of_here _ _))
                  ("hybrid_ensemble" :: l) acc s (list_elem_of_here _ _) Hn) as [e He].
      by rewrite Hrun in He. }
    cbn [resolve_base_models] in Hrun. unfold bind at 1 in Hrun. cbn [cached] in Hrun.
    unfold bind at 1 in Hrun. rewrite Hn in Hrun.
    destruct (train_base_spec fuel n None s Hne) as (fresh1 & Htr1 & _).
    destruct (train fuel n None s) as [[m|e] s'] eqn:Htm; [|done].
    destruct (IH _ _ Hl' Hrun) as (fresh2 & Htr2).
    exists (fresh1 ++ fresh2). simpl in Htr1.
    by rewrite Htr2, Htr1, fmap_app, app_assoc.
Qed.

(** The loop never calls [train_model] for a cached name: what
    [train_model] would do there has no influence on the outcome. *)
Lemma resolve_base_models_skips_cached (tm1 tm2 : TrainFn) (l : list string)
    (acc : list Mdl) s :
  (∀ n q s0, trained_models s0 !! n = None → tm1 n q s0 = tm2 n q s0) →
  resolve_base_models tm1 l acc s = resolve_base_models tm2 l acc s.
Proof.
  intros Hagree. revert acc s. induction l as [|n l IH]; intros acc s; [done|].
  cbn [resolve_base_models]. unfold bind, cached. cbn beta iota.
  destruct (trained_models s !! n) as [m|] eqn:Hn; [cbn [ret]; apply IH|].
  rewrite (Hagree n None s Hn).
  destruct (tm2 n None s) as [[m|e] s1]; [apply IH | done].
Qed.

Lemma base_model_names_nonempty : names ≠ [].
Proof. unfold base_model_names. by destruct config_models. Qed.

(** The call returns: when the spec names base classes only and no
    estimator call raises, two levels of calls are enough. *)
Lemma train_ensemble_returns fuel p s :
  (∀ n, n ∈ names → n ∈ MODEL_REGISTRY ∧ n ≠ "hybrid_ensemble") →
  (∀ n q, ∃ h, estimator_build n q = Ok h) →
  (∀ n h, ∃ h', estimator_fit n h data = Ok h') →
  (∀ clfs q, ∃ h, vote_build clfs q = Ok h) →
  (∀ h, ∃ h', vote_fit h data = Ok h') →
  ∃ ens, (train_ensemble (train (S fuel)) p s).1 = Ok ens.
Proof.
  intros Hnames Hbuild Hfit Hvbuild Hvfit.
  assert (Hstep : ∀ n q s0, n ∈ MODEL_REGISTRY → n ≠ "hybrid_ensemble" →
             ∃ m s', train (S fuel) n q s0 = (Ok m, s')).
  { intros n q s0 Hreg Hne. cbn [train_model].
    rewrite decide_True, decide_False by done.
    unfold bind, lift, log, store, ret.
    destruct (Hbuild n (default (config_params n) q)) as [h ->].
    destruct (Hfit n h) as [h' ->]. by eexists _, _. }
  assert (Hloop : ∀ (l : list string) (acc : list Mdl) s0,
             (∀ n, n ∈ l → n ∈ names) →
             ∃ bms s1, resolve_base_models (train (S fuel)) l acc s0 = (Ok bms, s1) ∧
                       length bms = (length acc + length l)%nat).
  { induction l as [|n l IH]; intros acc s0 Hl.
    { exists acc, s0. split; [done|]. simpl. lia. }
    assert (Hl' : ∀ k, k ∈ l → k ∈ names) by (intros k Hk; apply Hl; by right).
    cbn [resolve_base_models]. unfold bind at 1. cbn [cached]. unfold bind at 1.
    destruct (trained_models s0 !! n) as [m|] eqn:Hn.
    - cbn [ret]. destruct (IH (acc ++ [m]) s0 Hl') as (bms & s1 & -> & Hlen).
      exists bms, s1. split; [done|]. rewrite Hlen, length_app. simpl. lia.
    - destruct (Hnames n (Hl n (list_elem_of_here _ _))) as [Hreg Hne].
      destruct (Hstep n None s0 Hreg Hne) as (m & s' & ->).
      destruct (IH (acc ++ [m]) s' Hl') as (bms & s1 & -> & Hlen).
      exists bms, s1. split; [done|]. rewrite Hlen, length_app. simpl. lia. }
  rewrite train_ensemble_phases.
  destruct (Hloop names [] s (λ _ H, H)) as (bms & s1 & -> & Hlen).
  destruct bms as [|b bms].
  { pose proof base_model_names_nonempty. destruct names; [done | simpl in Hlen; lia]. }
  unfold fit, HybridEnsembleModel, build. cbn [base_models model params].
  unfold bind at 1, lift at 1.
  destruct (Hvbuild (model <$> b :: bms) (default (config_params "hybrid_ensemble") p))
    as [h ->].
  unfold bind at 1, log at 1. unfold bind at 1, lift at 1.
  destruct (Hvfit h) as [h' ->]. cbn [ret]. by eexists.
Qed.

(** What a successful [HybridEnsembleModel.fit] of a new ensemble did:
    it built the voting classifier over the estimators of the base models
    with the ensemble's parameters, fitted that, and kept the result. *)
Lemma ensemble_fit_model (ens ens' : Mdl) s :
  (ensemble_fit ens data s).1 = Ok ens' → model ens = None →
  ∃ h h', vote_build (model <$> base_models ens) (params ens) = Ok h ∧
          vote_fit h data = Ok h' ∧ model ens' = Some h' ∧ params ens' = params ens.
Proof.
  unfold fit, bind, lift, log, ret, raise, build. intros Hrun Hnone.
  rewrite Hnone in Hrun.
  destruct (base_models ens) as [|b bs] eqn:Hb; [done|].
  destruct (vote_build _ _) as [h|e] eqn:Hbuild; [|done]. simpl in Hrun.
  destruct (vote_fit h data) as [h'|e] eqn:Hfit; [|done].
  injection Hrun as <-. by exists h, h'.
Qed.

(** C6. Resolving the ensemble from a trainer state [s]: [train_model] is
    not called for a cached name (the outcome is the same whatever it
    would do there); the call returns an ensemble whenever the spec names
    base classes only, no estimator call raises and one nested call is
    allowed; no name cached in [s] is fitted; only names of the
    ensemble spec are fitted, each at most once; every cached base model
    stays in the cache.  When the call
    returns the ensemble, its base models are, position by position, the
    model cached in [s] for a cached name and the freshly trained model,
    now in the cache, for an uncached one; the calls made are exactly one
    [fit] per uncached name followed by the single fit of the voting
    classifier over the base models' handles; the ensemble is cached
    as trained; and its estimator is what the voting classifier's [fit]
    returned for the classifier built over the base models' estimators
    with the ensemble's parameters. *)
Theorem train_ensemble_reuses_cache fuel p s :
  (∀ tm' : TrainFn,
     (∀ n q s0, trained_models s0 !! n = None → tm' n q s0 = train fuel n q s0) →
     train_ensemble tm' p s = train_ensemble (train fuel) p s) ∧
  ((∀ n, n ∈ names → n ∈ MODEL_REGISTRY ∧ n ≠ "hybrid_ensemble") →
   (∀ n q, ∃ h, estimator_build n q = Ok h) →
   (∀ n h, ∃ h', estimator_fit n h data = Ok h') →
   (∀ clfs q, ∃ h, vote_build clfs q = Ok h) →
   (∀ h, ∃ h', vote_fit h data = Ok h') →
   0 < fuel →
   ∃ ens, (train_ensemble (train fuel) p s).1 = Ok ens) ∧
  ∃ new,
    trace (train_ensemble (train fuel) p s).2 = trace s ++ new ∧
    (∀ n, is_Some (trained_models s !! n) → FitBase n ∉ new) ∧
    (∀ n, FitBase n ∈ new → n ∈ names) ∧
    NoDup (fit_names new) ∧
    (∀ n m, trained_models s !! n = Some m → n ≠ "hybrid_ensemble" →
            trained_models (train_ensemble (train fuel) p s).2 !! n = Some m) ∧
    (∀ ens, (train_ensemble (train fuel) p s).1 = Ok ens →
       length (base_models ens) = length names ∧
       (∀ i n m, names !! i = Some n → trained_models s !! n = Some m →
                 base_models ens !! i = Some m) ∧
       (∀ i n, names !! i = Some n → trained_models s !! n = None →
               FitBase n ∈ new ∧
               ∃ m, base_models ens !! i = Some m ∧
                    trained_models (train_ensemble (train fuel) p s).2 !! n = Some m) ∧
       (∃ fresh, new = (FitBase <$> fresh) ++ [FitEnsemble (model <$> base_models ens)] ∧
                 NoDup fresh ∧
                 ∀ n, n ∈ fresh ↔ n ∈ names ∧ trained_models s !! n = None) ∧
       trained_models (train_ensemble (train fuel) p s).2 !! "hybrid_ensemble" = Some ens ∧
       is_trained ens = true ∧
       ∃ h h', vote_build (model <$> base_models ens)
                          (default (config_params "hybrid_ensemble") p) = Ok h ∧
               vote_fit h data = Ok h' ∧ model ens = Some h').
Proof.
  split.
  { intros tm' Hagree. unfold _train_ensemble, bind.
    by rewrite (resolve_base_models_skips_cached tm' (train fuel)). }
  split.
  { intros Hnames Hbuild Hfit Hvbuild Hvfit Hfuel.
    destruct fuel as [|fuel']; [lia|].
    by apply train_ensemble_returns. }
  rewrite train_ensemble_phases.
  pose proof (resolve_base_models_inv (train fuel) (train_model_inv fuel)
                names [] s (λ _ H, H)) as (new1 & Htr & Hnd & Hfit & Hsub & Hadd & Hok).
  pose proof (λ bms s1, resolve_base_models_ok fuel names [] bms s s1 (λ _ H, H))
    as Hloop_ok.
  pose proof (λ bms s1, resolve_base_models_trace fuel names [] bms s s1 (λ _ H, H))
    as Hloop_tr.
  pose proof (λ Hin, resolve_uncached_ensemble_fails fuel Hin names [] s Hin) as Hfail.
  destruct (resolve_base_models (train fuel) names [] s) as [[bms|e] s1]; simpl in *.
  2:{ exists new1. split; [done|].
      split; [intros n [m Hm] Hin%elem_of_fit_names; apply Hfit in Hin as [_ ?]; congruence|].
      split; [intros n Hin%elem_of_fit_names; by apply Hfit|].
      split; [done|].
      split; [intros n m Hm _; by apply (lookup_weaken _ _ _ _ Hm)|]. done. }
  destruct (ensemble_fit_spec (new_ensemble bms p) s1) as (evs & Hc & Ht & Hev & Hsucc).
  pose proof (λ ens', ensemble_fit_model (new_ensemble bms p) ens' s1) as Hmodel.
  assert (Hnames_new : fit_names (new1 ++ evs) = fit_names new1)
    by (by rewrite fit_names_app, Hev, app_nil_r).
  assert (Hin_new : ∀ n, FitBase n ∈ new1 ++ evs ↔ n ∈ fit_names new1)
    by (intros n; by rewrite <- elem_of_fit_names, Hnames_new).
  destruct (ensemble_fit _ _ s1) as [[ens|e] s2]; simpl in *.
  2:{ exists (new1 ++ evs). split; [by rewrite Ht, Htr, app_assoc|].
      split; [intros n [m Hm] Hin%Hin_new; apply Hfit in Hin as [_ ?]; congruence|].
      split; [intros n Hin%Hin_new; by apply Hfit|].
      split; [by rewrite Hnames_new|].
      split; [intros n m Hm _; rewrite Hc; by apply (lookup_weaken _ _ _ _ Hm)|]. done. }
  destruct (Hsucc ens eq_refl) as (-> & Hbase & Htrained & _). simpl in Hbase.
  destruct (Hmodel ens eq_refl eq_refl) as (h & h' & Hvb & Hvf & Hmod & _).
  destruct (Hloop_ok bms s1 eq_refl) as (ms & Hbms & HF). simpl in Hbms. subst ms.
  destruct (Hloop_tr bms s1 eq_refl) as (fresh & Htr').
  rewrite Htr in Htr'. apply app_inv_head in Htr'. subst new1.
  rewrite fit_names_FitBase in *.
  assert (Hhy : ∀ n, n ∈ names → trained_models s !! n = None → n ≠ "hybrid_ensemble").
  { intros n Hn Hnone ->. by destruct (Hfail Hn Hnone) as [e He]. }
  exists ((FitBase <$> fresh) ++ [FitEnsemble (model <$> bms)]).
  split; [by rewrite Ht, Htr, app_assoc|].
  split; [intros n [m Hm] Hin%Hin_new; apply Hfit in Hin as [_ ?]; congruence|].
  split; [intros n Hin%Hin_new; by apply Hfit|].
  split; [by rewrite Hnames_new|].
  split.
  { intros n m Hm Hne. rewrite lookup_insert_ne, Hc by done.
    by apply (lookup_weaken _ _ _ _ Hm). }
  intros ? [= <-]. rewrite Hbase.
  split; [symmetry; by eapply Forall2_length|].
  split.
  { intros i n m Hi Hm. destruct (Forall2_lookup_l _ _ _ _ _ HF Hi) as (m' & Hm' & Hs1).
    rewrite (lookup_weaken _ _ _ _ Hm Hsub) in Hs1. congruence. }
  assert (Hfresh : ∀ n, n ∈ names → trained_models s !! n = None → n ∈ fresh).
  { intros n Hn Hnone. apply list_elem_of_lookup in Hn as [i Hi].
    destruct (Forall2_lookup_l _ _ _ _ _ HF Hi) as (m' & Hm' & Hs1).
    destruct (Hadd n Hnone) as [->|?]; [by eexists| |done].
    exfalso. eapply Hhy; [|done..]. apply list_elem_of_lookup. by exists i. }
  split.
  { intros i n Hi Hnone.
    assert (Hn : n ∈ names) by (apply list_elem_of_lookup; by exists i).
    split; [apply Hin_new; by apply Hfresh|].
    destruct (Forall2_lookup_l _ _ _ _ _ HF Hi) as (m' & Hm' & Hs1).
    exists m'. split; [done|].
    rewrite lookup_insert_ne, Hc; [done|]. intros <-. by eapply Hhy. }
  split.
  { exists fresh. split; [done|]. split; [done|].
    intros n; split; [by apply Hfit | intros [? ?]; by apply Hfresh]. }
  split; [apply lookup_insert_eq|]. split; [done|]. by exists h, h'.
Qed.

End TrainerFacts.

Lemma train_ensemble_reuses_cache_witness :
  ∃ ens,
    (Trainer.demo_train_ensemble
       ["logistic_regression"; "gradient_boosting"; "logistic_regression"]
       2 Trainer.lr_trained).1 = Ok ens ∧
    Trainer.base_models ens !! 0 = Some Trainer.demo_lr ∧
    Trainer.base_models ens !! 2 = Some Trainer.demo_lr ∧
    Trainer.model ens = Some "vote*" ∧
    (Trainer.FitBase "logistic_regression" ∉
      Trainer.trace (Trainer.demo_train_ensemble
               ["logistic_regression"; "gradient_boosting"; "logistic_regression"]
               2 Trainer.lr_trained).2) ∧
    (Trainer.FitBase "gradient_boosting" ∈
      Trainer.trace (Trainer.demo_train_ensemble
               ["logistic_regression"; "gradient_boosting"; "logistic_regression"]
               2 Trainer.lr_trained).2).
Proof.
  destruct (train_ensemble_reuses_cache
              ["logistic_regression"; "gradient_boosting"; "logistic_regression"]
              (λ _, tt) Trainer.demo_build Trainer.demo_fit
              Trainer.demo_vote_build Trainer.demo_vote_fit tt 2 None Trainer.lr_trained)
    as (_ & Hret & new & Htr & Hcached & _ & _ & _ & Hok).
  destruct Hret as [ens Hens].
  { intros n Hn. vm_compute in Hn.
    repeat (apply elem_of_cons in Hn as [->|Hn]);
      [split; [unfold Trainer.MODEL_REGISTRY; repeat constructor|done]..
      |by apply elem_of_nil in Hn]. }
  { intros n q. by eexists. }
  { intros n h. by eexists. }
  { intros clfs q. by eexists. }
  { intros h. by eexists. }
  { lia. }
  destruct (Hok ens Hens) as (_ & Hpos & Hnew & _ & _ & _ & h & h' & Hvb & Hvf & Hmod).
  exists ens. split; [exact Hens|].
  split; [by apply (Hpos 0 "logistic_regression")|].
  split; [by apply (Hpos 2 "logistic_regression")|].
  split.
  { rewrite Hmod. injection Hvb as <-. injection Hvf as <-. reflexivity. }
  unfold Trainer.demo_train_ensemble, Trainer.demo_train_model.
  rewrite Htr. simpl.
  split.
  { apply Hcached. vm_compute. by eexists. }
  apply (Hnew 1 "gradient_boosting"); reflexivity.
Defined.

(** C6, last clause: that the final fit trains only the combination logic
    is not something the code secures.  With logistic regression cached,
    the trainer fits only the two other base classes and puts the cached
    model first among the base models; the one call of the voting
    classifier's [fit] that follows is made on a classifier built over the
    three estimators with the configured parameters alone, and a voting
    classifier that fits what it holds trains all three base learners
    again. *)
Lemma final_fit_can_refit_base_models :
  ∃ ens s',
    TrainerExamples.refit_train_ensemble TrainerExamples.lr_cached = (Ok ens, s') ∧
    Trainer.fit_names (Trainer.trace s') = ["gradient_boosting"; "neural_network"] ∧
    Trainer.base_models ens !! 0 = Some TrainerExamples.cached_lr ∧
    Trainer.model ens =
      Some (TrainerExamples.Vote
              [TrainerExamples.Base "logistic_regression" true;
               TrainerExamples.Base "gradient_boosting" true;
               TrainerExamples.Base "neural_network" true]
              ["logistic_regression"; "gradient_boosting"; "neural_network"]).
Proof.
  eexists _, _. split; [vm_compute; reflexivity|]. by vm_compute.
Qed.

(** ** Trainer: an empty list of base-model names *)
Section EmptySpec.
Import Trainer.
Context {Data Handle Params : Type}.
Context (config_params : string → Params)
        (estimator_build : string → Params → Res Handle)
        (estimator_fit : string → Handle → Data → Res Handle)
        (vote_build : list (option Handle) → Params → Res Handle)
        (vote_fit : Handle → Data → Res Handle)
        (data : Data).

Local Abbreviation Mdl := (@Model Handle Params).
Local Abbreviation TrainFn := (string → option Params → @M Handle Params Mdl).
Local Abbreviation train cfg fuel :=
  (train_model cfg config_params estimator_build estimator_fit
               vote_build vote_fit fuel data).
Local Abbreviation train_ensemble cfg tm :=
  (_train_ensemble cfg config_params vote_build vote_fit tm data).

Lemma resolve_base_models_ext (tm1 tm2 : TrainFn) (l : list string) (acc : list Mdl) s :
  (∀ n p s0, tm1 n p s0 = tm2 n p s0) →
  resolve_base_models tm1 l acc s = resolve_base_models tm2 l acc s.
Proof.
  intros Hext. revert acc s. induction l as [|n l IH]; intros acc s; [done|].
  cbn [resolve_base_models]. unfold bind, cached. cbn beta iota.
  destruct (trained_models s !! n) as [m|]; [cbn [ret]; apply IH|].
  rewrite Hext. destruct (tm2 n None s) as [[m|e] s1]; [apply IH | done].
Qed.

Lemma train_ensemble_ext cfg (tm1 tm2 : TrainFn) p s :
  (∀ n q s0, tm1 n q s0 = tm2 n q s0) →
  train_ensemble cfg tm1 p s = train_ensemble cfg tm2 p s.
Proof.
  intros Hext. unfold _train_ensemble, bind.
  by rewrite (resolve_base_models_ext tm1 tm2).
Qed.

Lemma train_model_empty_config fuel n p s :
  train [] fuel n p s = train default_base_model_names fuel n p s.
Proof.
  revert n p s. induction fuel as [|fuel IH]; intros n p s; [done|].
  cbn [train_model]. case_decide; [|done]. case_decide; [|done].
  exact (train_ensemble_ext [] _ _ p s IH).
Qed.

(** C2, as the code has it.  With an empty list of base-model names the
    ensemble is resolved exactly as if the three default names had been
    configured, and returns the ensemble when no estimator call raises.
    The error for a missing base model is raised by the ensemble object
    itself: [fit] and [build] of an ensemble holding no base models raise
    ValueError, and [fit] does so without any call or change of state. *)
Theorem empty_spec_uses_defaults fuel p s :
  train_ensemble [] (train [] fuel) p s
    = train_ensemble default_base_model_names (train default_base_model_names fuel) p s ∧
  ((∀ n q, ∃ h, estimator_build n q = Ok h) →
   (∀ n h, ∃ h', estimator_fit n h data = Ok h') →
   (∀ clfs q, ∃ h, vote_build clfs q = Ok h) →
   (∀ h, ∃ h', vote_fit h data = Ok h') →
   ∃ ens, (train_ensemble [] (train [] (S fuel)) p s).1 = Ok ens) ∧
  (∀ q s0, fit vote_build vote_fit (HybridEnsembleModel config_params [] q) data s0
           = (Err (ValueError "Base models must be set and trained before fitting ensemble"),
              s0)) ∧
  (∀ q, build vote_build (HybridEnsembleModel config_params [] q)
        = Err (ValueError "Base models must be set before building ensemble")).
Proof.
  split; [exact (train_ensemble_ext [] _ _ p s (train_model_empty_config fuel))|].
  split; [|done].
  intros Hb Hf Hvb Hvf.
  apply (train_ensemble_returns []); try done.
  intros n Hn. cbn in Hn. unfold MODEL_REGISTRY.
  repeat (apply elem_of_cons in Hn as [->|Hn]; [split; [set_solver | done]|]).
  by apply elem_of_nil in Hn.
Qed.

End EmptySpec.

Lemma empty_spec_uses_defaults_witness :
  ∃ ens, (Trainer.demo_train_ensemble [] 1 Trainer.empty_trainer).1 = Ok ens.
Proof.
  refine (proj1 (proj2 (empty_spec_uses_defaults (λ _, tt) Trainer.demo_build
            Trainer.demo_fit Trainer.demo_vote_build Trainer.demo_vote_fit tt
            0 None Trainer.empty_trainer)) _ _ _ _); intros; by eexists.
Defined.

(** C2, as stated, fails: with no base-model name configured and nothing
    cached, resolving the ensemble raises nothing; it fits the three
    default base models and returns the trained ensemble. *)
Lemma empty_spec_trains_defaults :
  (∃ ens, (Trainer.demo_train_ensemble [] 2 Trainer.empty_trainer).1 = Ok ens ∧
          Trainer.is_trained ens = true) ∧
  Trainer.fit_names (Trainer.trace (Trainer.demo_train_ensemble [] 2 Trainer.empty_trainer).2)
    = ["logistic_regression"; "gradient_boosting"; "neural_network"] ∧
  ¬ (∃ e, (Trainer.demo_train_ensemble [] 2 Trainer.empty_trainer).1 = Err e ∧
          Trainer.trace (Trainer.demo_train_ensemble [] 2 Trainer.empty_trainer).2 = []).
Proof.
  split; [eexists; split; vm_compute; reflexivity|].
  split; [vm_compute; reflexivity|].
  intros [e [He _]]. vm_compute in He. discriminate.
Qed.

(** ** Inference: shaping the input *)
Section InferenceFacts.
Import Inference.
Context {V : Type} (nan : V) (feature_names : list string).

Implicit Types (d : list (string * V)) (records : list (list (string * V)))
               (cols ks : list string) (f : string).

Lemma elem_of_add_keys cols ks f : f ∈ add_keys cols ks ↔ f ∈ cols ∨ f ∈ ks.
Proof.
  revert cols. induction ks as [|k ks IH]; intros cols; simpl.
  - split; [by left | by intros [?|?%elem_of_nil]].
  - rewrite IH, elem_of_cons. case_decide as Hk.
    + split; [intros [?|?]; auto | intros [?|[->|?]]; auto].
    + rewrite elem_of_app, list_elem_of_singleton.
      split; [intros [[?|?]|?]; auto | intros [?|[?|?]]; auto].
Qed.

Lemma NoDup_add_keys cols ks : NoDup cols → NoDup (add_keys cols ks).
Proof.
  revert cols. induction ks as [|k ks IH]; intros cols Hnd; simpl; [done|].
  apply IH. case_decide as Hk; [done|].
  apply NoDup_app. split; [done|]. split; [|apply NoDup_singleton].
  by intros x Hx ->%list_elem_of_singleton.
Qed.

Lemma record_columns_spec records :
  NoDup (record_columns records) ∧
  ∀ f, f ∈ record_columns records ↔ ∃ d, d ∈ records ∧ f ∈ Dict.keys d.
Proof.
  unfold record_columns.
  assert (H : ∀ acc, NoDup acc →
            NoDup (fold_left (λ cols d, add_keys cols (Dict.keys d)) records acc) ∧
            ∀ f, f ∈ fold_left (λ cols d, add_keys cols (Dict.keys d)) records acc ↔
                 f ∈ acc ∨ ∃ d, d ∈ records ∧ f ∈ Dict.keys d).
  { induction records as [|d records IH]; intros acc Hacc; simpl.
    - split; [done|]. intros f. split; [by left|].
      intros [?|(d & ?%elem_of_nil & _)]; done.
    - destruct (IH (add_keys acc (Dict.keys d)) (NoDup_add_keys _ _ Hacc)) as [Hnd Hin].
      split; [done|]. intros f. rewrite Hin, elem_of_add_keys. split.
      + intros [[?|?]|(d' & ? & ?)]; [by left | right; exists d | right; exists d'];
          split; try done; [left | by right].
      + intros [?|(d' & [->|?]%elem_of_cons & ?)];
          [left; by left | left; by right | right; by exists d']. }
  destruct (H [] (NoDup_nil_2)) as [Hnd Hin]. split; [done|].
  intros f. rewrite Hin. split; [intros [?%elem_of_nil|?]; done | by right].
Qed.

Lemma cells_of_absent {B} (g : string → B) f cols :
  f ∉ cols → cells_of f cols (g <$> cols) = [].
Proof.
  induction cols as [|c cols IH]; simpl; [done|].
  intros [Hne Hnin]%not_elem_of_cons. rewrite decide_False by done. by apply IH.
Qed.

(** Under distinct labels, a label selects the one cell of its column. *)
Lemma cells_of_present {B} (g : string → B) f cols :
  NoDup cols → f ∈ cols → cells_of f cols (g <$> cols) = [g f].
Proof.
  induction cols as [|c cols IH]; simpl; [by intros _ ?%elem_of_nil|].
  intros [Hc Hnd]%NoDup_cons Hin. case_decide as Heq.
  - subst c. by rewrite cells_of_absent.
  - apply elem_of_cons in Hin as [->|Hin]; [done | by apply IH].
Qed.

Lemma bind_singletons {B} (names : list string) (h : string → list B) (g : string → B) :
  (∀ f, f ∈ names → h f = [g f]) → names ≫= h = g <$> names.
Proof.
  induction names as [|f names IH]; intros Hh; [done|].
  simpl. rewrite (Hh f) by left. simpl. f_equal. apply IH.
  intros f' Hf'. apply Hh. by right.
Qed.

Lemma filter_nil_all (P : string → Prop) `{∀ x, Decision (P x)} (l : list string) :
  filter P l = [] ↔ ∀ f, f ∈ l → ¬ P f.
Proof.
  split.
  - intros Hnil f Hf HP.
    assert (f ∈ filter P l) as Hin by (by apply list_elem_of_filter).
    rewrite Hnil in Hin. by apply elem_of_nil in Hin.
  - intros Hall. induction l as [|x l IH]; [done|].
    rewrite filter_cons. destruct (decide (P x)) as [HP|_].
    + exfalso. by apply (Hall x); [left|].
    + apply IH. intros f Hf. apply Hall. by right.
Qed.

Lemma select_features_records records :
  filter (λ f, f ∉ record_columns records) feature_names = [] →
  select_features feature_names (DataFrame_of_records nan records)
    = Ok ((λ d, (λ f, default nan (Dict.get f d)) <$> feature_names) <$> records).
Proof.
  intros Hnone. unfold select_features, getitem_values. simpl. rewrite Hnone.
  f_equal. rewrite <- list_fmap_compose. apply list_fmap_ext.
  intros i d _. simpl. apply bind_singletons. intros f Hf.
  apply (cells_of_present (λ c, default nan (Dict.get c d))); [apply record_columns_spec|].
  destruct (decide (f ∈ record_columns records)) as [|Hnin]; [done|].
  by destruct (proj1 (filter_nil_all _ _) Hnone f Hf).
Qed.

(** C3. For a mapping or a sequence of mappings: the features of the
    contract that no record carries are reported, all of them and in
    contract order, in one validation error; when none is missing, each
    record yields one row holding its values in contract order. *)
Theorem prepare_input_mapping (data : Input) records :
  records_of data = Some records →
  let missing := filter (λ f, f ∉ record_columns records) feature_names in
  (∀ f, f ∈ missing ↔ f ∈ feature_names ∧ ∀ d, d ∈ records → f ∉ Dict.keys d) ∧
  (missing ≠ [] → prepare_input nan feature_names data = Err (MissingFeatures missing)) ∧
  (missing = [] →
   prepare_input nan feature_names data
     = Ok ((λ d, (λ f, default nan (Dict.get f d)) <$> feature_names) <$> records) ∧
   ∀ d f, data = InDict d → f ∈ feature_names → is_Some (Dict.get f d)).
Proof.
  intros Hrec missing.
  assert (Hprep : prepare_input nan feature_names data
                  = select_features feature_names (DataFrame_of_records nan records)).
  { destruct data; simpl in Hrec; try done; by injection Hrec as <-. }
  assert (Hmissing : ∀ f, f ∈ missing ↔
                       f ∈ feature_names ∧ ∀ d, d ∈ records → f ∉ Dict.keys d).
  { intros f. unfold missing. rewrite list_elem_of_filter.
    rewrite (proj2 (record_columns_spec records) f). split.
    - intros [Hnin Hf]. split; [done|]. intros d Hd Hk. apply Hnin. by exists d.
    - intros [Hf Hall]. split; [|done]. intros (d & Hd & Hk). by apply (Hall d). }
  split; [done|]. split.
  - intros Hne. rewrite Hprep. unfold select_features. simpl. fold missing.
    by destruct missing.
  - intros Hnil. split; [rewrite Hprep; by apply select_features_records|].
    intros d f -> Hf. injection Hrec as <-.
    destruct (Dict.get f d) eqn:Hg; [by eexists|].
    apply dict_get_None in Hg. exfalso.
    assert (f ∈ missing) as Hin.
    { apply Hmissing. split; [done|]. by intros d' ->%list_elem_of_singleton. }
    rewrite Hnil in Hin. by apply elem_of_nil in Hin.
Qed.

(** C10. An array is returned as it is, whatever the contract; only a
    mapping, a sequence of mappings or a DataFrame can make
    [prepare_input] raise, and these do raise the missing-feature error
    when a feature of the contract is not among their columns. *)
Theorem prepare_input_array :
  (∀ a, prepare_input nan feature_names (InArray a) = Ok a) ∧
  (∀ data e, prepare_input nan feature_names data = Err e →
             ∃ df, frame_of nan data = Some df) ∧
  (∀ data df, frame_of nan data = Some df →
     (∃ f, f ∈ feature_names ∧ f ∉ columns df) →
     ∃ ms, ms ≠ [] ∧ prepare_input nan feature_names data = Err (MissingFeatures ms)).
Proof.
  split; [done|]. split.
  - intros [d|l|a|df] e; simpl; [by eexists..|done|by eexists].
  - intros data df Hdf (f & Hf & Hnin).
    assert (Hprep : prepare_input nan feature_names data
                    = select_features feature_names df).
    { destruct data; simpl in Hdf; try done; by injection Hdf as <-. }
    rewrite Hprep. unfold select_features.
    destruct (filter (λ f, f ∉ columns df) feature_names) as [|x ms] eqn:Hfil.
    + exfalso. by apply (proj1 (filter_nil_all _ _) Hfil f Hf).
    + by exists (x :: ms).
Qed.

End InferenceFacts.

Lemma prepare_input_mapping_witness :
  Inference.prepare_input 0%Z Inference.demo_features (Inference.InDict Inference.demo_partial)
    = Err (MissingFeatures ["texture"; "symmetry"]) ∧
  Inference.prepare_input 0%Z Inference.demo_features (Inference.InDict Inference.demo_full)
    = Ok [[3; 5; 7; 4]%Z].
Proof.
  split.
  - refine (proj1 (proj2 (prepare_input_mapping 0%Z Inference.demo_features
              (Inference.InDict Inference.demo_partial) [Inference.demo_partial] eq_refl)) _).
    vm_compute. discriminate.
  - refine (proj1 (proj2 (proj2 (prepare_input_mapping 0%Z Inference.demo_features
              (Inference.InDict Inference.demo_full) [Inference.demo_full] eq_refl)) _)).
    vm_compute. reflexivity.
Defined.

(** ** Predictor: confidence and batching *)
Section PredictorFacts.
Import Predictor.

Lemma qmax_cases a b :
  (qmax a b = a ∨ qmax a b = b) ∧ (a <= qmax a b)%Q ∧ (b <= qmax a b)%Q.
Proof.
  unfold qmax. destruct (Qle_bool a b) eqn:Hab.
  - apply Qle_bool_iff in Hab. split; [by right|]. split; [done | apply Qle_refl].
  - split; [by left|]. split; [apply Qle_refl|].
    apply Qlt_le_weak, Qnot_le_lt. intros Hle%Qle_bool_iff. congruence.
Qed.

Lemma fold_qmax_spec xs x :
  fold_left qmax xs x ∈ x :: xs ∧
  ∀ y, y ∈ x :: xs → (y <= fold_left qmax xs x)%Q.
Proof.
  revert x. induction xs as [|z xs IH]; intros x; simpl.
  - split; [left|]. intros y ->%list_elem_of_singleton. apply Qle_refl.
  - destruct (IH (qmax x z)) as [Hin Hge].
    destruct (qmax_cases x z) as ([Heq|Heq] & Hx & Hz).
    + split.
      { rewrite Heq in Hin |- *.
        apply elem_of_cons in Hin as [Hin|Hin]; [rewrite Hin; left | right; by right]. }
      intros y [->|[->|Hy]%elem_of_cons]%elem_of_cons.
      * eapply Qle_trans; [exact Hx|]. apply Hge. left.
      * eapply Qle_trans; [exact Hz|]. apply Hge. left.
      * apply Hge. by right.
    + split; [rewrite Heq in Hin |- *; by right|].
      intros y [->|[->|Hy]%elem_of_cons]%elem_of_cons.
      * eapply Qle_trans; [exact Hx|]. apply Hge. left.
      * eapply Qle_trans; [exact Hz|]. apply Hge. left.
      * apply Hge. by right.
Qed.

(** [row_max] is the greatest element of a non-empty row. *)
Lemma row_max_spec (r : list Q) :
  r ≠ [] → row_max r ∈ r ∧ ∀ y, y ∈ r → (y <= row_max r)%Q.
Proof. destruct r as [|x xs]; [done|]. intros _. apply fold_qmax_spec. Qed.

Section Confidence.
Context {Row : Type}.
Implicit Types (self : ModelPredictor (Row:=Row)) (X : Features (Row:=Row)).

(** C4. When the loaded classifier returns a probability matrix with at
    least two columns, [predict_with_confidence] returns that matrix
    unchanged and, row by row, the probability in column 1 as
    [positive_proba], the greatest probability of the row as [confidence],
    and class 1 exactly when the probability in column 1 is at least the
    threshold, class 0 otherwise; rows that sum to 1 in the classifier's
    output sum to 1 in the result. *)
Theorem predict_with_confidence_spec self X (threshold : Q) (P : Proba) :
  predict_proba self X = Ok P → proba_wf P → 1 < ncols P →
  ∃ res,
    predict_with_confidence self X threshold = Ok res ∧
    probabilities res = P ∧
    length (predictions res) = length (prows P) ∧
    length (confidence res) = length (prows P) ∧
    length (positive_proba res) = length (prows P) ∧
    (∀ i row, prows P !! i = Some row →
       ∃ p1 c,
         row !! 1 = Some p1 ∧
         positive_proba res !! i = Some p1 ∧
         confidence res !! i = Some (row_max row) ∧
         row_max row ∈ row ∧
         (∀ y, y ∈ row → (y <= row_max row)%Q) ∧
         predictions res !! i = Some c ∧
         (c = 1%Z ∨ c = 0%Z) ∧
         (c = 1%Z ↔ (threshold <= p1)%Q)) ∧
    ((∀ row, row ∈ prows P → (qsum row == 1)%Q) →
     ∀ row, row ∈ prows (probabilities res) → (qsum row == 1)%Q).
Proof.
  intros Hproba Hwf Hcols.
  unfold predict_with_confidence. rewrite Hproba. simpl.
  unfold column, np_max_axis1.
  rewrite decide_True by done. simpl. rewrite decide_False by lia. simpl.
  eexists. split; [done|]. simpl.
  split; [done|]. rewrite !length_fmap.
  split; [done|]. split; [done|]. split; [done|]. split; [|done].
  intros i row Hrow.
  assert (Hlen : length row = ncols P).
  { unfold proba_wf in Hwf. rewrite Forall_forall in Hwf.
    apply Hwf. by eapply list_elem_of_lookup_2. }
  destruct (row !! 1) as [p1|] eqn:Hp1.
  2:{ apply lookup_ge_None in Hp1. lia. }
  assert (Hnth : nth 1 row 0%Q = p1) by (by rewrite nth_lookup, Hp1).
  destruct (row_max_spec row) as [Hin Hge]; [by intros ->|].
  exists p1, (if Qle_bool threshold p1 then 1%Z else 0%Z).
  split; [done|].
  split; [by rewrite list_lookup_fmap, Hrow; simpl; rewrite Hnth|].
  split; [by rewrite list_lookup_fmap, Hrow|].
  split; [done|]. split; [done|].
  split; [by rewrite !list_lookup_fmap, Hrow; simpl; rewrite Hnth|].
  destruct (Qle_bool threshold p1) eqn:Ht.
  - split; [by left|]. split; [intros _; by apply Qle_bool_iff | done].
  - split; [by right|]. split; [done|]. intros Hle%Qle_bool_iff. congruence.
Qed.

End Confidence.

Lemma predict_with_confidence_spec_witness :
  ∃ res,
    predict_with_confidence (Some sign_model) (Array ten_rows) (1 # 2)%Q = Ok res ∧
    predictions res !! 0 = Some 1%Z ∧ confidence res !! 0 = Some (7 # 10)%Q.
Proof.
  destruct (predict_with_confidence_spec (Some sign_model) (Array ten_rows) (1 # 2)%Q
              {| ncols := 2; prows := sign_proba <$> ten_rows |} eq_refl)
    as (res & Hres & _ & _ & _ & _ & Hrows & _).
  - unfold proba_wf. vm_compute. repeat constructor.
  - simpl. lia.
  - exists res. split; [exact Hres|].
    destruct (Hrows 0 [(3 # 10)%Q; (7 # 10)%Q] eq_refl)
      as (p1 & c & Hp1 & _ & Hconf & _ & _ & Hpred & _ & Hc).
    injection Hp1 as <-. split; [|exact Hconf].
    rewrite Hpred. f_equal. apply Hc. vm_compute. discriminate.
Defined.

(** The class comes from the threshold, not from the larger probability:
    at threshold 0.8 a row with probabilities (0.3, 0.7) is class 0. *)
Lemma threshold_is_not_argmax :
  (∃ res, predict_with_confidence (Some sign_model) (Array [5%Z]) (8 # 10)%Q = Ok res ∧
          predictions res = [0%Z] ∧ positive_proba res = [(7 # 10)%Q]) ∧
  row_max (sign_proba 5) = (7 # 10)%Q.
Proof. split; [eexists; split; [|split]|]; vm_compute; reflexivity. Qed.

Section Batching.
Context {Row : Type}.
Implicit Types (self : ModelPredictor (Row:=Row)) (X : Features (Row:=Row))
               (rows : list Row).

Lemma mapM_fmap {A B C} (g : A → B) (f : B → Res C) (l : list A) :
  mapM f (g <$> l) = mapM (λ x, f (g x)) l.
Proof.
  induction l as [|x l IH]; [done|]. rewrite fmap_cons. cbn [mapM]. by rewrite IH.
Qed.

Lemma mapM_length {A B} (f : A → Res B) (l : list A) ys :
  mapM f l = Ok ys → length ys = length l.
Proof.
  revert ys. induction l as [|x l IH]; intros ys; simpl; [by intros [= <-]|].
  destruct (f x) as [y|e]; simpl; [|done].
  destruct (mapM f l) as [ys'|e]; simpl; [|done].
  intros [= <-]. simpl. f_equal. by apply IH.
Qed.

(** A slice with non-negative bounds [i] and [i + b]. *)
Lemma py_slice_window rows (i b : nat) :
  py_slice rows (Z.of_nat i) (Z.of_nat i + Z.of_nat b) = take b (drop i rows).
Proof.
  unfold py_slice. rewrite !decide_False by lia.
  rewrite take_drop_commute.
  replace (Z.to_nat (Z.min (Z.of_nat i + Z.of_nat b) (Z.of_nat (length rows))))
    with (Nat.min (i + b) (length rows)) by lia.
  replace (Z.to_nat (Z.min (Z.of_nat i) (Z.of_nat (length rows))))
    with (Nat.min i (length rows)) by lia.
  assert (Htake : take (Nat.min (i + b) (length rows)) rows = take (i + b) rows).
  { destruct (decide (i + b ≤ length rows)) as [Hle|Hgt].
    - by rewrite Nat.min_l.
    - rewrite Nat.min_r by lia. by rewrite !take_ge by lia. }
  rewrite Htake.
  destruct (decide (i ≤ length rows)) as [Hle|Hgt]; [by rewrite Nat.min_l|].
  rewrite Nat.min_r by lia.
  rewrite !drop_ge; [done | rewrite length_take; lia | rewrite length_take; lia].
Qed.

Lemma chunks_aux_step rows (fuel b : nat) :
  rows ≠ [] →
  chunks_aux (S fuel) b rows = take b rows :: chunks_aux fuel b (drop b rows).
Proof. by destruct rows. Qed.

(** The slices the loop takes are the contiguous chunks. *)
Lemma range_up_slices rows (b : nat) :
  0 < b → ∀ fuel i,
    (λ j, py_slice rows j (j + Z.of_nat b))
      <$> range_up fuel (Z.of_nat i) (Z.of_nat (length rows)) (Z.of_nat b)
    = chunks_aux fuel b (drop i rows).
Proof.
  intros Hb. induction fuel as [|fuel IH]; intros i; [done|].
  cbn [range_up]. case_decide as Hi.
  - rewrite chunks_aux_step.
    2:{ intros Hdrop. apply (f_equal length) in Hdrop.
        rewrite length_drop in Hdrop. simpl in Hdrop. lia. }
    rewrite fmap_cons, py_slice_window. f_equal.
    rewrite <- Nat2Z.inj_add, IH. by rewrite drop_drop.
  - rewrite drop_ge by lia. done.
Qed.

Lemma chunks_aux_spec (b : nat) :
  0 < b → ∀ fuel rows, length rows ≤ fuel →
    concat (chunks_aux fuel b rows) = rows ∧
    Forall (λ c, 0 < length c ≤ b) (chunks_aux fuel b rows) ∧
    (rows ≠ [] → chunks_aux fuel b rows ≠ []).
Proof.
  intros Hb. induction fuel as [|fuel IH]; intros rows Hlen.
  { destruct rows; [done | simpl in Hlen; lia]. }
  destruct (decide (rows = [])) as [->|Hne]; [done|].
  assert (Hpos : 0 < length rows) by (destruct rows; [done | simpl; lia]).
  rewrite chunks_aux_step by done.
  destruct (IH (drop b rows)) as (Hcat & Hall & _).
  { rewrite length_drop. lia. }
  split; [simpl; by rewrite Hcat, take_drop|].
  split; [|done].
  constructor; [|done]. rewrite length_take. lia.
Qed.

Lemma contiguous_chunks_spec rows (b : nat) :
  0 < b →
  concat (contiguous_chunks b rows) = rows ∧
  Forall (λ c, 0 < length c ≤ b) (contiguous_chunks b rows) ∧
  (rows ≠ [] → contiguous_chunks b rows ≠ []).
Proof. intros Hb. by apply chunks_aux_spec. Qed.

Lemma batch_starts rows (b : Z) :
  (0 < b)%Z →
  py_range0 (Z.of_nat (length rows)) b
    = Ok (range_up (length rows) 0 (Z.of_nat (length rows)) b).
Proof.
  intros Hb. unfold py_range0. rewrite decide_False by lia.
  rewrite decide_True by done. by rewrite Nat2Z.id.
Qed.

(** A row-wise classifier labels the chunks as it labels the whole. *)
Lemma mapM_row_wise (clf : BaseModel (Row:=Row)) (f : Row → Z) (cs : list (list Row)) :
  is_trained clf = true → row_wise clf f →
  Forall (λ c, 0 < length c) cs →
  mapM (λ c, predict (Some clf) (Array c)) cs = Ok ((λ c : list Row, f <$> c) <$> cs).
Proof.
  intros Htr Hrw. induction 1 as [|c cs Hc _ IH]; [done|].
  cbn [mapM]. rewrite IH. cbn [predict values].
  unfold BaseModel_predict. rewrite Htr, Hrw; [done|].
  intros ->. simpl in Hc. lia.
Qed.

Lemma concat_fmap_fmap {A B} (f : A → B) (cs : list (list A)) :
  concat ((λ c : list A, f <$> c) <$> cs) = f <$> concat cs.
Proof.
  induction cs as [|c cs IH]; [done|].
  rewrite fmap_cons. cbn [concat]. by rewrite IH, fmap_app.
Qed.

(** A matrix without rows: whatever the batch size, positive or not, and
    whatever the predictor, the call raises [ValueError], from [range] for
    size 0 and from the concatenation of no batch otherwise. *)
Lemma batch_predict_no_rows_raises self X (batch_size : Z) :
  values X = [] →
  ∃ msg, batch_predict self X batch_size = Err (ValueError msg).
Proof.
  intros HX. unfold batch_predict, py_range0. rewrite HX. cbn [length].
  change (Z.of_nat 0) with 0%Z.
  destruct (decide (batch_size = 0%Z)) as [->|Hne]; [by eexists|].
  destruct (decide (0 < batch_size)%Z); cbn; by eexists.
Qed.

(** C5.  For a matrix without rows [batch_predict] raises [ValueError]
    for every batch size.  For a matrix with at least one row and a
    positive batch size, [batch_predict] predicts the contiguous chunks of
    the rows, in order, one call per chunk, and concatenates the results in
    that order; the chunks are non-empty, at most [batch_size] long, and
    concatenate to the rows.  With a classifier that labels each row on
    its own, the output is the labels of the rows in order whatever the
    batch size, so batch size 8 and batch size [len(X)] give the same
    array. *)
Theorem batch_predict_chunking self X (batch_size : Z) :
  (values X = [] → ∃ msg, batch_predict self X batch_size = Err (ValueError msg)) ∧
  ((0 < batch_size)%Z → values X ≠ [] →
   let chunks := contiguous_chunks (Z.to_nat batch_size) (values X) in
   batch_predict self X batch_size
     = (try predictions := mapM (λ c, predict self (Array c)) chunks in
        Ok (concat predictions)) ∧
   concat chunks = values X ∧
   Forall (λ c, 0 < length c ≤ Z.to_nat batch_size) chunks ∧
   (∀ clf f, self = Some clf → is_trained clf = true → row_wise clf f →
      batch_predict self X batch_size = Ok (f <$> values X) ∧
      batch_predict self X 8 = batch_predict self X (Z.of_nat (length (values X))))).
Proof.
  split; [apply batch_predict_no_rows_raises|].
  intros Hb HX chunks.
  assert (Hgen : ∀ b : Z, (0 < b)%Z →
            batch_predict self X b
              = (try predictions :=
                   mapM (λ c, predict self (Array c))
                        (contiguous_chunks (Z.to_nat b) (values X)) in
                 Ok (concat predictions))).
  { intros b Hb'. unfold batch_predict. cbv zeta.
    rewrite batch_starts by done. cbn [res_bind].
    pose proof (range_up_slices (values X) (Z.to_nat b) ltac:(lia)
                  (length (values X)) 0) as Hslices.
    rewrite Z2Nat.id in Hslices by lia.
    change (Z.of_nat 0) with 0%Z in Hslices. rewrite drop_0 in Hslices.
    assert (Hm : ∀ starts,
              mapM (λ i, predict self (Array (py_slice (values X) i (i + b)))) starts
              = mapM (λ c, predict self (Array c))
                     ((λ j, py_slice (values X) j (j + b)) <$> starts))
      by (intros starts; symmetry;
          apply (mapM_fmap (λ j, py_slice (values X) j (j + b))
                           (λ c, predict self (Array c)))).
    rewrite Hm, Hslices. fold (contiguous_chunks (Z.to_nat b) (values X)).
    destruct (contiguous_chunks_spec (values X) (Z.to_nat b) ltac:(lia))
      as (_ & _ & Hne).
    destruct (mapM _ (contiguous_chunks _ _)) as [ps|e] eqn:Hps; simpl; [|done].
    apply mapM_length in Hps.
    destruct ps as [|p ps]; [|done].
    exfalso. apply (Hne HX). by apply nil_length_inv. }
  assert (Hrw : ∀ clf f (b : Z), self = Some clf → is_trained clf = true →
            row_wise clf f → (0 < b)%Z → batch_predict self X b = Ok (f <$> values X)).
  { intros clf f b -> Htr Hrow Hb'. rewrite Hgen by done.
    destruct (contiguous_chunks_spec (values X) (Z.to_nat b) ltac:(lia))
      as (Hcat & Hall & _).
    rewrite (mapM_row_wise clf f); [|done..|].
    - simpl. by rewrite concat_fmap_fmap, Hcat.
    - eapply Forall_impl; [exact Hall|]. intros c ?. simpl in *. lia. }
  destruct (contiguous_chunks_spec (values X) (Z.to_nat batch_size) ltac:(lia))
    as (Hcat & Hall & _).
  split; [by apply Hgen|]. split; [done|]. split; [done|].
  intros clf f Hself Htr Hrow.
  split; [by apply (Hrw clf f)|].
  rewrite (Hrw clf f 8%Z), (Hrw clf f (Z.of_nat (length (values X)))); try done.
  destruct (values X); [done | simpl; lia].
Qed.

(** Without rows there is nothing to concatenate and the call raises. *)
Lemma batch_predict_empty self (batch_size : Z) :
  ∃ e, batch_predict self (Array []) batch_size = Err e.
Proof.
  unfold batch_predict, py_range0. simpl.
  repeat case_decide; simpl; by eexists.
Qed.

End Batching.

(** C5, as stated for every matrix and every classifier, fails twice.
    On a matrix without rows the loop makes no call, there is nothing to
    concatenate, and the result is an error where the concatenation of no
    chunk would be the empty array.  And with a classifier whose label for
    a row depends on the batch the row is in, here on the first row of the
    batch, the ten rows give one array at batch size 8 and another at
    batch size 10, although each is the concatenation of the predictions
    of the contiguous chunks. *)
Lemma batch_predict_not_invariant :
  (batch_predict (Some sign_model) (Array []) 8
     = Err (ValueError "need at least one array to concatenate") ∧
   (try predictions := mapM (λ c, predict (Some sign_model) (Array c))
                            (contiguous_chunks 8 []) in
    Ok (concat predictions)) = Ok []) ∧
  (batch_predict (Some PredictorExamples.relative_model) (Array ten_rows) 8
     = Ok [0; 0; 1; 0; 1; 0; 0; 0; 0; 0]%Z ∧
   batch_predict (Some PredictorExamples.relative_model) (Array ten_rows) 10
     = Ok [0; 0; 1; 0; 1; 0; 0; 0; 1; 0]%Z ∧
   batch_predict (Some PredictorExamples.relative_model) (Array ten_rows) 8
     ≠ batch_predict (Some PredictorExamples.relative_model) (Array ten_rows) 10).
Proof.
  split; [split; vm_compute; reflexivity|].
  assert (H8 : batch_predict (Some PredictorExamples.relative_model) (Array ten_rows) 8
               = Ok [0; 0; 1; 0; 1; 0; 0; 0; 0; 0]%Z) by (vm_compute; reflexivity).
  assert (H10 : batch_predict (Some PredictorExamples.relative_model) (Array ten_rows) 10
                = Ok [0; 0; 1; 0; 1; 0; 0; 0; 1; 0]%Z) by (vm_compute; reflexivity).
  split; [exact H8|]. split; [exact H10|]. rewrite H8, H10. discriminate.
Qed.

Lemma batch_predict_chunking_witness :
  batch_predict (Some sign_model) (Array ten_rows) 8
    = batch_predict (Some sign_model) (Array ten_rows) 10 ∧
  batch_predict (Some sign_model) (Array ten_rows) 8 = Ok (sign_label <$> ten_rows).
Proof.
  destruct (proj2 (batch_predict_chunking (Some sign_model) (Array ten_rows) 8))
    as (_ & _ & _ & H).
  - lia.
  - simpl. discriminate.
  - destruct (H sign_model sign_label eq_refl eq_refl) as [Hall H8].
    + intros X _. reflexivity.
    + split; [exact H8 | exact Hall].
Defined.

End PredictorFacts.


(** ** Drift: the summary-statistic test *)
Section DriftFacts.
Import Drift.

Lemma Qgt_bool_iff (a b : Q) : Qgt_bool a b = true ↔ (b < a)%Q.
Proof.
  unfold Qgt_bool. rewrite negb_true_iff. split.
  - intros Hle. apply Qnot_le_lt. intros H%Qle_bool_iff. congruence.
  - intros Hlt. destruct (Qle_bool a b) eqn:Hle; [|done].
    apply Qle_bool_iff in Hle. exfalso. by apply (Qlt_not_le _ _ Hlt).
Qed.

Lemma is_drifted_iff (t : float) (r k : Stats) :
  is_drifted t r k = true ↔
    PrimFloat.ltb t (rel_change (mean r) (mean k)) = true ∨
    PrimFloat.ltb t (rel_change (std r) (std k)) = true.
Proof. unfold is_drifted. by rewrite orb_true_iff. Qed.

(** The relative change: zero when the reference value compares equal to
    zero, else the absolute value of the quotient of the change by the
    reference value, each operation rounded as IEEE 754 prescribes. *)
Lemma rel_change_spec (ref cur : float) :
  (PrimFloat.eqb ref 0 = true → rel_change ref cur = 0%float) ∧
  (PrimFloat.eqb ref 0 = false →
   rel_change ref cur = PrimFloat.abs (PrimFloat.div (PrimFloat.sub cur ref) ref) ∧
   Prim2SF (rel_change ref cur)
     = SFabs (SF64div (SF64sub (Prim2SF cur) (Prim2SF ref)) (Prim2SF ref))).
Proof.
  unfold rel_change. destruct (PrimFloat.eqb ref 0); split; try done.
  intros _. split; [done|]. by rewrite abs_spec, div_spec, sub_spec.
Qed.

(** *** Comparisons and special values of doubles *)
Lemma SFcompare_nan_r x : SFcompare x S754_nan = None.
Proof. by destruct x. Qed.

Lemma SFcompare_refl x : x ≠ S754_nan → SFcompare x x = Some Eq.
Proof.
  destruct x as [s|s| |s m e]; intros Hx; try done; simpl.
  - by destruct s.
  - rewrite Z.compare_refl, Pos.compare_cont_refl. by destruct s.
Qed.

Lemma SFleb_ltb_trans a b c :
  SFleb a b = true → SFltb b c = true → SFltb a c = true.
Proof.
  unfold SFleb, SFltb.
  destruct a as [sa|sa| |sa ma ea], b as [sb|sb| |sb mb eb], c as [sc|sc| |sc mc ec];
    simpl; try done;
    repeat match goal with s : bool |- _ => destruct s end; simpl; try done;
    repeat match goal with
           | |- context [Z.compare ?x ?y] => destruct (Z.compare_spec x y)
           | |- context [PosDef.Pos.compare_cont Eq ?x ?y] =>
               change (PosDef.Pos.compare_cont Eq x y) with (Pos.compare x y);
               destruct (Pos.compare_spec x y)
           end; simpl; try done; try lia.
Qed.

Lemma float_leb_ltb_trans (a b c : float) :
  PrimFloat.leb a b = true → PrimFloat.ltb b c = true → PrimFloat.ltb a c = true.
Proof. rewrite leb_spec, !ltb_spec. apply SFleb_ltb_trans. Qed.

Lemma Prim2SF_zero : Prim2SF 0 = S754_zero false.
Proof. reflexivity. Qed.

Lemma SFsub_diag X :
  SF64sub X X = S754_zero false ∨ SF64sub X X = S754_nan.
Proof.
  destruct X as [s|s| |s m e]; unfold SF64sub, SFsub.
  - left. by destruct s.
  - right. by destruct s.
  - by right.
  - left. by rewrite Z.sub_diag.
Qed.

Lemma rel_change_same_sf (x : float) :
  Prim2SF (rel_change x x) = S754_zero false ∨ Prim2SF (rel_change x x) = S754_nan.
Proof.
  unfold rel_change. destruct (PrimFloat.eqb x 0) eqn:Hz; [by left|].
  rewrite abs_spec, div_spec, sub_spec.
  rewrite eqb_spec, Prim2SF_zero in Hz.
  destruct (SFsub_diag (Prim2SF x)) as [-> | ->].
  - destruct (Prim2SF x) as [s|s| |s m e]; simpl in *; try done; auto.
  - right. by destruct (Prim2SF x).
Qed.

Lemma rel_change_same (t x : float) :
  PrimFloat.ltb t 0 = false → PrimFloat.ltb t (rel_change x x) = false.
Proof.
  rewrite !ltb_spec, Prim2SF_zero. intros Ht.
  destruct (rel_change_same_sf x) as [-> | ->]; [done|].
  unfold SFltb. by rewrite SFcompare_nan_r.
Qed.

Lemma is_nan_spec (x : float) : PrimFloat.is_nan x = true ↔ Prim2SF x = S754_nan.
Proof.
  unfold PrimFloat.is_nan. rewrite eqb_spec, negb_true_iff. unfold SFeqb. split.
  - intros H. destruct (Prim2SF x) as [s|s| |s m e] eqn:Hx; [| |done|];
      rewrite SFcompare_refl in H; done.
  - by intros ->.
Qed.

(* rel_change is zero, or an absolute value *)
Lemma rel_change_nonneg (r k : float) :
  match Prim2SF (rel_change r k) with
  | S754_zero _ | S754_infinity false | S754_finite false _ _ | S754_nan => True
  | _ => False
  end.
Proof.
  unfold rel_change. destruct (PrimFloat.eqb r 0); [done|].
  rewrite abs_spec. by destruct (SFabs _) eqn:H; try done;
    destruct (Prim2SF _); simpl in H; try done; injection H as <-.
Qed.

Lemma rel_change_negative_threshold (t r k : float) :
  PrimFloat.ltb t 0 = true →
  PrimFloat.ltb t (rel_change r k) = negb (PrimFloat.is_nan (rel_change r k)).
Proof.
  rewrite !ltb_spec, Prim2SF_zero. intros Ht.
  pose proof (rel_change_nonneg r k) as Hnn.
  destruct (PrimFloat.is_nan (rel_change r k)) eqn:Hnan.
  - apply is_nan_spec in Hnan. rewrite Hnan. unfold SFltb. by rewrite SFcompare_nan_r.
  - assert (Hne : Prim2SF (rel_change r k) ≠ S754_nan).
    { intros H%is_nan_spec. congruence. }
    unfold SFltb in *.
    destruct (Prim2SF t) as [st|st| |st mt et],
             (Prim2SF (rel_change r k)) as [s|s| |s m e];
      simpl in *; try done;
      repeat match goal with s : bool |- _ => destruct s end; simpl in *; done.
Qed.

Lemma rel_change_nan (r : float) :
  PrimFloat.eqb r 0 = false → rel_change r nan = nan.
Proof.
  intros Hr. unfold rel_change. rewrite Hr. apply Prim2SF_inj.
  rewrite abs_spec, div_spec, sub_spec.
  replace (Prim2SF nan) with S754_nan by reflexivity. reflexivity.
Qed.

Lemma gt_nan (t : float) : PrimFloat.ltb t nan = false.
Proof.
  rewrite ltb_spec. replace (Prim2SF nan) with S754_nan by reflexivity.
  unfold SFltb. by rewrite SFcompare_nan_r.
Qed.

Section Scan.
Context (current : CurrentData) (t : float).

Lemma scan_spec (reference : list (string * Stats)) :
  ∀ (results : list (string * Detail)) (flagged : list string),
  NoDup (Dict.keys reference) →
  (∀ c, c ∈ Dict.keys reference → c ∉ Dict.keys results) →
  (∀ c, c ∈ Dict.keys reference → c ∈ columns current →
        is_Some (Dict.get c (column_stats current))) →
  ∃ results' flagged',
    scan current t reference results flagged = Ok (results', flagged') ∧
    (∀ c, c ∈ flagged' ↔
       c ∈ flagged ∨
       ∃ r k, (c, r) ∈ reference ∧ c ∈ columns current ∧
              Dict.get c (column_stats current) = Some k ∧ is_drifted t r k = true) ∧
    (∀ c r k, (c, r) ∈ reference → c ∈ columns current →
              Dict.get c (column_stats current) = Some k →
              Dict.get c results' = Some (detail t r k)) ∧
    (∀ c, c ∉ Dict.keys reference ∨ c ∉ columns current →
          Dict.get c results' = Dict.get c results) ∧
    length results' =
      length results + length (filter (λ c, c ∈ columns current) (Dict.keys reference)) ∧
    length flagged' ≤ length flagged + length reference.
Proof.
  induction reference as [|[c0 r0] rest IH]; intros results flagged Hnd Hfresh Hstats.
  { exists results, flagged. simpl. split; [done|].
    split; [intros c; split; [by left | intros [?|(? & ? & ?%elem_of_nil & _)]; done]|].
    split; [by intros c r k ?%elem_of_nil|].
    split; [done|]. split; lia. }
  unfold Dict.keys in Hnd, Hfresh, Hstats. simpl in Hnd, Hfresh, Hstats.
  apply NoDup_cons in Hnd as [Hc0 Hnd].
  assert (Hstats' : ∀ c, c ∈ Dict.keys rest → c ∈ columns current →
                      is_Some (Dict.get c (column_stats current)))
    by (intros c Hc; apply Hstats; by right).
  assert (Hfil : filter (λ c, c ∈ columns current) (Dict.keys ((c0, r0) :: rest))
                 = if decide (c0 ∈ columns current)
                   then c0 :: filter (λ c, c ∈ columns current) (Dict.keys rest)
                   else filter (λ c, c ∈ columns current) (Dict.keys rest)).
  { unfold Dict.keys. by rewrite fmap_cons, filter_cons. }
  rewrite Hfil. clear Hfil. cbn [scan].
  destruct (decide (c0 ∈ columns current)) as [Hcol|Hcol].
  - destruct (Hstats c0 (list_elem_of_here _ _) Hcol) as [k0 Hk0]. rewrite Hk0.
    destruct (IH (Dict.set c0 (detail t r0 k0) results)
                 (if is_drifted t r0 k0 then flagged ++ [c0] else flagged) Hnd)
      as (results' & flagged' & Hscan & Hfl & Hres & Hframe & Hlen & Hlenf); [|done|].
    { intros c Hc [->|Hin]%dict_keys_set; [done|].
      apply (Hfresh c); [by right | done]. }
    exists results', flagged'. split; [done|].
    split.
    { intros c. rewrite Hfl. split.
      - intros [Hin|(r & k & Hin & ?)].
        + destruct (is_drifted t r0 k0) eqn:Hd; [|by left].
          apply elem_of_app in Hin as [? | ->%list_elem_of_singleton]; [by left|].
          right. exists r0, k0. split; [left | done].
        + right. exists r, k. split; [by right | done].
      - intros [Hin|(r & k & [Heq|Hin]%elem_of_cons & Hc & Hk & Hd)].
        + left. destruct (is_drifted t r0 k0); [apply elem_of_app; by left | done].
        + injection Heq as -> ->. rewrite Hk0 in Hk. injection Hk as <-.
          left. rewrite Hd. apply elem_of_app. right. by apply list_elem_of_singleton.
        + right. by exists r, k. }
    split.
    { intros c r k [Heq|Hin]%elem_of_cons Hc Hk; [|by eapply Hres].
      injection Heq as -> ->. rewrite Hk0 in Hk. injection Hk as <-.
      rewrite Hframe by (by left). apply dict_get_set_eq. }
    split.
    { intros c Hc. rewrite Hframe.
      - apply dict_get_set_ne. intros <-.
        destruct Hc as [Hc|Hc]; [apply Hc; left | done].
      - destruct Hc as [Hc|Hc]; [left; intros ?; apply Hc; by right | by right]. }
    split; [|simpl; destruct (is_drifted t r0 k0); rewrite ?length_app in Hlenf;
             simpl in *; lia].
    rewrite Hlen, dict_set_fresh_length; [simpl; unfold Dict.keys; lia|].
    apply Hfresh. left.
  - destruct (IH results flagged Hnd)
      as (results' & flagged' & Hscan & Hfl & Hres & Hframe & Hlen & Hlenf); [|done|].
    { intros c Hc. apply Hfresh. by right. }
    exists results', flagged'. split; [done|].
    split.
    { intros c. rewrite Hfl. split.
      - intros [?|(r & k & Hin & ?)]; [by left|]. right. exists r, k. split; [by right|done].
      - intros [?|(r & k & [Heq|Hin]%elem_of_cons & Hc & ?)]; [by left | |].
        + injection Heq as -> ->. done.
        + right. by exists r, k. }
    split.
    { intros c r k [Heq|Hin]%elem_of_cons Hc Hk; [|by eapply Hres].
      injection Heq as -> ->. done. }
    split.
    { intros c Hc. apply Hframe.
      destruct Hc as [Hc|Hc]; [left; intros ?; apply Hc; by right | by right]. }
    split; [by rewrite Hlen | simpl; lia].
Qed.
End Scan.



End DriftFacts.

(** ** Registry: registration, entries, stages *)
Section RegistryOpsFacts.
Import Registry RegistryOps.

Lemma append_inj_r (a x y : string) : a +:+ x = a +:+ y → x = y.
Proof. induction a as [|c a IH]; simpl; [done|]. intros [= H]. by apply IH. Qed.

Lemma path_join_inj (a x y : string) : path_join a x = path_join a y → x = y.
Proof. unfold path_join. intros H%append_inj_r. by apply (append_inj_r "/") in H. Qed.

Lemma ensure_dir_keeps p q (d : gmap string Node) :
  is_Some (d !! q) → is_Some (ensure_dir p d !! q).
Proof. intros Hq. by rewrite ensure_dir_lookup_present. Qed.

Lemma ensure_dir_creates p (d : gmap string Node) : is_Some (ensure_dir p d !! p).
Proof.
  unfold ensure_dir. destruct (d !! p) eqn:Hp; [by rewrite Hp|].
  rewrite lookup_insert_eq. by eexists.
Qed.

Lemma insert_keeps (k q : string) (v : Node) (d : gmap string Node) :
  is_Some (d !! q) → is_Some (<[k := v]> d !! q).
Proof.
  intros Hq. destruct (decide (k = q)) as [->|Hne].
  - rewrite lookup_insert_eq. by eexists.
  - by rewrite lookup_insert_ne.
Qed.

Lemma dict_set_absent {V} (d : list (string * V)) k v :
  Dict.get k d = None → Dict.set k v d = d ++ [(k, v)].
Proof.
  induction d as [|[k0 v0] d IH]; simpl; [done|].
  case_decide as Hk; [done|]. intros H. by rewrite IH.
Qed.

Lemma dict_set_set {V} (d : list (string * V)) k v w :
  Dict.set k v (Dict.set k w d) = Dict.set k v d.
Proof.
  induction d as [|[k0 v0] d IH]; simpl.
  - by rewrite decide_True.
  - case_decide as Hk; simpl; [by rewrite decide_True|].
    rewrite decide_False by done. by rewrite IH.
Qed.

Lemma dict_set_comm {V} (d : list (string * V)) k1 k2 v1 v2 :
  k1 ≠ k2 → is_Some (Dict.get k1 d) → is_Some (Dict.get k2 d) →
  Dict.set k1 v1 (Dict.set k2 v2 d) = Dict.set k2 v2 (Dict.set k1 v1 d).
Proof.
  intros Hne. induction d as [|[k0 v0] d IH]; simpl; [by intros [? ?]|].
  destruct (decide (k0 = k1)) as [E1|H1], (decide (k0 = k2)) as [E2|H2]; simpl.
  - congruence.
  - intros _ _. by rewrite decide_True, decide_False.
  - intros _ _. by rewrite decide_False, decide_True.
  - intros Hk1 Hk2. rewrite !decide_False by done. f_equal. by apply IH.
Qed.

Lemma dict_wf_set {V} (d : list (string * V)) k v : Dict.wf d → Dict.wf (Dict.set k v d).
Proof.
  unfold Dict.wf, Dict.keys. induction d as [|[k0 v0] d IH]; simpl.
  - intros _. apply NoDup_singleton.
  - intros [Hk0 Hd]%NoDup_cons. case_decide as Hk; simpl.
    + by apply NoDup_cons.
    + apply NoDup_cons. split; [|by apply IH].
      intros [Heq|Hin]%(dict_keys_set d k v k0); [congruence | done].
Qed.

(** The winner after one more item: the item when it strictly exceeds the
    old winner, the old winner otherwise. *)
Lemma py_max_snoc {A} (key : A → string) best rest x :
  py_max key best (rest ++ [x])
    = if String.ltb (key (py_max key best rest)) (key x) then x
      else py_max key best rest.
Proof. revert best. induction rest as [|y rest IH]; intros best; simpl; [done | apply IH]. Qed.

Section Register.
Context {Obj : Type} (dumps : Obj → string)
        (render_metadata : list (string * string) → string)
        (render_metrics : list (string * Q) → string).

Local Abbreviation register := (register_model dumps render_metadata render_metrics).

Implicit Types (st : State) (model : BaseModel (Obj:=Obj))
               (metrics : option (list (string * Q)))
               (metadata : option (list (string * string))).

(** The entry [register_model] writes. *)
Lemma register_model_entry st model name version metrics metadata now :
  ∃ e,
    registry (register st model name version metrics metadata now).2 !! name
      = Some (Dict.set version e (default [] (registry st !! name))) ∧
    model_id e = name +:+ "_v" +:+ version ∧
    Registry.model_name e = name ∧ Registry.version e = version ∧
    path e = model_dir st name version ∧ registered_at e = Some now ∧
    Registry.metrics e = default [] metrics ∧
    status e = "active" ∧ stage e = None ∧
    Registry.metadata e
      = match metadata with
        | Some m => update_metadata model m
        | None => []
        end.
Proof.
  unfold register_model, save. simpl. eexists. split; [apply lookup_insert_eq|].
  simpl. repeat split; try done. by destruct metadata.
Qed.

Lemma register_model_other_names st model name version metrics metadata now n :
  n ≠ name →
  registry (register st model name version metrics metadata now).2 !! n = registry st !! n.
Proof. intros Hne. unfold register_model, save. simpl. by rewrite lookup_insert_ne. Qed.

Lemma register_model_registry_path st model name version metrics metadata now :
  registry_path (register st model name version metrics metadata now).2 = registry_path st.
Proof. done. Qed.

(** Nothing that existed disappears, and the model directory exists. *)
Lemma register_model_exists st model name version metrics metadata now :
  is_Some (disk (register st model name version metrics metadata now).2
             !! model_dir st name version) ∧
  ∀ p, is_Some (disk st !! p) →
       is_Some (disk (register st model name version metrics metadata now).2 !! p).
Proof.
  unfold register_model, save, _save_registry, ensure_model_dir. simpl.
  split.
  - apply insert_keeps, ensure_dir_keeps.
    destruct metrics as [[|x m]|]; repeat apply insert_keeps;
      apply ensure_dir_keeps, ensure_dir_creates.
  - intros p Hp. apply insert_keeps, ensure_dir_keeps.
    destruct metrics as [[|x m]|]; repeat apply insert_keeps;
      by repeat apply ensure_dir_keeps.
Qed.

(** X1. Registration is found again: under a version other than the word
    "latest", [get_model_path] returns the model directory and
    [get_model_info] the entry just written, which is active, carries no
    stage, the given metrics and the time of registration, whatever was
    registered under that version before.  A metadata dictionary passed
    in comes back in the entry with the model's name, parameters and
    training flag added by [save]; without one the entry's metadata is
    empty. *)
Theorem register_model_lookup st model name version metrics metadata now :
  version ≠ "latest" →
  (register st model name version metrics metadata now).1 = name +:+ "_v" +:+ version ∧
  get_model_path (register st model name version metrics metadata now).2 name version
    = Some (model_dir st name version) ∧
  ∃ e,
    get_model_info (register st model name version metrics metadata now).2 name version
      = Ok (Some e) ∧
    model_id e = name +:+ "_v" +:+ version ∧
    path e = model_dir st name version ∧ registered_at e = Some now ∧
    Registry.metrics e = default [] metrics ∧
    status e = "active" ∧ stage e = None ∧
    (metadata = None → Registry.metadata e = []) ∧
    (∀ m, metadata = Some m →
       Dict.get "model_name" (Registry.metadata e) = Some (bm_name model) ∧
       Dict.get "params" (Registry.metadata e) = Some (bm_params model) ∧
       Dict.get "is_trained" (Registry.metadata e)
         = Some (render_bool (bm_is_trained model)) ∧
       ∀ k, k ≠ "model_name" → k ≠ "params" → k ≠ "is_trained" →
            Dict.get k (Registry.metadata e) = Dict.get k m).
Proof.
  intros Hlatest.
  destruct (register_model_entry st model name version metrics metadata now)
    as (e & Hreg & Hid & _ & _ & Hpath & Hat & Hmet & Hstatus & Hstage & Hmeta).
  destruct (register_model_exists st model name version metrics metadata now)
    as [Hdir _].
  assert (Hres : ∀ vs : list (string * Entry), resolve_version vs version = Some version).
  { intros vs. unfold resolve_version. by rewrite decide_False. }
  split; [done|]. split.
  - rewrite (get_model_path_resolved _ name _ version e version Hreg (Hres _)
               (dict_get_set_eq _ _ _)).
    rewrite Hpath. unfold path_exists. by rewrite bool_decide_eq_true_2.
  - exists e. unfold get_model_info. rewrite Hreg, Hres, dict_get_set_eq.
    split; [done|]. repeat (split; [done|]).
    split; [intros ->; done|].
    intros m ->. rewrite Hmeta. unfold update_metadata.
    split; [do 2 (rewrite dict_get_set_ne by done); by rewrite dict_get_set_eq|].
    split; [rewrite dict_get_set_ne by done; by rewrite dict_get_set_eq|].
    split; [by rewrite dict_get_set_eq|].
    intros k H1 H2 H3. by do 3 (rewrite dict_get_set_ne by done).
Qed.

(** X2. Registration without a metadata dictionary leaves the other
    entries alone: entries of other names and of other versions of the
    same name are what they were, and an explicit version that could be
    resolved to a path before still resolves to it. *)
Theorem register_model_frame st model name version metrics now :
  (∀ n v, v ≠ "latest" → n ≠ name ∨ v ≠ version →
     get_model_info (register st model name version metrics None now).2 n v
       = get_model_info st n v) ∧
  (∀ n v p, v ≠ "latest" → n ≠ name ∨ v ≠ version →
     get_model_path st n v = Some p →
     get_model_path (register st model name version metrics None now).2 n v = Some p).
Proof.
  destruct (register_model_entry st model name version metrics None now)
    as (e & Hreg & _).
  destruct (register_model_exists st model name version metrics None now)
    as [_ Hkeep].
  assert (Hres : ∀ (vs : list (string * Entry)) v, v ≠ "latest" →
            resolve_version vs v = Some v).
  { intros vs v Hv. unfold resolve_version. by rewrite decide_False. }
  assert (Hget : ∀ n v, n ≠ name ∨ v ≠ version →
            (registry (register st model name version metrics None now).2 !! n
               ≫= Dict.get v) = (registry st !! n ≫= Dict.get v)).
  { intros n v Hnv. destruct (decide (n = name)) as [->|Hn].
    - destruct Hnv as [?|Hv]; [done|]. rewrite Hreg. simpl.
      rewrite dict_get_set_ne by done. by destruct (registry st !! name).
    - by rewrite register_model_other_names. }
  split.
  - intros n v Hv Hnv. specialize (Hget n v Hnv). unfold get_model_info.
    destruct (registry _ !! n) as [vs'|], (registry st !! n) as [vs|];
      simpl in Hget; rewrite ?Hres by done; congruence.
  - intros n v p Hv Hnv Hpath. specialize (Hget n v Hnv).
    set (st' := (register st model name version metrics None now).2) in *.
    clearbody st'. unfold get_model_path in Hpath.
    destruct (registry st !! n) as [vs|] eqn:Hvs; [|done].
    assert (Hne : vs ≠ []) by (intros ->; done).
    assert (Hpath' : match Dict.get v vs with
                     | Some e0 => if path_exists st (path e0) then Some (path e0) else None
                     | None => None
                     end = Some p).
    { destruct vs; [done|]. by rewrite Hres in Hpath by done. }
    clear Hpath. simpl in Hget.
    destruct (Dict.get v vs) as [e0|] eqn:He0; [|done].
    destruct (path_exists st (path e0)) eqn:Hex; [|done].
    injection Hpath' as <-.
    destruct (registry st' !! n) as [vs'|] eqn:Hvs'; simpl in Hget; [|done].
    rewrite (get_model_path_resolved _ n vs' v e0 v Hvs' (Hres _ _ Hv) Hget).
    unfold path_exists in Hex |- *. apply bool_decide_eq_true in Hex.
    by rewrite bool_decide_eq_true_2 by (by apply Hkeep).
Qed.

(** X3. Which version is "latest" after registering a version the name did
    not have: the new one exactly when its timestamp is strictly greater
    (as a string) than that of the version that was latest, which otherwise
    stays latest; and the new one when the name had no version. *)
Theorem register_model_latest st model name version metrics metadata now :
  version ≠ "latest" →
  (∀ vs v_old e_old,
     registry st !! name = Some vs → Dict.wf vs → Dict.get version vs = None →
     resolve_version vs "latest" = Some v_old → Dict.get v_old vs = Some e_old →
     ∃ vs',
       registry (register st model name version metrics metadata now).2 !! name
         = Some vs' ∧
       resolve_version vs' "latest"
         = Some (if String.ltb (default "" (registered_at e_old)) now
                 then version else v_old) ∧
       (String.ltb (default "" (registered_at e_old)) now = true →
        get_model_path (register st model name version metrics metadata now).2
                       name "latest" = Some (model_dir st name version))) ∧
  (registry st !! name = None ∨ registry st !! name = Some [] →
   get_model_path (register st model name version metrics metadata now).2 name "latest"
     = Some (model_dir st name version)).
Proof.
  intros Hlatest.
  destruct (register_model_entry st model name version metrics metadata now)
    as (e & Hreg & _ & _ & _ & Hpath & Hat & _).
  destruct (register_model_exists st model name version metrics metadata now)
    as [Hdir _].
  assert (Hfound : ∀ vs', registry (register st model name version metrics metadata now).2
                            !! name = Some vs' →
            resolve_version vs' "latest" = Some version →
            Dict.get version vs' = Some e →
            get_model_path (register st model name version metrics metadata now).2
                           name "latest" = Some (model_dir st name version)).
  { intros vs' Hvs' Hres Hget.
    rewrite (get_model_path_resolved _ name vs' version e "latest" Hvs' Hres Hget).
    rewrite Hpath. unfold path_exists. by rewrite bool_decide_eq_true_2. }
  split.
  - intros vs v_old e_old Hvs Hwf Hnew Hres Hold.
    rewrite Hvs in Hreg. change (default [] (Some vs)) with vs in Hreg.
    rewrite (dict_set_absent vs version e Hnew) in Hreg.
    exists (vs ++ [(version, e)]). split; [done|].
    assert (Hres' : resolve_version (vs ++ [(version, e)]) "latest"
                    = Some (if String.ltb (default "" (registered_at e_old)) now
                            then version else v_old)).
    { unfold resolve_version in Hres |- *. rewrite decide_True in Hres |- * by done.
      destruct vs as [|x rest]; [done|]. simpl. rewrite py_max_snoc.
      injection Hres as Hres.
      pose proof (py_max_elem_of reg_key x rest) as Hin.
      destruct (py_max reg_key x rest) as [v0 e0] eqn:Hmax. simpl in Hres. subst v0.
      apply (dict_wf_get _ _ _ Hwf) in Hin. rewrite Hold in Hin. injection Hin as <-.
      unfold reg_key at 1 2. simpl. rewrite Hat. simpl.
      by destruct (String.ltb _ now). }
    split; [done|]. intros Hlt. rewrite Hlt in Hres'.
    apply (Hfound _ Hreg Hres').
    rewrite <- (dict_set_absent vs version e Hnew). apply dict_get_set_eq.
  - intros Hnone.
    assert (Hvs' : registry (register st model name version metrics metadata now).2
                     !! name = Some [(version, e)])
      by (destruct Hnone as [Hn|Hn]; by rewrite Hn in Hreg).
    apply (Hfound _ Hvs'); [done|]. simpl. by rewrite decide_True.
Qed.

End Register.

Lemma register_model_lookup_witness :
  get_model_path (demo_register st_fresh "1.0" "2024-03-01T10:15:00").2
                 "logistic_regression" "1.0"
    = Some "models/logistic_regression/1.0".
Proof.
  exact (proj1 (proj2 (register_model_lookup (λ o, "pkl:" +:+ o) (λ _, "meta")
           (λ _, "metrics") st_fresh lr_artifact "logistic_regression" "1.0"
           (Some [("accuracy", (95 # 100)%Q)]) None "2024-03-01T10:15:00"
           ltac:(discriminate)))).
Defined.

(** Register 1.0, then 1.1 later: "latest" is 1.1, "1.0" is still found,
    an unknown name is not. *)
Lemma register_model_latest_witness :
  let st1 := (demo_register st_fresh "1.0" "2024-03-01T10:15:00").2 in
  let st2 := (demo_register st1 "1.1" "2024-03-02T08:00:00").2 in
  get_model_path st2 "logistic_regression" "latest"
    = Some "models/logistic_regression/1.1" ∧
  get_model_path st2 "logistic_regression" "1.0"
    = Some "models/logistic_regression/1.0" ∧
  get_model_path st2 "x" "latest" = None.
Proof.
  intros st1 st2. split; [|split; vm_compute; reflexivity].
  destruct (proj1 (register_model_latest (λ o, "pkl:" +:+ o) (λ _, "meta")
              (λ _, "metrics") st1 lr_artifact "logistic_regression" "1.1"
              (Some [("accuracy", (95 # 100)%Q)]) None "2024-03-02T08:00:00"
              ltac:(discriminate))
              (default [] (registry st1 !! "logistic_regression")) "1.0"
              (default e10 (Dict.get "1.0"
                 (default [] (registry st1 !! "logistic_regression")))))
    as (vs' & _ & _ & Hpath).
  - vm_compute. reflexivity.
  - apply (bool_decide_unpack _). vm_compute. reflexivity.
  - vm_compute. reflexivity.
  - vm_compute. reflexivity.
  - vm_compute. reflexivity.
  - apply Hpath. vm_compute. reflexivity.
Defined.


(** X4. [get_model_info] and [get_model_path] resolve alike: a path that
    is found is the path of the entry that is found, and an entry that is
    found gives its path exactly when that path exists on disk.  They
    part on a name with an empty version dictionary asked for "latest":
    [get_model_path] answers not-found, [get_model_info] raises. *)
Theorem model_info_and_path st name version :
  (∀ p, get_model_path st name version = Some p →
        ∃ e, get_model_info st name version = Ok (Some e) ∧ path e = p ∧
             path_exists st p = true) ∧
  (∀ e, get_model_info st name version = Ok (Some e) →
        get_model_path st name version
          = if path_exists st (path e) then Some (path e) else None) ∧
  (get_model_info st name version = Ok None → get_model_path st name version = None) ∧
  (registry st !! name = Some [] →
   get_model_path st name "latest" = None ∧
   get_model_info st name "latest" = Err (ValueError "max() arg is an empty sequence")).
Proof.
  unfold get_model_path, get_model_info.
  destruct (registry st !! name) as [vs|] eqn:Hvs.
  2:{ repeat split; try done. }
  destruct vs as [|x rest] eqn:Hcons.
  { split; [done|]. split.
    - intros e. by destruct (resolve_version [] version).
    - split; [done|]. intros _. split; [done|].
      unfold resolve_version. by rewrite decide_True. }
  rewrite <- Hcons in *.
  destruct (resolve_version vs version) as [v|] eqn:Hres.
  2:{ unfold resolve_version in Hres. rewrite Hcons in Hres. by case_decide. }
  destruct (Dict.get v vs) as [e|] eqn:Hget.
  - destruct (path_exists st (path e)) eqn:Hex.
    + split; [intros p [= <-]; by exists e|].
      split; [intros e' [= <-]; by rewrite Hex|]. split; [done|]. by rewrite Hcons.
    + split; [done|]. split; [intros e' [= <-]; by rewrite Hex|].
      split; [done|]. by rewrite Hcons.
  - split; [done|]. split; [done|]. split; [done|]. by rewrite Hcons.
Qed.

(** Replacing an entry by one with the same timestamp does not change
    what a request resolves to. *)
Lemma resolve_version_same_time (vs : list (string * Entry)) version e e' req :
  Dict.get version vs = Some e → registered_at e' = registered_at e →
  resolve_version (Dict.set version e' vs) req = resolve_version vs req.
Proof.
  intros Hg Hat. unfold resolve_version. case_decide; [|done].
  pose proof (dict_set_Forall2
                (λ a b : Entry, registered_at a = registered_at b)
                vs version e' e (λ _, eq_refl) Hg (eq_sym Hat)) as HF.
  destruct HF as [|x y rest rest' Hxy HF]; [done|].
  f_equal. symmetry.
  refine (proj1 (py_max_Forall2 reg_key reg_key
           (λ a b : string * Entry, a.1 = b.1 ∧ registered_at a.2 = registered_at b.2)
           x y rest rest' _ Hxy HF)).
  intros a b [_ Hr]. unfold reg_key. by rewrite Hr.
Qed.

(** Rewriting one entry without touching its path or timestamp, then
    saving, changes no answer of [get_model_path]. *)
Lemma touch_entry_keeps_paths st name version vs e e' n req :
  index_on_disk st →
  registry st !! name = Some vs → Dict.get version vs = Some e →
  path e' = path e → registered_at e' = registered_at e →
  get_model_path
    (_save_registry {| registry_path := registry_path st;
                       registry := <[name := Dict.set version e' vs]> (registry st);
                       disk := disk st |}) n req
  = get_model_path st n req.
Proof.
  intros Hidx Hvs Hg Hpath Hat.
  set (st0 := {| registry_path := registry_path st;
                 registry := <[name := Dict.set version e' vs]> (registry st);
                 disk := disk st |}).
  assert (Hex : ∀ p, path_exists (_save_registry st0) p = path_exists st p)
    by (intros p; by rewrite (save_registry_path_exists st0)).
  assert (Hreg0 : registry (_save_registry st0)
                  = <[name := Dict.set version e' vs]> (registry st)) by done.
  clearbody st0. unfold get_model_path. rewrite Hreg0.
  destruct (decide (n = name)) as [->|Hne].
  2:{ rewrite lookup_insert_ne by done.
      destruct (registry st !! n) as [vs0|]; [|done].
      destruct vs0 as [|x0 vs0]; [done|].
      destruct (resolve_version (x0 :: vs0) req) as [v0|]; [|done].
      destruct (Dict.get v0 (x0 :: vs0)); [by rewrite Hex | done]. }
  rewrite lookup_insert_eq, Hvs.
  rewrite (resolve_version_same_time vs version e e' req Hg Hat).
  assert (Hne : vs ≠ []) by (by intros ->).
  assert (Hne' : Dict.set version e' vs ≠ []).
  { destruct vs as [|[k0 v0] rest]; [done|]. simpl. by case_decide. }
  destruct (Dict.set version e' vs) as [|y rest'] eqn:Hset; [done|].
  rewrite <- Hset. clear Hne'.
  destruct vs as [|x rest] eqn:Hcons; [done|]. rewrite <- Hcons in *.
  destruct (resolve_version vs req) as [v|]; [|done].
  destruct (decide (version = v)) as [<-|Hv].
  - by rewrite dict_get_set_eq, Hg, !Hex, Hpath.
  - rewrite dict_get_set_ne by done.
    destruct (Dict.get v vs); [by rewrite Hex | done].
Qed.

(** X5. A soft-deleted or promoted model is served as before: neither
    [delete_model] nor [promote_model] changes what [get_model_path]
    answers, for any name and any version, "latest" included. *)
Theorem soft_ops_keep_paths st name version stage_ n req :
  index_on_disk st →
  get_model_path (delete_model st name version).2 n req = get_model_path st n req ∧
  get_model_path (promote_model st name version stage_).2 n req = get_model_path st n req.
Proof.
  intros Hidx. unfold delete_model, promote_model.
  destruct (registry st !! name) as [vs|] eqn:Hvs; [|done].
  destruct (Dict.get version vs) as [e|] eqn:Hg; [|done]. simpl.
  split; by apply (touch_entry_keeps_paths st name version vs e).
Qed.

Lemma soft_ops_keep_paths_witness :
  get_model_path (delete_model st_m "m" "1.0").2 "m" "1.0" = Some "models/m/1.0".
Proof.
  rewrite (proj1 (soft_ops_keep_paths st_m "m" "1.0" "production" "m" "1.0"
                    ltac:(split; vm_compute; eexists; reflexivity))).
  reflexivity.
Defined.

Lemma ensure_dir_lookup_present_id p k v (d : gmap string Node) :
  ensure_dir p (<[k := v]> (ensure_dir p d)) = <[k := v]> (ensure_dir p d).
Proof.
  unfold ensure_dir at 1.
  destruct (insert_keeps k p v (ensure_dir p d) (ensure_dir_creates p d)) as [x ->].
  done.
Qed.

Lemma save_after_save rp (R1 R2 : Index) (d : gmap string Node) :
  disk (_save_registry
          {| registry_path := rp; registry := R2;
             disk := disk (_save_registry
                             {| registry_path := rp; registry := R1; disk := d |}) |})
  = disk (_save_registry {| registry_path := rp; registry := R2; disk := d |}).
Proof.
  unfold _save_registry, registry_file. simpl.
  rewrite (ensure_dir_lookup_present_id rp). by rewrite insert_insert_eq.
Qed.

Lemma state_eq (st1 st2 : State) :
  registry_path st1 = registry_path st2 → registry st1 = registry st2 →
  disk st1 = disk st2 → st1 = st2.
Proof. destruct st1, st2. simpl. by intros -> -> ->. Qed.

(** What one soft operation does to a registered entry. *)
Lemma delete_model_registered st name version vs e :
  registry st !! name = Some vs → Dict.get version vs = Some e →
  delete_model st name version
    = (true, _save_registry
               {| registry_path := registry_path st;
                  registry := <[name := Dict.set version (set_status e "deleted") vs]>
                                (registry st);
                  disk := disk st |}).
Proof. intros Hvs Hg. unfold delete_model. by rewrite Hvs, Hg. Qed.

Lemma promote_model_registered st name version stage_ vs e :
  registry st !! name = Some vs → Dict.get version vs = Some e →
  promote_model st name version stage_
    = (true, _save_registry
               {| registry_path := registry_path st;
                  registry := <[name := Dict.set version (set_stage e stage_) vs]>
                                (registry st);
                  disk := disk st |}).
Proof. intros Hvs Hg. unfold promote_model. by rewrite Hvs, Hg. Qed.

Lemma touch_touch (S : State) n x :
  _save_registry
    {| registry_path := registry_path (_save_registry S);
       registry := <[n := x]> (registry (_save_registry S));
       disk := disk (_save_registry S) |}
  = _save_registry
      {| registry_path := registry_path S;
         registry := <[n := x]> (registry S);
         disk := disk S |}.
Proof.
  apply state_eq; [done|done|]. destruct S as [rp R d]. apply save_after_save.
Qed.

Lemma set_stage_set_status e s g :
  set_stage (set_status e s) g = set_status (set_stage e g) s.
Proof. done. Qed.

(** X6. Deleting twice is deleting once: the second [delete_model] of the
    same (name, version) returns what the first returned and leaves the
    registry and the disk as the first left them. *)
Theorem delete_model_idempotent st name version :
  delete_model (delete_model st name version).2 name version
    = delete_model st name version.
Proof.
  destruct (registry st !! name) as [vs|] eqn:Hvs.
  2:{ unfold delete_model at 2 3. rewrite Hvs. simpl. unfold delete_model. by rewrite Hvs. }
  destruct (Dict.get version vs) as [e|] eqn:Hg.
  2:{ unfold delete_model at 2 3. rewrite Hvs, Hg. simpl.
      unfold delete_model. by rewrite Hvs, Hg. }
  rewrite (delete_model_registered st name version vs e Hvs Hg). cbn [snd].
  rewrite (delete_model_registered _ name version
             (Dict.set version (set_status e "deleted") vs) (set_status e "deleted"));
    [|simpl; apply lookup_insert_eq | apply dict_get_set_eq].
  rewrite touch_touch. cbn [registry_path registry disk].
  by rewrite insert_insert_eq, dict_set_set.
Qed.

(** X7. [delete_model] and [promote_model] commute: on registered
    entries, of one name or two, of one version or two, either order
    leaves the same registry and the same disk. *)
Theorem delete_promote_commute st n1 v1 n2 v2 stage_ vs1 e1 vs2 e2 :
  registry st !! n1 = Some vs1 → Dict.get v1 vs1 = Some e1 →
  registry st !! n2 = Some vs2 → Dict.get v2 vs2 = Some e2 →
  promote_model (delete_model st n1 v1).2 n2 v2 stage_
    = (true, (delete_model (promote_model st n2 v2 stage_).2 n1 v1).2) ∧
  delete_model (promote_model st n2 v2 stage_).2 n1 v1
    = (true, (promote_model (delete_model st n1 v1).2 n2 v2 stage_).2).
Proof.
  intros H1 G1 H2 G2.
  rewrite (delete_model_registered st n1 v1 vs1 e1 H1 G1).
  rewrite (promote_model_registered st n2 v2 stage_ vs2 e2 H2 G2). cbn [snd].
  destruct (decide (n1 = n2)) as [<-|Hn].
  - assert (vs2 = vs1) as -> by congruence.
    destruct (decide (v1 = v2)) as [<-|Hv].
    + assert (e2 = e1) as -> by congruence.
      rewrite (promote_model_registered _ n1 v1 stage_
                 (Dict.set v1 (set_status e1 "deleted") vs1) (set_status e1 "deleted"));
        [|simpl; apply lookup_insert_eq | apply dict_get_set_eq].
      rewrite (delete_model_registered _ n1 v1
                 (Dict.set v1 (set_stage e1 stage_) vs1) (set_stage e1 stage_));
        [|simpl; apply lookup_insert_eq | apply dict_get_set_eq].
      rewrite !touch_touch. cbn [snd registry_path registry disk].
      by rewrite !insert_insert_eq, !dict_set_set, set_stage_set_status.
    + rewrite (promote_model_registered _ n1 v2 stage_
                 (Dict.set v1 (set_status e1 "deleted") vs1) e2);
        [|simpl; apply lookup_insert_eq | by rewrite dict_get_set_ne].
      rewrite (delete_model_registered _ n1 v1
                 (Dict.set v2 (set_stage e2 stage_) vs1) e1);
        [|simpl; apply lookup_insert_eq | by rewrite dict_get_set_ne].
      rewrite !touch_touch. cbn [snd registry_path registry disk].
      rewrite !insert_insert_eq.
      by rewrite (dict_set_comm vs1 v2 v1 (set_stage e2 stage_) (set_status e1 "deleted"))
        by (done || by eexists).
  - rewrite (promote_model_registered _ n2 v2 stage_ vs2 e2);
      [|simpl; by rewrite lookup_insert_ne | done].
    rewrite (delete_model_registered _ n1 v1 vs1 e1);
      [|simpl; by rewrite lookup_insert_ne | done].
    rewrite !touch_touch. cbn [snd registry_path registry disk].
    by rewrite (insert_insert_ne (registry st) n1 n2).
Qed.

Lemma delete_promote_commute_witness :
  (promote_model (delete_model st_m "m" "1.0").2 "m" "1.1" "production").2
    = (delete_model (promote_model st_m "m" "1.1" "production").2 "m" "1.0").2.
Proof.
  destruct (delete_promote_commute st_m "m" "1.0" "m" "1.1" "production"
              two_versions e10 two_versions e11 eq_refl eq_refl eq_refl eq_refl)
    as [H _].
  by rewrite H.
Defined.

(** X8. Promotion never demotes: after promoting two versions of a name
    to the same stage one after the other, both carry that stage, and
    each is otherwise the entry it was. *)
Theorem promote_model_keeps_others st name v1 v2 stage_ vs e1 e2 :
  registry st !! name = Some vs →
  Dict.get v1 vs = Some e1 → Dict.get v2 vs = Some e2 →
  v1 ≠ v2 → v1 ≠ "latest" → v2 ≠ "latest" →
  get_model_info (promote_model (promote_model st name v1 stage_).2 name v2 stage_).2
                 name v1 = Ok (Some (set_stage e1 stage_)) ∧
  get_model_info (promote_model (promote_model st name v1 stage_).2 name v2 stage_).2
                 name v2 = Ok (Some (set_stage e2 stage_)).
Proof.
  intros Hvs G1 G2 Hne Hl1 Hl2.
  rewrite (promote_model_registered st name v1 stage_ vs e1 Hvs G1). simpl.
  rewrite (promote_model_registered _ name v2 stage_
             (Dict.set v1 (set_stage e1 stage_) vs) e2);
    [|simpl; apply lookup_insert_eq | by rewrite dict_get_set_ne].
  unfold get_model_info, resolve_version. simpl.
  rewrite !lookup_insert_eq, !decide_False by done.
  split.
  - rewrite dict_get_set_ne by done. by rewrite dict_get_set_eq.
  - by rewrite dict_get_set_eq.
Qed.

Lemma promote_model_keeps_others_witness :
  stage <$> Dict.get "1.0"
    (default [] (registry (promote_model (promote_model st_m "m" "1.0" "production").2
                             "m" "1.1" "production").2 !! "m"))
    = Some (Some "production").
Proof.
  pose proof (proj1 (promote_model_keeps_others st_m "m" "1.0" "1.1" "production"
                       two_versions e10 e11 eq_refl eq_refl eq_refl
                       ltac:(discriminate) ltac:(discriminate) ltac:(discriminate)))
    as H.
  unfold get_model_info in H.
  destruct (registry _ !! "m") as [vs|]; [|discriminate H]. simpl.
  unfold resolve_version in H. rewrite decide_False in H by discriminate.
  injection H as ->. reflexivity.
Defined.

(** X9. Soft-deleted entries stay listed: after [delete_model] the
    listing of the name has the same length and contains the entry with
    status [deleted], and so does the listing of everything. *)
Theorem list_models_keeps_deleted st name version vs e :
  registry st !! name = Some vs → Dict.get version vs = Some e → name ≠ "" →
  length (list_models (delete_model st name version).2 (Some name))
    = length (list_models st (Some name)) ∧
  set_status e "deleted" ∈ list_models (delete_model st name version).2 (Some name) ∧
  set_status e "deleted" ∈ list_models (delete_model st name version).2 None.
Proof.
  intros Hvs Hg Hname.
  rewrite (delete_model_registered st name version vs e Hvs Hg).
  unfold list_models. simpl. rewrite !decide_False by done.
  rewrite lookup_insert_eq, Hvs.
  assert (Hin : set_status e "deleted" ∈ (Dict.set version (set_status e "deleted") vs).*2).
  { apply list_elem_of_fmap. exists (version, set_status e "deleted").
    split; [done|]. apply dict_get_elem_of, dict_get_set_eq. }
  split.
  { rewrite !length_fmap.
    pose proof (f_equal length
      (dict_keys_set_present vs version (set_status e "deleted") (ex_intro _ e Hg))) as H.
    unfold Dict.keys in H. by rewrite !length_fmap in H. }
  split; [done|].
  apply list_elem_of_bind. exists (Dict.set version (set_status e "deleted") vs).
  split; [done|]. apply list_elem_of_fmap.
  exists (name, Dict.set version (set_status e "deleted") vs). split; [done|].
  apply elem_of_map_to_list, lookup_insert_eq.
Qed.

Lemma list_models_keeps_deleted_witness :
  length (list_models (delete_model st_m "m" "1.0").2 (Some "m")) = 2.
Proof.
  rewrite (proj1 (list_models_keeps_deleted st_m "m" "1.0" two_versions e10
                    eq_refl eq_refl ltac:(discriminate))).
  reflexivity.
Defined.

End RegistryOpsFacts.

(** ** Artifacts: what [save] writes, [load] reads back *)
Section ArtifactFacts.
Import Registry RegistryOps.
Context {Obj : Type} (dumps : Obj → string) (loads : string → option Obj)
        (render_metadata : list (string * string) → string)
        (render_metrics : list (string * Q) → string).

Implicit Types (self other model : BaseModel (Obj:=Obj)).

Lemma last_char_app (a b : string) : b ≠ "" → last_char (a +:+ b) = last_char b.
Proof.
  intros Hb. induction a as [|c a IH]; [done|].
  simpl. rewrite IH. destruct (a +:+ b) eqn:Hab; [|done].
  destruct a as [|c0 a]; simpl in Hab; [by subst | discriminate Hab].
Qed.

(** The pickle of a model directory is not the index file. *)
Lemma model_pkl_not_index st dir : path_join dir "model.pkl" ≠ registry_file st.
Proof.
  intros H. apply (f_equal last_char) in H. unfold path_join, registry_file in H.
  rewrite !last_char_app in H by done. discriminate H.
Qed.

Lemma save_writes_pickle self dir metadata (d : gmap string Node) :
  (save dumps render_metadata self dir metadata d).2 !! path_join dir "model.pkl"
    = Some (Blob (dumps (bm_model self))).
Proof.
  unfold save. simpl. rewrite lookup_insert_ne.
  - apply lookup_insert_eq.
  - intros H%path_join_inj. discriminate H.
Qed.

(** X10. What [save] writes, [load] reads back, into whatever instance
    it is called on: the estimator is the saved one, name and parameters
    stay those of the loading instance, and the instance counts as trained
    even when the saved one did not, while [metadata.json] records the
    saved model's own flag. *)
Theorem save_load_round_trip self other dir metadata (d : gmap string Node) :
  loads (dumps (bm_model self)) = Some (bm_model self) →
  load loads other dir (save dumps render_metadata self dir metadata d).2
    = inr {| bm_name := bm_name other; bm_params := bm_params other;
             bm_model := bm_model self; bm_is_trained := true |} ∧
  ∃ written,
    (save dumps render_metadata self dir metadata d).2 !! path_join dir "metadata.json"
      = Some (Blob (render_metadata written)) ∧
    Dict.get "is_trained" written = Some (render_bool (bm_is_trained self)) ∧
    Dict.get "model_name" written = Some (bm_name self).
Proof.
  intros Hrt. split.
  - unfold load. by rewrite save_writes_pickle, Hrt.
  - exists (update_metadata self (default [] metadata)).
    split; [unfold save; simpl; apply lookup_insert_eq|].
    unfold update_metadata. split; [apply dict_get_set_eq|].
    do 2 (rewrite dict_get_set_ne by done). apply dict_get_set_eq.
Qed.

(** X11. A registered model can be fetched: under an explicit version, the
    path the registry answers is a directory from which [load] returns the
    estimator that was registered, whether or not metrics were written
    beside it. *)
Theorem register_then_load st model other name version metrics metadata now :
  version ≠ "latest" →
  loads (dumps (bm_model model)) = Some (bm_model model) →
  ∃ p,
    get_model_path
      (register_model dumps render_metadata render_metrics
         st model name version metrics metadata now).2 name version = Some p ∧
    load loads other p
      (disk (register_model dumps render_metadata render_metrics
               st model name version metrics metadata now).2)
      = inr {| bm_name := bm_name other; bm_params := bm_params other;
               bm_model := bm_model model; bm_is_trained := true |}.
Proof.
  intros Hlatest Hrt. exists (model_dir st name version).
  destruct (register_model_entry dumps render_metadata render_metrics
              st model name version metrics metadata now)
    as (e & Hreg & _ & _ & _ & Hpath & _).
  destruct (register_model_exists dumps render_metadata render_metrics
              st model name version metrics metadata now) as [Hdir _].
  split.
  - assert (Hres : resolve_version
                     (Dict.set version e (default [] (registry st !! name))) version
                   = Some version)
      by (unfold resolve_version; by rewrite decide_False).
    rewrite (get_model_path_resolved _ name _ version e version Hreg Hres
               (dict_get_set_eq _ _ _)).
    rewrite Hpath. unfold path_exists. by rewrite bool_decide_eq_true_2.
  - unfold load.
    assert (Hpkl : disk (register_model dumps render_metadata render_metrics
                           st model name version metrics metadata now).2
                     !! path_join (model_dir st name version) "model.pkl"
                   = Some (Blob (dumps (bm_model model)))).
    { unfold register_model.
      pose proof (save_writes_pickle model (model_dir st name version) metadata
                    (ensure_model_dir st name version (disk st))) as Hsave.
      destruct (save dumps render_metadata model (model_dir st name version) metadata
                  (ensure_model_dir st name version (disk st))) as [md d2].
      simpl in Hsave. simpl.
      rewrite lookup_insert_ne by (apply not_eq_sym, (model_pkl_not_index
        {| registry_path := registry_path st; registry := ∅; disk := ∅ |})).
      assert (Hd3 : ∀ d3 : gmap string Node,
                d3 !! path_join (model_dir st name version) "model.pkl"
                  = Some (Blob (dumps (bm_model model))) →
                ensure_dir (registry_path st) d3
                  !! path_join (model_dir st name version) "model.pkl"
                = Some (Blob (dumps (bm_model model)))).
      { intros d3 H3. rewrite ensure_dir_lookup_present; [done | by rewrite H3]. }
      apply Hd3. destruct metrics as [[|x m]|]; [done| |done].
      rewrite lookup_insert_ne; [done|]. intros H%path_join_inj. discriminate H. }
    by rewrite Hpkl, Hrt.
Qed.

End ArtifactFacts.

Section ArtifactExamples.
Import Registry RegistryOps.

Lemma save_load_round_trip_witness :
  load Some lr_artifact "models/a" (save id (λ _, "meta") lr_artifact "models/a" None ∅).2
    = inr lr_artifact.
Proof.
  apply (proj1 (save_load_round_trip id Some (λ _, "meta")
                  lr_artifact lr_artifact "models/a" None ∅ eq_refl)).
Defined.

Lemma register_then_load_witness :
  ∃ p, get_model_path
         (register_model id (λ _, "meta") (λ _, "metrics")
            st_fresh lr_artifact "logistic_regression" "1.0.0" None None
            "2024-03-01T10:15:00").2 "logistic_regression" "1.0.0" = Some p ∧
       load Some lr_artifact p
         (disk (register_model id (λ _, "meta") (λ _, "metrics")
                  st_fresh lr_artifact "logistic_regression" "1.0.0" None None
                  "2024-03-01T10:15:00").2)
       = inr lr_artifact.
Proof.
  apply (register_then_load id Some (λ _, "meta") (λ _, "metrics")
           st_fresh lr_artifact lr_artifact "logistic_regression" "1.0.0" None None
           "2024-03-01T10:15:00" ltac:(discriminate) eq_refl).
Defined.

End ArtifactExamples.

(** ** Trainer: training several models, the names of the base models *)
Section TrainerOpsFacts.
Import Trainer TrainerOps.
Context {Data Handle Params : Type}.
Context (config_models : list string)
        (config_params : string → Params)
        (estimator_build : string → Params → Res Handle)
        (estimator_fit : string → Handle → Data → Res Handle)
        (vote_build : list (option Handle) → Params → Res Handle)
        (vote_fit : Handle → Data → Res Handle)
        (config_models_to_train : option (list string))
        (data : Data).

Local Abbreviation State := (@TrainerState Handle Params).
Local Abbreviation Mdl := (@Model Handle Params).
Local Abbreviation names := (base_model_names config_models).
Local Abbreviation train fuel :=
  (train_model config_models config_params estimator_build estimator_fit
               vote_build vote_fit fuel data).
Local Abbreviation train_ensemble tm :=
  (_train_ensemble config_models config_params vote_build vote_fit tm data).
Local Abbreviation ensemble_fit := (fit vote_build vote_fit).
Local Abbreviation new_ensemble := (HybridEnsembleModel config_params).
Local Abbreviation train_all fuel :=
  (train_all_models config_models config_params estimator_build estimator_fit
                    vote_build vote_fit config_models_to_train fuel data).

Implicit Types (s : State) (n k : string) (m : Mdl).

Lemma ensemble_fit_name (ens ens' : Mdl) s s' :
  ensemble_fit ens data s = (Ok ens', s') → model_name ens' = model_name ens.
Proof.
  unfold fit, bind, lift, log, ret, raise, build.
  destruct (base_models ens) as [|b bs]; [done|].
  destruct (model ens) as [h|].
  - destruct (vote_fit h data) as [h'|e]; [|done]. by intros [= <- <-].
  - destruct (vote_build _ _) as [h|e]; [|done]. simpl.
    destruct (vote_fit h data) as [h'|e]; [|done]. by intros [= <- <-].
Qed.

(** A model [train_model] returns carries the name it was asked for and
    counts as trained. *)
Lemma train_model_ok_named fuel n p s m s' :
  train fuel n p s = (Ok m, s') → model_name m = n ∧ is_trained m = true.
Proof.
  destruct fuel as [|fuel]; simpl; [done|].
  case_decide as Hreg; [|done].
  case_decide as Hhy.
  - subst n. rewrite train_ensemble_phases.
    destruct (resolve_base_models _ _ _ _) as [[bms|e] s1]; [|done].
    destruct (ensemble_fit_spec vote_build vote_fit data (new_ensemble bms p) s1)
      as (evs & _ & _ & _ & Hsucc).
    destruct (fit _ _ _ _ _) as [[ens|e] s2] eqn:Hfit; [|done].
    intros [= <- <-]. split.
    + by rewrite (ensemble_fit_name _ _ _ _ Hfit).
    + by destruct (Hsucc ens eq_refl) as (_ & _ & ? & _).
  - unfold bind, lift, log, store, ret.
    destruct (estimator_build n _) as [h|e]; [|done].
    destruct (estimator_fit n h data) as [h'|e]; [|done].
    by intros [= <- <-].
Qed.

(** Whatever [train_model] does for one name, the models cached under
    other names stay. *)
Lemma train_model_keeps_others fuel n p s k m :
  k ≠ n → trained_models s !! k = Some m →
  trained_models (train fuel n p s).2 !! k = Some m.
Proof.
  intros Hne Hk. destruct fuel as [|fuel]; simpl; [done|].
  case_decide as Hreg; [|done].
  case_decide as Hhy.
  - subst n. rewrite train_ensemble_phases.
    pose proof (resolve_base_models_inv config_models (train fuel)
                  (train_model_inv config_models config_params estimator_build
                     estimator_fit vote_build vote_fit data fuel)
                  names [] s (λ _ H, H)) as (_ & _ & _ & _ & Hsub & _).
    destruct (resolve_base_models _ _ _ _) as [[bms|e] s1]; simpl in *;
      [|by apply (lookup_weaken _ _ _ _ Hk)].
    destruct (ensemble_fit_spec vote_build vote_fit data (new_ensemble bms p) s1)
      as (evs & Hc & _).
    destruct (fit _ _ _ _ _) as [[ens|e] s2]; simpl in *.
    + rewrite lookup_insert_ne, Hc by done. by apply (lookup_weaken _ _ _ _ Hk).
    + rewrite Hc. by apply (lookup_weaken _ _ _ _ Hk).
  - unfold bind, lift, log, store, ret.
    destruct (estimator_build n _) as [h|e]; [|done].
    destruct (estimator_fit n h data) as [h'|e]; simpl; [|done].
    by rewrite lookup_insert_ne.
Qed.

(** A [train_model] that raises has replaced no cached model. *)
Lemma train_model_err_keeps fuel n p s e s' :
  train fuel n p s = (Err e, s') → trained_models s ⊆ trained_models s'.
Proof.
  destruct fuel as [|fuel]; simpl; [by intros [= _ <-]|].
  case_decide as Hreg; [|by intros [= _ <-]].
  case_decide as Hhy.
  - subst n. rewrite train_ensemble_phases.
    pose proof (resolve_base_models_inv config_models (train fuel)
                  (train_model_inv config_models config_params estimator_build
                     estimator_fit vote_build vote_fit data fuel)
                  names [] s (λ _ H, H)) as (_ & _ & _ & _ & Hsub & _).
    destruct (resolve_base_models _ _ _ _) as [[bms|e0] s1]; simpl in *;
      [|by intros [= _ <-]].
    destruct (ensemble_fit_spec vote_build vote_fit data (new_ensemble bms p) s1)
      as (evs & Hc & _).
    destruct (fit _ _ _ _ _) as [[ens|e0] s2]; simpl in *; [done|].
    intros [= _ <-]. by rewrite Hc.
  - unfold bind, lift, log, store, ret.
    destruct (estimator_build n _) as [h|e0]; [|by intros [= _ <-]].
    destruct (estimator_fit n h data) as [h'|e0]; simpl; [done|].
    by intros [= _ <-].
Qed.

Lemma train_each_step (tm : string → option Params → M Mdl) n (l : list string)
    (acc : list (string * Mdl)) s :
  train_each tm (n :: l) acc s
    = match tm n None s with
      | (Ok m, s1) => train_each tm l (Dict.set n m acc) s1
      | (Err e, s1) => (Err e, s1)
      end.
Proof. done. Qed.

Lemma train_each_app (tm : string → option Params → M Mdl) (l1 l2 : list string)
    (acc : list (string * Mdl)) s :
  train_each tm (l1 ++ l2) acc s
    = match train_each tm l1 acc s with
      | (Ok acc1, s1) => train_each tm l2 acc1 s1
      | (Err e, s1) => (Err e, s1)
      end.
Proof.
  revert acc s. induction l1 as [|n l1 IH]; intros acc s; [done|].
  rewrite <- app_comm_cons, !train_each_step.
  destruct (tm n None s) as [[m|e] s1]; [apply IH | done].
Qed.

Lemma dict_set_is_Some {V} (d : list (string * V)) k v k' :
  is_Some (Dict.get k' (Dict.set k v d)) ↔ k' = k ∨ is_Some (Dict.get k' d).
Proof.
  destruct (decide (k' = k)) as [->|Hne].
  - rewrite dict_get_set_eq. split; [by left | by eexists].
  - rewrite dict_get_set_ne by done. split; [by right | by intros [?|?]].
Qed.

(** The loop of [train_all_models] keeps the dictionary it builds in step
    with the cache. *)
Lemma train_each_inv fuel (l : list string) (acc result : list (string * Mdl)) s s' :
  Dict.wf acc →
  (∀ k m, Dict.get k acc = Some m →
     trained_models s !! k = Some m ∧ model_name m = k ∧ is_trained m = true) →
  train_each (train fuel) l acc s = (Ok result, s') →
  Dict.wf result ∧
  (∀ k, is_Some (Dict.get k result) ↔ k ∈ l ∨ is_Some (Dict.get k acc)) ∧
  (∀ k m, Dict.get k result = Some m →
     trained_models s' !! k = Some m ∧ model_name m = k ∧ is_trained m = true).
Proof.
  revert acc s. induction l as [|n l IH]; intros acc s Hwf Hacc.
  { intros [= <- <-]. split; [done|]. split; [|done].
    intros k. split; [by right|]. by intros [?%elem_of_nil|?]. }
  rewrite train_each_step.
  destruct (train fuel n None s) as [[m|e] s1] eqn:Htm; [|done].
  intros Hrest.
  destruct (IH (Dict.set n m acc) s1) as (Hwf' & Hkeys & Hres); [| |done|].
  - by apply dict_wf_set.
  - intros k mk. destruct (decide (k = n)) as [->|Hne].
    + rewrite dict_get_set_eq. intros [= <-].
      split; [by apply (train_model_ok_cached _ _ _ _ _ _ _ _ _ _ _ _ _ Htm)|].
      by apply (train_model_ok_named _ _ _ _ _ _ Htm).
    + rewrite dict_get_set_ne by done. intros Hget.
      destruct (Hacc k mk Hget) as (Hc & Hnm & Htr). split; [|done].
      pose proof (train_model_keeps_others fuel n None s k mk Hne Hc) as Hkeep.
      by rewrite Htm in Hkeep.
  - split; [done|]. split; [|done].
    intros k. rewrite Hkeys, dict_set_is_Some, elem_of_cons. tauto.
Qed.

(** X12. What [train_all_models] returns agrees with the trainer: the
    dictionary has exactly the names asked for (the configured ones, or the
    whole registry, when none are given), each once, all of them registered
    model types; and under each name is the model [get_trained_model]
    answers afterwards, which carries that name and is trained. *)
Theorem train_all_models_result fuel models_to_train s result s' :
  train_all fuel models_to_train s = (Ok result, s') →
  Dict.wf result ∧
  (∀ k, is_Some (Dict.get k result)
        ↔ k ∈ names_to_train config_models_to_train models_to_train) ∧
  (∀ k m, Dict.get k result = Some m →
     get_trained_model k s' = (Ok (Some m), s') ∧
     model_name m = k ∧ is_trained m = true ∧ k ∈ MODEL_REGISTRY).
Proof.
  intros Hrun. unfold train_all_models in Hrun.
  destruct (train_each_inv fuel (names_to_train config_models_to_train models_to_train)
              [] result s s') as (Hwf & Hkeys & Hres);
    [apply NoDup_nil_2 | done | done |].
  assert (Hkeys' : ∀ k, is_Some (Dict.get k result)
                        ↔ k ∈ names_to_train config_models_to_train models_to_train).
  { intros k. rewrite Hkeys. simpl. split; [intros [?|[? ?]]; done | by left]. }
  split; [done|]. split; [done|].
  intros k m Hget. destruct (Hres k m Hget) as (Hc & Hnm & Htr).
  split; [unfold get_trained_model, cached; by rewrite Hc|].
  split; [done|]. split; [done|].
  assert (Hin : k ∈ names_to_train config_models_to_train models_to_train)
    by (apply Hkeys'; by eexists).
  clear Hkeys Hkeys' Hres Hwf Hget Hc.
  revert Hin Hrun. generalize (@nil (string * Mdl)).
  generalize (names_to_train config_models_to_train models_to_train). revert s.
  intros s l. revert s. induction l as [|n l IH]; intros s acc Hin Hrun;
    [by apply elem_of_nil in Hin|].
  rewrite train_each_step in Hrun.
  destruct (train fuel n None s) as [[m0|e] s1] eqn:Htm; [|done].
  apply elem_of_cons in Hin as [->|Hin]; [|by apply (IH s1 _ Hin Hrun)].
  destruct fuel as [|fuel]; [done|]. simpl in Htm. by case_decide.
Qed.

(** X13. [train_all_models] stops at the first failure and passes the
    exception on, so the caller gets no dictionary; but the models trained
    before it are still in the trainer, under their names, and the failed
    call has replaced none of them. *)
Theorem train_all_models_fail_fast fuel (pre post : list string) n s acc s1 e s2 :
  train_all fuel (Some pre) s = (Ok acc, s1) →
  train fuel n None s1 = (Err e, s2) →
  train_all fuel (Some (pre ++ n :: post)) s = (Err e, s2) ∧
  ∀ k m, Dict.get k acc = Some m → get_trained_model k s2 = (Ok (Some m), s2).
Proof.
  intros Hpre Hfail. unfold train_all_models in *. simpl in *. split.
  - by rewrite train_each_app, Hpre, train_each_step, Hfail.
  - intros k m Hget.
    destruct (train_each_inv fuel pre [] acc s s1) as (_ & _ & Hres);
      [apply NoDup_nil_2 | done | done |].
    destruct (Hres k m Hget) as (Hc & _).
    unfold get_trained_model, cached.
    by rewrite (lookup_weaken _ _ _ _ Hc (train_model_err_keeps _ _ _ _ _ _ Hfail)).
Qed.

(** [train_model] keeps every cached model under its own name. *)
Lemma train_model_cache_named fuel n p s :
  cache_named s → cache_named (train fuel n p s).2.
Proof.
  revert n p s. induction fuel as [|fuel IH]; intros n p s Hs; simpl; [done|].
  case_decide as Hreg; [|done].
  case_decide as Hhy.
  - subst n. rewrite train_ensemble_phases.
    assert (Hloop : ∀ (l : list string) (acc : list Mdl) s0,
              cache_named s0 →
              cache_named (resolve_base_models (train fuel) l acc s0).2).
    { induction l as [|n l IHl]; intros acc s0 Hs0; [done|].
      cbn [resolve_base_models]. unfold bind at 1. cbn [cached]. unfold bind at 1.
      destruct (trained_models s0 !! n) as [m|] eqn:Hn; [cbn [ret]; by apply IHl|].
      pose proof (IH n None s0 Hs0) as Hs1.
      destruct (train fuel n None s0) as [[m|e] s1]; [by apply IHl | done]. }
    pose proof (Hloop names [] s Hs) as Hs1.
    destruct (resolve_base_models _ _ _ _) as [[bms|e] s1]; [|done].
    destruct (ensemble_fit_spec vote_build vote_fit data (new_ensemble bms p) s1)
      as (evs & Hc & _).
    destruct (fit _ _ _ _ _) as [[ens|e] s2] eqn:Hfit; simpl in *.
    + intros k m. cbn [snd trained_models].
      destruct (decide (k = "hybrid_ensemble")) as [->|Hne].
      * rewrite lookup_insert_eq. intros [= <-].
        by rewrite (ensemble_fit_name _ _ _ _ Hfit).
      * rewrite lookup_insert_ne, Hc by done. apply Hs1.
    + intros k m. cbn [snd]. rewrite Hc. apply Hs1.
  - unfold bind, lift, log, store, ret.
    destruct (estimator_build n _) as [h|e]; [|done].
    destruct (estimator_fit n h data) as [h'|e]; simpl; [|done].
    intros k m. cbn [snd trained_models]. destruct (decide (k = n)) as [->|Hne].
    + rewrite lookup_insert_eq. by intros [= <-].
    + rewrite lookup_insert_ne by done. apply Hs.
Qed.

(** X14. The ensemble knows its base models by the configured names: in a
    trainer whose cached models sit under their own names, as they do in a
    new trainer and after every [train_model], the ensemble that
    [train_model] returns for [hybrid_ensemble] answers the names of the
    ensemble spec, in the spec's order, the defaults when the spec is
    empty. *)
Theorem ensemble_base_model_names fuel p s ens s' :
  cache_named s →
  train fuel "hybrid_ensemble" p s = (Ok ens, s') →
  get_base_model_names ens = base_model_names config_models ∧ cache_named s'.
Proof.
  intros Hs Hrun.
  pose proof (train_model_cache_named fuel "hybrid_ensemble" p s Hs) as Hs'.
  rewrite Hrun in Hs'. split; [|done].
  destruct fuel as [|fuel]; [done|]. cbn [train_model] in Hrun.
  rewrite decide_True in Hrun by (unfold MODEL_REGISTRY; set_solver).
  rewrite decide_True in Hrun by done.
  rewrite train_ensemble_phases in Hrun.
  pose proof (λ bms s1, resolve_base_models_ok config_models config_params
                estimator_build estimator_fit vote_build vote_fit data
                fuel names [] bms s s1 (λ _ H, H)) as Hok.
  assert (Hloop : ∀ (l : list string) (acc : list Mdl) s0,
            cache_named s0 →
            cache_named (resolve_base_models (train fuel) l acc s0).2).
  { induction l as [|n l IHl]; intros acc s0 Hs0; [done|].
    cbn [resolve_base_models]. unfold bind at 1. cbn [cached]. unfold bind at 1.
    destruct (trained_models s0 !! n) as [m|] eqn:Hn; [cbn [ret]; by apply IHl|].
    pose proof (train_model_cache_named fuel n None s0 Hs0) as Hs1.
    destruct (train fuel n None s0) as [[m|e] s1]; [by apply IHl | done]. }
  pose proof (Hloop names [] s Hs) as Hs1.
  destruct (resolve_base_models _ _ _ _) as [[bms|e] s1]; [|done].
  destruct (Hok bms s1 eq_refl) as (ms & -> & HF). simpl in *.
  destruct (ensemble_fit_spec vote_build vote_fit data (new_ensemble ms p) s1)
    as (evs & _ & _ & _ & Hsucc).
  destruct (fit _ _ _ _ _) as [[ens0|e] s2]; [|done].
  injection Hrun as -> _.
  destruct (Hsucc ens eq_refl) as (_ & Hbase & _). simpl in Hbase.
  unfold get_base_model_names. rewrite Hbase.
  clear -HF Hs1. induction HF as [|n m l ms Hnm HF IH]; [done|].
  simpl. f_equal; [by apply Hs1 | done].
Qed.

End TrainerOpsFacts.

Section TrainerOpsExamples.
Import Trainer TrainerOps.

Lemma train_all_models_result_witness :
  ∃ result s',
    demo_train_all demo_fit None empty_trainer = (Ok result, s') ∧
    Dict.keys result = MODEL_REGISTRY ∧
    ∀ k m, Dict.get k result = Some m → trained_models s' !! k = Some m.
Proof.
  destruct (demo_train_all demo_fit None empty_trainer) as [[result|e] s'] eqn:Hrun;
    [|vm_compute in Hrun; discriminate Hrun].
  exists result, s'. split; [done|]. split.
  - vm_compute in Hrun. injection Hrun as <- _. reflexivity.
  - intros k m Hget.
    destruct (train_all_models_result [] (λ _, tt) demo_build demo_fit demo_vote_build
                demo_vote_fit None tt 2 None empty_trainer result s' Hrun)
      as (_ & _ & Hres).
    destruct (Hres k m Hget) as (Hc & _).
    unfold get_trained_model, cached in Hc. by injection Hc.
Defined.

Lemma train_all_models_fail_fast_witness :
  ∃ s2,
    demo_train_all demo_fit_gb_fails
      (Some ["logistic_regression"; "gradient_boosting"; "neural_network"]) empty_trainer
      = (Err (External "fit"), s2) ∧
    is_Some (trained_models s2 !! "logistic_regression") ∧
    trained_models s2 !! "neural_network" = None.
Proof.
  destruct (demo_train_all demo_fit_gb_fails (Some ["logistic_regression"]) empty_trainer)
    as [[acc|e] s1] eqn:Hpre; [|vm_compute in Hpre; discriminate Hpre].
  destruct (demo_train_model_with demo_fit_gb_fails 2 "gradient_boosting" None s1)
    as [[m|e] s2] eqn:Hfail.
  { vm_compute in Hpre. injection Hpre as <- <-. vm_compute in Hfail. discriminate Hfail. }
  assert (He : e = External "fit").
  { vm_compute in Hpre. injection Hpre as <- <-. vm_compute in Hfail. by injection Hfail. }
  subst e.
  destruct (train_all_models_fail_fast [] (λ _, tt) demo_build demo_fit_gb_fails
              demo_vote_build demo_vote_fit None tt 2
              ["logistic_regression"] ["neural_network"] "gradient_boosting"
              empty_trainer acc s1 (External "fit") s2 Hpre Hfail) as [Hall Hkept].
  exists s2. split; [exact Hall|].
  vm_compute in Hpre. injection Hpre as <- <-. vm_compute in Hfail.
  injection Hfail as <-. split; [vm_compute; by eexists | reflexivity].
Defined.

Lemma ensemble_base_model_names_witness :
  ∃ ens s',
    demo_train_model [] 2 "hybrid_ensemble" None empty_trainer = (Ok ens, s') ∧
    get_base_model_names ens
      = ["logistic_regression"; "gradient_boosting"; "neural_network"].
Proof.
  destruct (demo_train_model [] 2 "hybrid_ensemble" None empty_trainer)
    as [[ens|e] s'] eqn:Hrun; [|vm_compute in Hrun; discriminate Hrun].
  exists ens, s'. split; [done|].
  apply (ensemble_base_model_names [] (λ _, tt) demo_build demo_fit demo_vote_build
           demo_vote_fit tt 2 None empty_trainer ens s'); [|exact Hrun].
  intros k m Hk. vm_compute in Hk. discriminate Hk.
Defined.

End TrainerOpsExamples.

(** ** Pipeline: from raw input to labels *)
Section PipelineFacts.
Import Inference Predictor Pipeline.

(** X15. A batch size that is not positive never gives predictions:
    whatever the model and the rows, [batch_predict] raises a
    [ValueError], from [range] for size 0 and from the concatenation of
    no batch otherwise, and the model is not consulted. *)
Theorem batch_predict_nonpositive {Row} (self : ModelPredictor (Row:=Row))
    (X : Features) (batch_size : Z) :
  (batch_size ≤ 0)%Z →
  ∃ msg, Predictor.batch_predict self X batch_size = Err (ValueError msg) ∧
         Predictor.batch_predict None X batch_size = Err (ValueError msg).
Proof.
  intros Hb. unfold Predictor.batch_predict, py_range0.
  destruct (decide (batch_size = 0%Z)) as [->|Hne]; [by eexists|].
  rewrite decide_False by lia.
  replace (Z.to_nat (- Z.of_nat (length (values X)))) with 0 by lia.
  by eexists.
Qed.

Lemma batch_predict_nonpositive_witness :
  ∃ msg, Predictor.batch_predict (Some sign_model) (Array ten_rows) (-8)
           = Err (ValueError msg).
Proof.
  destruct (batch_predict_nonpositive (Some sign_model) (Array ten_rows) (-8) ltac:(lia))
    as (msg & H & _).
  by exists msg.
Defined.

Section Rows.
Context {V : Type} (nan : V) (feature_names : list string).

Implicit Types (self : ModelPredictor (Row:=list V)) (data : Input (V:=V))
               (X : list (list V)).

(** With a classifier that labels each row on its own, batching does not
    show in the result. *)
Lemma batch_predict_row_wise {Row} (clf : BaseModel (Row:=Row)) (f : Row → Z)
    (rows : list Row) (b : Z) :
  is_trained clf = true → row_wise clf f → (0 < b)%Z → rows ≠ [] →
  Predictor.batch_predict (Some clf) (Array rows) b = Ok (f <$> rows).
Proof.
  intros Htr Hrow Hb Hne. unfold Predictor.batch_predict. cbv zeta. cbn [values].
  rewrite batch_starts by done. cbn [res_bind].
  pose proof (range_up_slices rows (Z.to_nat b) ltac:(lia) (length rows) 0) as Hslices.
  rewrite Z2Nat.id in Hslices by lia.
  change (Z.of_nat 0) with 0%Z in Hslices. rewrite drop_0 in Hslices.
  rewrite <- (mapM_fmap (λ j, py_slice rows j (j + b))
                        (λ c, Predictor.predict (Some clf) (Array c))).
  rewrite Hslices.
  destruct (chunks_aux_spec (Z.to_nat b) ltac:(lia) (length rows) rows ltac:(lia))
    as (Hcat & Hall & Hnonempty).
  rewrite (mapM_row_wise clf f); [|done..|].
  - cbn [res_bind]. unfold np_concatenate.
    destruct (chunks_aux (length rows) (Z.to_nat b) rows) as [|c cs] eqn:Hch;
      [by destruct (Hnonempty Hne)|].
    rewrite fmap_cons, <- (fmap_cons (λ c : list Row, f <$> c)).
    by rewrite concat_fmap_fmap, Hcat.
  - eapply Forall_impl; [exact Hall|]. intros c ?. simpl in *. lia.
Qed.

(** X16. Through the pipeline, batching does not show either: for input
    that [prepare_input] accepts with at least one row, a positive batch
    size and a trained classifier that labels each row on its own,
    [batch_predict] and [predict] return the same labels, those of the
    prepared rows in order. *)
Theorem pipeline_batch_matches_predict (clf : BaseModel (Row:=list V)) f data X
    (batch_size : Z) :
  prepare_input nan feature_names data = Ok X → X ≠ [] → (0 < batch_size)%Z →
  is_trained clf = true → row_wise clf f →
  batch_predict nan feature_names (Some clf) data batch_size false = Ok (Labels (f <$> X)) ∧
  predict nan feature_names (Some clf) data false = Ok (Labels (f <$> X)).
Proof.
  intros Hprep HX Hb Htr Hrow. unfold batch_predict, predict. rewrite Hprep.
  cbn [res_bind]. rewrite (batch_predict_row_wise clf f X batch_size) by done.
  cbn [res_bind Predictor.predict values]. unfold BaseModel_predict.
  by rewrite Htr, (Hrow X HX).
Qed.

(** X17. Input errors come first: when [prepare_input] rejects the
    input, every entry point of the pipeline raises that same error,
    whatever predictor it holds, also one with no model loaded. *)
Theorem pipeline_input_errors_first self data e :
  prepare_input nan feature_names data = Err e →
  (∀ return_proba, predict nan feature_names self data return_proba = Err e) ∧
  (∀ t, predict_with_confidence nan feature_names self data t = Err e) ∧
  (∀ b return_proba, batch_predict nan feature_names self data b return_proba = Err e) ∧
  (∀ features return_proba, data = InList [features] →
     predict_single nan feature_names self features return_proba = Err e).
Proof.
  intros Hprep. unfold predict, predict_with_confidence, batch_predict, predict_single.
  rewrite Hprep. repeat split; try done.
  intros features rp ->. unfold predict_with_confidence. by rewrite Hprep.
Qed.

Lemma qmax_half (p0 p1 : Q) :
  (p0 + (p1 + 0) == 1)%Q → Qle_bool (1 # 2) p1 = Qle_bool p0 p1.
Proof.
  intros Hsum. destruct (Qle_bool p0 p1) eqn:H01.
  - apply Qle_bool_iff in H01. apply Qle_bool_iff. lra.
  - destruct (Qle_bool (1 # 2) p1) eqn:Hh; [|done].
    apply Qle_bool_iff in Hh. exfalso.
    assert (Hle : (p0 <= p1)%Q) by lra. apply Qle_bool_iff in Hle. congruence.
Qed.

(** X18. [predict_single] on a classifier with two probability columns
    whose row sums to one: the answer carries the two probabilities of the
    row; the prediction is 1, and the diagnosis Malignant, exactly when
    the malignant probability is at least the benign one (a tie counts as
    malignant), and 0 and Benign otherwise; the confidence is the
    probability of the predicted class and at least one half.  Without
    [return_proba] the same answer comes without the two probabilities. *)
Theorem predict_single_consistent self features X (P : Proba) row rest :
  prepare_input nan feature_names (InList [features]) = Ok X →
  Predictor.predict_proba self (Array X) = Ok P →
  proba_wf P → ncols P = 2 → prows P = row :: rest → (qsum row == 1)%Q →
  ∃ out p0 p1,
    predict_single nan feature_names self features true = Ok out ∧
    row = [p0; p1] ∧
    probability_benign out = Some p0 ∧ probability_malignant out = Some p1 ∧
    (prediction out = 1%Z ∨ prediction out = 0%Z) ∧
    (prediction out = 1%Z ↔ (p0 <= p1)%Q) ∧
    (diagnosis out = "Malignant" ↔ (p0 <= p1)%Q) ∧
    (diagnosis out = "Benign" ↔ (p1 < p0)%Q) ∧
    single_confidence out = (if decide (prediction out = 1%Z) then p1 else p0) ∧
    (1 # 2 <= single_confidence out)%Q ∧
    predict_single nan feature_names self features false
      = Ok {| prediction := prediction out; diagnosis := diagnosis out;
              single_confidence := single_confidence out;
              probability_benign := None; probability_malignant := None |}.
Proof.
  intros Hprep Hproba Hwf Hcols Hrows Hsum.
  assert (Hlen : length row = 2).
  { unfold proba_wf in Hwf. rewrite Hrows, Hcols in Hwf. by apply Forall_cons in Hwf as [? _]. }
  destruct row as [|p0 [|p1 [|? ?]]]; try done.
  unfold predict_single, predict_with_confidence. rewrite Hprep. cbn [res_bind].
  unfold Predictor.predict_with_confidence. rewrite Hproba. cbn [res_bind].
  unfold column, np_max_axis1. rewrite Hcols, Hrows.
  rewrite decide_True by lia. cbn [res_bind]. rewrite decide_False by lia.
  cbn [res_bind fmap list_fmap predictions confidence probabilities prows item
       lookup list_lookup nth row_max fold_left].
  unfold qsum in Hsum. cbn [foldr] in Hsum.
  rewrite (qmax_half p0 p1 Hsum). unfold qmax.
  destruct (Qle_bool p0 p1) eqn:H01.
  - assert (Hle : (p0 <= p1)%Q) by (by apply Qle_bool_iff).
    rewrite Hrows. cbn. eexists _, p0, p1. split; [reflexivity|]. cbn.
    split; [done|]. split; [done|]. split; [done|]. split; [by left|].
    split; [done|]. split; [done|].
    split; [split; [done | intros Hlt; exfalso; lra]|].
    split; [done|]. split; [lra | done].
  - assert (Hlt : (p1 < p0)%Q).
    { apply Qnot_le_lt. intros Hle%Qle_bool_iff. congruence. }
    rewrite Hrows. cbn. eexists _, p0, p1. split; [reflexivity|]. cbn.
    split; [done|]. split; [done|]. split; [done|]. split; [by right|].
    split; [split; [done | intros Hle; exfalso; lra]|].
    split; [split; [done | intros Hle; exfalso; lra]|].
    split; [done|].
    split; [done|]. split; [lra | done].
Qed.

End Rows.

Lemma pipeline_batch_matches_predict_witness :
  batch_predict 0%Z ["x"] (Some head_model) (InList [[("x", 3%Z)]; [("x", (-2)%Z)]]) 1 false
    = Ok (Labels [1%Z; 0%Z]).
Proof.
  apply (proj1 (pipeline_batch_matches_predict 0%Z ["x"] head_model head_sign
                  (InList [[("x", 3%Z)]; [("x", (-2)%Z)]]) [[3%Z]; [(-2)%Z]] 1
                  eq_refl ltac:(discriminate) ltac:(lia) eq_refl
                  ltac:(intros X _; reflexivity))).
Defined.

Lemma pipeline_input_errors_first_witness :
  predict_single 0%Z demo_features None demo_partial true
    = Err (MissingFeatures ["texture"; "symmetry"]).
Proof.
  apply (proj2 (proj2 (proj2 (pipeline_input_errors_first 0%Z demo_features None
                  (InList [demo_partial]) (MissingFeatures ["texture"; "symmetry"])
                  eq_refl))) demo_partial true eq_refl).
Defined.

Lemma predict_single_consistent_witness :
  ∃ out, predict_single 0%Z ["x"] (Some head_model) [("x", 3%Z)] true = Ok out ∧
         prediction out = 1%Z ∧ diagnosis out = "Malignant" ∧
         single_confidence out = (7 # 10)%Q.
Proof.
  destruct (predict_single_consistent 0%Z ["x"] (Some head_model) [("x", 3%Z)]
              [[3%Z]] {| ncols := 2; prows := [[(3 # 10)%Q; (7 # 10)%Q]] |}
              [(3 # 10)%Q; (7 # 10)%Q] [] eq_refl eq_refl)
    as (out & p0 & p1 & Hout & Hrow & _ & _ & _ & Hpred & Hdiag & _ & Hconf & _).
  - unfold proba_wf. simpl. by repeat constructor.
  - reflexivity.
  - reflexivity.
  - vm_compute. reflexivity.
  - injection Hrow as <- <-.
    assert (Hp : prediction out = 1%Z) by (apply Hpred; vm_compute; discriminate).
    exists out. split; [exact Hout|]. split; [exact Hp|].
    split; [apply Hdiag; vm_compute; discriminate|].
    rewrite Hconf. by rewrite decide_True.
Defined.

End PipelineFacts.

(** ** Drift: thresholds, unchanged data, the Kolmogorov-Smirnov test *)
Section DriftMoreFacts.
Import Drift DriftKS.

Lemma dict_keys_set_congr {A B} (d1 : list (string * A)) (d2 : list (string * B)) k v1 v2 :
  Dict.keys d1 = Dict.keys d2 →
  Dict.keys (Dict.set k v1 d1) = Dict.keys (Dict.set k v2 d2).
Proof.
  unfold Dict.keys. revert d2.
  induction d1 as [|[k1 x1] d1 IH]; intros [|[k2 x2] d2]; simpl; try done.
  intros [= -> Hrest]. case_decide; simpl; [by f_equal|]. f_equal. by apply IH.
Qed.

Lemma is_drifted_mono (t1 t2 : float) (r k : Stats) :
  PrimFloat.leb t1 t2 = true → is_drifted t2 r k = true → is_drifted t1 r k = true.
Proof.
  intros Ht. rewrite !is_drifted_iff.
  intros [H|H]; [left | right]; by eapply float_leb_ltb_trans.
Qed.

(** Two scans of the same data under two thresholds move in step. *)
Lemma scan_mono current (t1 t2 : float) (reference : list (string * Stats)) :
  PrimFloat.leb t1 t2 = true →
  ∀ (res1 res2 : list (string * Detail)) (fl1 fl2 : list string),
    Dict.keys res1 = Dict.keys res2 → fl2 `sublist_of` fl1 →
    match scan current t1 reference res1 fl1, scan current t2 reference res2 fl2 with
    | Ok (r1, f1), Ok (r2, f2) => Dict.keys r1 = Dict.keys r2 ∧ f2 `sublist_of` f1
    | Err e1, Err e2 => e1 = e2
    | _, _ => False
    end.
Proof.
  intros Ht. induction reference as [|[c r] rest IH]; intros res1 res2 fl1 fl2 Hk Hsub;
    [done|].
  cbn [scan]. case_decide as Hc; [|by apply IH].
  destruct (Dict.get c (column_stats current)) as [k|]; [|done].
  apply IH; [by apply dict_keys_set_congr|].
  destruct (is_drifted t2 r k) eqn:H2.
  - rewrite (is_drifted_mono t1 t2 r k Ht H2). by apply sublist_app.
  - destruct (is_drifted t1 r k); [by apply sublist_inserts_r | done].
Qed.

(** X19. A stricter threshold flags more: of two runs of
    [detect_drift_statistics] on the same data, the one with the larger
    threshold fails exactly when the other does, and when both return,
    the features it flags are flagged by the other too, in the same
    order, while both compare the same features. *)
Theorem drift_threshold_monotone reference current (t1 t2 : float) :
  PrimFloat.leb t1 t2 = true →
  (∀ s2, detect_drift_statistics reference current t2 = Ok s2 →
     ∃ s1, detect_drift_statistics reference current t1 = Ok s1 ∧
           drifted_features s2 `sublist_of` drifted_features s1 ∧
           drift_count s2 ≤ drift_count s1 ∧
           total_features s1 = total_features s2 ∧
           Dict.keys (details s1) = Dict.keys (details s2)) ∧
  (∀ e, detect_drift_statistics reference current t2 = Err e →
        detect_drift_statistics reference current t1 = Err e).
Proof.
  intros Ht. unfold detect_drift_statistics.
  destruct reference as [reference|]; [|done].
  pose proof (scan_mono current t1 t2 reference Ht [] [] [] [] eq_refl
                (sublist_nil)) as Hstep.
  destruct (scan current t1 reference [] []) as [[r1 f1]|e1],
           (scan current t2 reference [] []) as [[r2 f2]|e2]; simpl in *; try done.
  - destruct Hstep as [Hkeys Hsub]. split; [|done].
    intros s2 [= <-]. eexists. split; [done|]. simpl.
    split; [done|]. split; [by apply sublist_length|].
    split; [|done]. unfold Dict.keys in Hkeys.
    apply (f_equal length) in Hkeys. by rewrite !length_fmap in Hkeys.
  - subst e2. split; [done|]. by intros e [= <-].
Qed.

Lemma drift_threshold_monotone_witness :
  ∃ s1 s2,
    detect_drift_statistics (Some demo_reference) demo_current 0.25 = Ok s1 ∧
    detect_drift_statistics (Some demo_reference) demo_current 0.75 = Ok s2 ∧
    drifted_features s1 = ["area"] ∧ drifted_features s2 = [].
Proof.
  destruct (detect_drift_statistics (Some demo_reference) demo_current 0.75)
    as [s2|e] eqn:H2; [|vm_compute in H2; discriminate H2].
  destruct (proj1 (drift_threshold_monotone (Some demo_reference) demo_current
                     0.25 0.75 ltac:(vm_compute; reflexivity)) s2 H2)
    as (s1 & H1 & _).
  exists s1, s2. split; [exact H1|]. split; [reflexivity|].
  vm_compute in H1, H2. injection H1 as <-. injection H2 as <-. by split.
Defined.

(** X20. Unchanged statistics raise no alarm: when the current mean and
    deviation of every shared column are the reference ones, no feature is
    flagged under a threshold that is not below zero.  Under a threshold
    below zero a shared column is flagged exactly when one of its two
    relative changes is a number; a column whose current mean and
    deviation are NaN while the reference ones are not zero is flagged
    under no threshold at all. *)
Theorem drift_same_statistics reference current (t : float) :
  Dict.wf reference →
  (∀ c, c ∈ Dict.keys reference → c ∈ columns current →
        is_Some (Dict.get c (column_stats current))) →
  ∃ summary,
    detect_drift_statistics (Some reference) current t = Ok summary ∧
    (PrimFloat.ltb t 0 = false →
     (∀ c r k, Dict.get c reference = Some r → c ∈ columns current →
               Dict.get c (column_stats current) = Some k →
               mean k = mean r ∧ std k = std r) →
     drifted_features summary = [] ∧ drift_count summary = 0) ∧
    (PrimFloat.ltb t 0 = true →
     ∀ c r k, Dict.get c reference = Some r → c ∈ columns current →
              Dict.get c (column_stats current) = Some k →
              (c ∈ drifted_features summary ↔
                 PrimFloat.is_nan (rel_change (mean r) (mean k)) = false ∨
                 PrimFloat.is_nan (rel_change (std r) (std k)) = false)) ∧
    (∀ c r k, Dict.get c reference = Some r → c ∈ columns current →
              Dict.get c (column_stats current) = Some k →
              PrimFloat.eqb (mean r) 0 = false → PrimFloat.eqb (std r) 0 = false →
              mean k = nan → std k = nan →
              c ∉ drifted_features summary).
Proof.
  intros Hwf Hstats.
  destruct (scan_spec current t reference [] [] Hwf) as
    (results & flagged & Hscan & Hfl & _);
    [by intros c _ ?%elem_of_nil | done |].
  unfold detect_drift_statistics. rewrite Hscan. simpl.
  assert (Hdrift : ∀ c r k, Dict.get c reference = Some r → c ∈ columns current →
            Dict.get c (column_stats current) = Some k →
            c ∈ flagged ↔ is_drifted t r k = true).
  { intros c r k Hr Hc Hk. rewrite Hfl. split.
    - intros [?%elem_of_nil|(r' & k' & Hin & _ & Hk' & Hd)]; [done|].
      apply (dict_wf_get _ _ _ Hwf) in Hin. congruence.
    - intros Hd. right. exists r, k. split; [by apply dict_get_elem_of | done]. }
  eexists. split; [done|]. simpl. split; [|split].
  - intros Ht Hsame.
    assert (Hnil : flagged = []).
    { destruct flagged as [|c l]; [done|]. exfalso.
      destruct (proj1 (Hfl c) (list_elem_of_here _ _))
        as [?%elem_of_nil|(r & k & Hin & Hc & Hk & Hd)]; [done|].
      destruct (Hsame c r k (dict_wf_get _ _ _ Hwf Hin) Hc Hk) as [Hm Hs].
      apply is_drifted_iff in Hd. rewrite Hm, Hs in Hd.
      rewrite !rel_change_same in Hd by done. by destruct Hd. }
    by rewrite Hnil.
  - intros Ht c r k Hr Hc Hk.
    rewrite (Hdrift c r k Hr Hc Hk), is_drifted_iff.
    rewrite !rel_change_negative_threshold by done.
    by rewrite !negb_true_iff.
  - intros c r k Hr Hc Hk Hm Hs Hmk Hsk.
    rewrite (Hdrift c r k Hr Hc Hk), is_drifted_iff, Hmk, Hsk.
    rewrite !rel_change_nan, !gt_nan by done. by intros [?|?].
Qed.

Lemma drift_same_statistics_witness :
  ∃ summary,
    detect_drift_statistics (Some demo_reference) demo_current (-1)%float = Ok summary ∧
    "texture" ∈ drifted_features summary.
Proof.
  destruct (drift_same_statistics demo_reference demo_current (-1)%float)
    as (summary & Hrun & _ & Hneg & _).
  - apply (bool_decide_unpack _). vm_compute. reflexivity.
  - intros c Hc Hcol. vm_compute in Hc.
    repeat (apply elem_of_cons in Hc as [->|Hc];
            [first [ vm_compute; eexists; reflexivity
                   | exfalso; revert Hcol; apply (bool_decide_unpack _);
                     vm_compute; reflexivity ]|]).
    by apply elem_of_nil in Hc.
  - exists summary. split; [exact Hrun|].
    apply (Hneg ltac:(vm_compute; reflexivity) "texture"
             {| mean := 0; std := 1 |} {| mean := 5; std := 1 |});
      [reflexivity | | reflexivity | left; vm_compute; reflexivity].
    apply (bool_decide_unpack _). vm_compute. reflexivity.
Defined.

Section KSFacts.
Context {Series : Type} (ks_2samp : Series → Series → Res (Q * Q)).

Local Abbreviation kscan := (ks_scan ks_2samp).
Local Abbreviation ks_test := (detect_drift_ks_test ks_2samp).

Implicit Types (reference current : list (string * Series)).

Lemma ks_scan_not_shared current (t : Q) reference
    (results : list (string * KsDetail)) (flagged : list string) :
  (∀ c, c ∈ Dict.keys reference → Dict.get c current = None) →
  kscan current t reference results flagged = Ok (results, flagged).
Proof.
  unfold Dict.keys. induction reference as [|[c r] rest IH]; intros Hno; [done|].
  cbn [ks_scan]. rewrite (Hno c) by (simpl; left).
  apply IH. intros c' Hc'. apply Hno. simpl. by right.
Qed.

Lemma scan_not_shared (cur : CurrentData) (t : float) (stats : list (string * Stats))
    (results : list (string * Detail)) (flagged : list string) :
  (∀ c, c ∈ Dict.keys stats → c ∉ columns cur) →
  scan cur t stats results flagged = Ok (results, flagged).
Proof.
  unfold Dict.keys. induction stats as [|[c r] rest IH]; intros Hno; [done|].
  cbn [scan]. rewrite decide_False by (apply Hno; simpl; left).
  apply IH. intros c' Hc'. apply Hno. simpl. by right.
Qed.

(** X21. The two tests part when reference and current data share no
    column: the Kolmogorov-Smirnov test divides by the number of compared
    features and raises [ZeroDivisionError], the statistics test returns a
    summary of zero features. *)
Theorem drift_no_shared_columns reference current (stats : list (string * Stats))
    (cur : CurrentData) (p : Q) (t : float) :
  (∀ c, c ∈ Dict.keys reference → Dict.get c current = None) →
  (∀ c, c ∈ Dict.keys stats → c ∉ columns cur) →
  ks_test (Some reference) current p = inl ZeroDivisionError ∧
  ∃ summary,
    detect_drift_statistics (Some stats) cur t = Ok summary ∧
    total_features summary = 0 ∧ drifted_features summary = [] ∧ details summary = [].
Proof.
  intros Hks Hst. split.
  - unfold detect_drift_ks_test. by rewrite ks_scan_not_shared.
  - unfold detect_drift_statistics. rewrite scan_not_shared by done. simpl.
    by eexists.
Qed.

Lemma ks_scan_spec current (t : Q) reference :
  ∀ (results : list (string * KsDetail)) (flagged : list string),
  NoDup (Dict.keys reference) →
  (∀ c, c ∈ Dict.keys reference → c ∉ Dict.keys results) →
  (∀ c r k, (c, r) ∈ reference → Dict.get c current = Some k →
            ∃ st p, ks_2samp r k = Ok (st, p)) →
  ∃ results' flagged',
    kscan current t reference results flagged = Ok (results', flagged') ∧
    (∀ c, c ∈ flagged' ↔
       c ∈ flagged ∨
       ∃ r k st p, (c, r) ∈ reference ∧ Dict.get c current = Some k ∧
                   ks_2samp r k = Ok (st, p) ∧ (p < t)%Q) ∧
    (∀ c r k st p, (c, r) ∈ reference → Dict.get c current = Some k →
                   ks_2samp r k = Ok (st, p) →
       Dict.get c results'
         = Some {| ks_statistic := st; p_value := p; ks_drifted := Qgt_bool t p |}) ∧
    (∀ c, c ∉ Dict.keys reference ∨ Dict.get c current = None →
          Dict.get c results' = Dict.get c results) ∧
    length results' =
      length results
      + length (filter (λ c, is_Some (Dict.get c current)) (Dict.keys reference)) ∧
    length flagged' + length results ≤ length flagged + length results'.
Proof.
  induction reference as [|[c0 r0] rest IH]; intros results flagged Hnd Hfresh Hks.
  { exists results, flagged. simpl. split; [done|].
    split; [intros c; split; [by left | intros [?|(? & ? & ? & ? & ?%elem_of_nil & _)]; done]|].
    split; [by intros c r k st p ?%elem_of_nil|].
    split; [done|]. split; lia. }
  unfold Dict.keys in Hnd, Hfresh. simpl in Hnd, Hfresh.
  apply NoDup_cons in Hnd as [Hc0 Hnd].
  assert (Hks' : ∀ c r k, (c, r) ∈ rest → Dict.get c current = Some k →
                          ∃ st p, ks_2samp r k = Ok (st, p))
    by (intros c r k Hin; apply Hks; by right).
  assert (Hfil : filter (λ c, is_Some (Dict.get c current)) (Dict.keys ((c0, r0) :: rest))
                 = if decide (is_Some (Dict.get c0 current))
                   then c0 :: filter (λ c, is_Some (Dict.get c current)) (Dict.keys rest)
                   else filter (λ c, is_Some (Dict.get c current)) (Dict.keys rest)).
  { unfold Dict.keys. by rewrite fmap_cons, filter_cons. }
  rewrite Hfil. clear Hfil. cbn [ks_scan].
  destruct (Dict.get c0 current) as [k0|] eqn:Hk0.
  - destruct (Hks c0 r0 k0 (list_elem_of_here _ _) Hk0) as (st0 & p0 & Hrun0).
    rewrite Hrun0. rewrite decide_True by (by eexists).
    destruct (IH (Dict.set c0 {| ks_statistic := st0; p_value := p0;
                                 ks_drifted := Qgt_bool t p0 |} results)
                 (if Qgt_bool t p0 then flagged ++ [c0] else flagged) Hnd)
      as (results' & flagged' & Hscan & Hfl & Hres & Hframe & Hlen & Hlenf); [|done|].
    { intros c Hc [->|Hin]%dict_keys_set; [done|].
      apply (Hfresh c); [by right | done]. }
    exists results', flagged'. split; [done|].
    split.
    { intros c. rewrite Hfl. split.
      - intros [Hin|(r & k & st & p & Hin & ?)].
        + destruct (Qgt_bool t p0) eqn:Hd; [|by left].
          apply elem_of_app in Hin as [? | ->%list_elem_of_singleton]; [by left|].
          right. exists r0, k0, st0, p0. split; [left|]. split; [done|].
          split; [done|]. by apply Qgt_bool_iff.
        + right. exists r, k, st, p. split; [by right | done].
      - intros [Hin|(r & k & st & p & [Heq|Hin]%elem_of_cons & Hk & Hrun & Hd)].
        + left. destruct (Qgt_bool t p0); [apply elem_of_app; by left | done].
        + injection Heq as -> ->. rewrite Hk0 in Hk. injection Hk as <-.
          rewrite Hrun0 in Hrun. injection Hrun as <- <-.
          left. apply Qgt_bool_iff in Hd. rewrite Hd.
          apply elem_of_app. right. by apply list_elem_of_singleton.
        + right. by exists r, k, st, p. }
    split.
    { intros c r k st p [Heq|Hin]%elem_of_cons Hk Hrun; [|by eapply Hres].
      injection Heq as -> ->. rewrite Hk0 in Hk. injection Hk as <-.
      rewrite Hrun0 in Hrun. injection Hrun as <- <-.
      rewrite Hframe by (by left). apply dict_get_set_eq. }
    split.
    { intros c Hc. rewrite Hframe.
      - apply dict_get_set_ne. intros <-.
        destruct Hc as [Hc|Hc]; [apply Hc; left | congruence].
      - destruct Hc as [Hc|Hc]; [left; intros ?; apply Hc; by right | by right]. }
    assert (Hlen0 : length (Dict.set c0 {| ks_statistic := st0; p_value := p0;
                                           ks_drifted := Qgt_bool t p0 |} results)
                    = S (length results))
      by (apply dict_set_fresh_length, Hfresh; left).
    split; [rewrite Hlen, Hlen0; simpl; unfold Dict.keys; lia|].
    rewrite Hlen0 in Hlenf.
    destruct (Qgt_bool t p0); rewrite ?length_app in Hlenf; simpl in *; lia.
  - rewrite decide_False by (by intros [? ?]).
    destruct (IH results flagged Hnd)
      as (results' & flagged' & Hscan & Hfl & Hres & Hframe & Hlen & Hlenf); [|done|].
    { intros c Hc. apply Hfresh. by right. }
    exists results', flagged'. split; [done|].
    split.
    { intros c. rewrite Hfl. split.
      - intros [?|(r & k & st & p & Hin & ?)]; [by left|].
        right. exists r, k, st, p. split; [by right | done].
      - intros [?|(r & k & st & p & [Heq|Hin]%elem_of_cons & Hk & ?)]; [by left | |].
        + injection Heq as -> ->. congruence.
        + right. by exists r, k, st, p. }
    split.
    { intros c r k st p [Heq|Hin]%elem_of_cons Hk Hrun; [|by eapply Hres].
      injection Heq as -> ->. congruence. }
    split.
    { intros c Hc. apply Hframe.
      destruct Hc as [Hc|Hc]; [left; intros ?; apply Hc; by right | by right]. }
    split; [by rewrite Hlen | done].
Qed.

Lemma percentage_bounds (a b : nat) :
  a ≤ b → 0 < b → (0 <= percentage a b)%Q ∧ (percentage a b <= 100)%Q.
Proof.
  intros Hab Hb. unfold percentage.
  assert (Ha0 : (0 <= inject_Z (Z.of_nat a))%Q)
    by (change 0%Q with (inject_Z 0); rewrite <- Zle_Qle; lia).
  assert (Hb0 : (0 < inject_Z (Z.of_nat b))%Q)
    by (change 0%Q with (inject_Z 0); rewrite <- Zlt_Qlt; lia).
  assert (Hle : (inject_Z (Z.of_nat a) <= inject_Z (Z.of_nat b))%Q)
    by (rewrite <- Zle_Qle; lia).
  assert (H0 : (0 <= inject_Z (Z.of_nat a) / inject_Z (Z.of_nat b))%Q)
    by (apply Qle_shift_div_l; [done | lra]).
  assert (H1 : (inject_Z (Z.of_nat a) / inject_Z (Z.of_nat b) <= 1)%Q)
    by (apply Qle_shift_div_r; [done | lra]).
  split; lra.
Qed.

(** X22. The Kolmogorov-Smirnov test, when reference and current data
    share a column and scipy answers on every shared column: a shared
    column is flagged exactly when its p-value is strictly below the
    threshold, and its detail holds the statistic, the p-value and that
    verdict; only shared columns are flagged or detailed; the summary
    counts the shared columns and the flagged ones, and the percentage of
    flagged ones lies between 0 and 100. *)
Theorem detect_drift_ks_test_spec reference current (t : Q) c0 :
  Dict.wf reference →
  c0 ∈ Dict.keys reference → is_Some (Dict.get c0 current) →
  (∀ c r k, Dict.get c reference = Some r → Dict.get c current = Some k →
            ∃ st p, ks_2samp r k = Ok (st, p)) →
  ∃ summary,
    ks_test (Some reference) current t = inr summary ∧
    ks_threshold summary = t ∧
    ks_drift_count summary = length (ks_drifted_features summary) ∧
    ks_total_features summary = length (ks_details summary) ∧
    ks_total_features summary
      = length (filter (λ c, is_Some (Dict.get c current)) (Dict.keys reference)) ∧
    ks_drift_count summary ≤ ks_total_features summary ∧
    drift_percentage summary
      = percentage (ks_drift_count summary) (ks_total_features summary) ∧
    (0 <= drift_percentage summary)%Q ∧ (drift_percentage summary <= 100)%Q ∧
    (∀ c r k st p, Dict.get c reference = Some r → Dict.get c current = Some k →
                   ks_2samp r k = Ok (st, p) →
       (c ∈ ks_drifted_features summary ↔ (p < t)%Q) ∧
       ∃ dt, Dict.get c (ks_details summary) = Some dt ∧
             ks_statistic dt = st ∧ p_value dt = p ∧
             (ks_drifted dt = true ↔ (p < t)%Q)) ∧
    (∀ c, c ∈ ks_drifted_features summary →
          c ∈ Dict.keys reference ∧ is_Some (Dict.get c current)) ∧
    (∀ c, c ∉ Dict.keys reference ∨ Dict.get c current = None →
          Dict.get c (ks_details summary) = None).
Proof.
  intros Hwf Hc0 Hshared Hks.
  destruct (ks_scan_spec current t reference [] [] Hwf) as
    (results & flagged & Hscan & Hfl & Hres & Hframe & Hlen & Hlenf).
  { by intros c _ ?%elem_of_nil. }
  { intros c r k Hin. apply Hks. by apply dict_wf_get. }
  simpl in Hlen, Hlenf.
  assert (Hpos : 0 < length results).
  { rewrite Hlen.
    assert (Hin : c0 ∈ filter (λ c, is_Some (Dict.get c current)) (Dict.keys reference))
      by (by apply list_elem_of_filter).
    destruct (filter _ _); [by apply elem_of_nil in Hin | simpl; lia]. }
  unfold detect_drift_ks_test. rewrite Hscan. rewrite decide_False by lia.
  eexists. split; [done|]. simpl.
  split; [done|]. split; [done|]. split; [done|]. split; [done|].
  split; [lia|]. split; [done|].
  split; [apply percentage_bounds; lia|]. split; [apply percentage_bounds; lia|].
  split.
  { intros c r k st p Hr Hk Hrun.
    assert (Hin : (c, r) ∈ reference) by (by apply dict_get_elem_of).
    split.
    - rewrite Hfl. split.
      + intros [?%elem_of_nil|(r' & k' & st' & p' & Hin' & Hk' & Hrun' & Hlt)]; [done|].
        rewrite (dict_wf_get _ _ _ Hwf Hin') in Hr. injection Hr as ->.
        rewrite Hk in Hk'. injection Hk' as <-.
        rewrite Hrun in Hrun'. by injection Hrun' as <- <-.
      + intros Hlt. right. by exists r, k, st, p.
    - eexists. split; [by apply (Hres c r k st p)|]. simpl.
      split; [done|]. split; [done|]. apply Qgt_bool_iff. }
  split.
  { intros c [?%elem_of_nil|(r & k & st & p & Hin & Hk & _)]%Hfl; [done|].
    split; [|by eexists].
    apply list_elem_of_fmap. by exists (c, r). }
  intros c Hc. by rewrite Hframe.
Qed.

End KSFacts.

Lemma drift_no_shared_columns_witness :
  detect_drift_ks_test demo_ks (Some demo_ks_reference) [("other", 1%Q)] (5 # 100)%Q
    = inl ZeroDivisionError.
Proof.
  refine (proj1 (drift_no_shared_columns demo_ks demo_ks_reference [("other", 1%Q)]
                   demo_reference {| columns := ["other"]; column_stats := [] |}
                   (5 # 100)%Q default_threshold _ _)).
  - intros c Hc. unfold Dict.keys, demo_ks_reference in Hc. simpl in Hc.
    repeat (apply elem_of_cons in Hc as [->|Hc]; [reflexivity|]).
    by apply elem_of_nil in Hc.
  - intros c Hc. unfold Dict.keys, demo_reference in Hc. simpl in Hc.
    repeat (apply elem_of_cons in Hc as [->|Hc];
            [apply (bool_decide_unpack _); vm_compute; reflexivity|]).
    by apply elem_of_nil in Hc.
Defined.

Lemma detect_drift_ks_test_spec_witness :
  ∃ summary,
    detect_drift_ks_test demo_ks (Some demo_ks_reference) demo_ks_current (5 # 100)%Q
      = inr summary ∧
    "texture" ∈ ks_drifted_features summary ∧ "area" ∉ ks_drifted_features summary.
Proof.
  destruct (detect_drift_ks_test_spec demo_ks demo_ks_reference demo_ks_current
              (5 # 100)%Q "area")
    as (summary & Hrun & _ & _ & _ & _ & _ & _ & _ & _ & Hcols & _).
  - apply (bool_decide_unpack _). vm_compute. reflexivity.
  - apply (bool_decide_unpack _). vm_compute. reflexivity.
  - vm_compute. by eexists.
  - intros c r k _ _. by eexists _, _.
  - exists summary. split; [exact Hrun|]. split.
    + apply (Hcols "texture" (1 # 100)%Q (2 # 100)%Q 0%Q (Qabs ((1 # 100) - (2 # 100))%Q));
        [reflexivity | reflexivity | reflexivity | vm_compute; reflexivity].
    + intros Hin.
      apply (Hcols "area" 10%Q 15%Q 0%Q (Qabs (10 - 15)%Q)) in Hin;
        [| reflexivity | reflexivity | reflexivity].
      vm_compute in Hin. discriminate Hin.
Defined.

End DriftMoreFacts.

(** ** Evaluator: the best model *)
Section EvaluatorFacts.
Import Evaluator.

(** The winner of [max]: nothing before it reaches its key, nothing after
    it exceeds it. *)
Lemma max_by_key_spec {A} (best : A * Q) (rest : list (A * Q)) :
  ∃ pre post,
    best :: rest = pre ++ max_by_key best rest :: post ∧
    (∀ x, x ∈ pre → (x.2 < (max_by_key best rest).2)%Q) ∧
    (∀ x, x ∈ post → (x.2 <= (max_by_key best rest).2)%Q).
Proof.
  revert best. induction rest as [|x rest IH]; intros best.
  { exists [], []. simpl. split; [done|]. split; by intros ? ?%elem_of_nil. }
  cbn [max_by_key]. destruct (Qle_bool x.2 best.2) eqn:Hle.
  - apply Qle_bool_iff in Hle.
    destruct (IH best) as (pre & post & Heq & Hpre & Hpost).
    destruct pre as [|b pre]; simpl in Heq.
    + injection Heq as Hb <-. exists [], (x :: rest). simpl.
      rewrite <- Hb in Hpost. rewrite <- Hb. split; [done|].
      split; [by intros ? ?%elem_of_nil|].
      intros y [->|Hy]%elem_of_cons; [exact Hle|]. apply Hpost, Hy.
    + injection Heq as <- Hrest. exists (best :: x :: pre), post.
      split; [simpl; do 2 f_equal; exact Hrest|]. split; [|done].
      intros y [->|[->|Hy]%elem_of_cons]%elem_of_cons.
      * apply Hpre. left.
      * eapply Qle_lt_trans; [exact Hle|]. apply Hpre. left.
      * apply Hpre. by right.
  - assert (Hlt : (best.2 < x.2)%Q).
    { apply Qnot_le_lt. intros H%Qle_bool_iff. congruence. }
    destruct (IH x) as (pre & post & Heq & Hpre & Hpost).
    exists (best :: pre), post. split; [simpl; by rewrite Heq|]. split; [|done].
    intros y [->|Hy]%elem_of_cons; [|by apply Hpre].
    destruct pre as [|b pre]; simpl in Heq.
    + injection Heq as Hb _. by rewrite <- Hb.
    + injection Heq as <- _. eapply Qlt_trans; [exact Hlt|]. apply Hpre. left.
Qed.

Section Best.
Context {Mdl Data : Type}
        (evaluate_metrics : Mdl → Data → Res (list (string * Q)))
        (data : Data).

Local Abbreviation best_of := (get_best_model evaluate_metrics).

Implicit Types (models : list (string * Mdl)) (self : ModelEvaluator (Mdl:=Mdl)).

Lemma compare_loop_spec (ms_of : Mdl → list (string * Q)) models :
  ∀ (results : list (string * list (string * Q))) self,
  NoDup (Dict.keys models) →
  (∀ n, n ∈ Dict.keys models → n ∉ Dict.keys results) →
  (∀ n m, (n, m) ∈ models → evaluate_metrics m data = Ok (ms_of m)) →
  compare_loop evaluate_metrics models data results self
    = (Ok (results ++ (prod_map id ms_of <$> models)),
       from_option Some self (last (models.*2))).
Proof.
  induction models as [|[n m] models IH]; intros results self Hnd Hfresh Hev.
  { simpl. by rewrite app_nil_r. }
  unfold Dict.keys in Hnd, Hfresh. simpl in Hnd, Hfresh.
  apply NoDup_cons in Hnd as [Hn Hnd].
  cbn [compare_loop set_model evaluate].
  rewrite (Hev n m) by left.
  rewrite IH; [|done| |].
  - rewrite dict_set_absent by (apply dict_get_None, Hfresh; left).
    rewrite <- app_assoc. rewrite !fmap_cons, last_cons. cbn [app snd prod_map id fst].
    f_equal. by destruct (last models.*2).
  - intros k Hk [->|Hin]%dict_keys_set; [done|].
    apply (Hfresh k); [by right | done].
  - intros k mk Hin. apply (Hev k mk). by right.
Qed.

Lemma metric_keys_spec (ms_of : Mdl → list (string * Q)) (score : Mdl → Q) metric models :
  (∀ n m, (n, m) ∈ models → Dict.get metric (ms_of m) = Some (score m)) →
  metric_keys metric (prod_map id ms_of <$> models) = Ok (prod_map id score <$> models).
Proof.
  induction models as [|[n m] models IH]; intros Hsc; [done|].
  rewrite fmap_cons. cbn [metric_keys prod_map fst snd id].
  rewrite (Hsc n m) by left. rewrite IH; [done|].
  intros k mk Hin. apply (Hsc k mk). by right.
Qed.

(** X23. [get_best_model] over models with distinct names that all
    evaluate and report the metric: the model returned is one of the
    dictionary, with the metrics [evaluate] computes for it; no model
    before it in the dictionary reaches its score and none after it
    exceeds it, so of several best models the first wins; and the
    evaluator is left holding the last model of the dictionary, not the
    best one. *)
Theorem get_best_model_spec (ms_of : Mdl → list (string * Q)) (score : Mdl → Q)
    metric models self :
  Dict.wf models → models ≠ [] →
  (∀ n m, (n, m) ∈ models →
     evaluate_metrics m data = Ok (ms_of m) ∧
     Dict.get metric (ms_of m) = Some (score m)) →
  ∃ best_name best_model pre post,
    (best_of models data metric self).1 = Ok (best_name, best_model, ms_of best_model) ∧
    models = pre ++ (best_name, best_model) :: post ∧
    (∀ n m, (n, m) ∈ pre → (score m < score best_model)%Q) ∧
    (∀ n m, (n, m) ∈ post → (score m <= score best_model)%Q) ∧
    (best_of models data metric self).2 = last (models.*2).
Proof.
  intros Hwf Hne Hev. unfold get_best_model, compare_models.
  rewrite (compare_loop_spec ms_of models [] self Hwf);
    [|by intros ? _ ?%elem_of_nil | intros n m Hin; apply (Hev n m Hin)].
  cbn [app]. rewrite (metric_keys_spec ms_of score metric models)
    by (intros n m Hin; apply (Hev n m Hin)).
  destruct models as [|[n0 m0] rest] eqn:Hmodels; [done|]. rewrite <- Hmodels in *.
  assert (Hkeys : prod_map id score <$> models
                  = (n0, score m0) :: (prod_map id score <$> rest))
    by (by rewrite Hmodels).
  rewrite Hkeys.
  destruct (max_by_key_spec (n0, score m0) (prod_map id score <$> rest))
    as (kpre & kpost & Heq & Hpre & Hpost).
  rewrite <- Hkeys in Heq.
  apply fmap_app_inv in Heq as (pre & tl & Hkpre & Htl & Hsplit).
  symmetry in Htl. apply fmap_cons_inv in Htl as ([bn bm] & post & Hbest & Hkpost & ->).
  rewrite Hbest in Hpre, Hpost |- *. cbn [prod_map fst snd id] in Hpre, Hpost |- *.
  subst kpre kpost.
  assert (Hin : (bn, bm) ∈ models).
  { rewrite Hsplit. apply elem_of_app. right. left. }
  rewrite (dict_wf_get _ _ _ Hwf Hin).
  assert (Hres : Dict.get bn (prod_map id ms_of <$> models) = Some (ms_of bm)).
  { apply dict_wf_get.
    - unfold Dict.wf, Dict.keys. rewrite <- list_fmap_compose.
      unfold Dict.wf, Dict.keys in Hwf.
      by rewrite (list_fmap_ext (fst ∘ prod_map id ms_of) fst models)
        by (by intros ? [? ?]).
    - apply list_elem_of_fmap. by exists (bn, bm). }
  rewrite Hres. exists bn, bm, pre, post. cbn [fst snd].
  split; [done|]. split; [done|].
  assert (Hlast : from_option Some self (last models.*2) = last models.*2).
  { rewrite Hmodels, fmap_cons, last_cons. by destruct (last rest.*2). }
  split; [|split; [|done]].
  - intros n m Hnm. apply (Hpre (n, score m)).
    apply list_elem_of_fmap. by exists (n, m).
  - intros n m Hnm. apply (Hpost (n, score m)).
    apply list_elem_of_fmap. by exists (n, m).
Qed.

End Best.

Lemma get_best_model_spec_witness :
  ∃ s', get_best_model demo_evaluate demo_models tt "accuracy" None
          = (Ok ("gradient_boosting", (97 # 100)%Q, [("accuracy", (97 # 100)%Q)]), s') ∧
        s' = Some (97 # 100)%Q.
Proof.
  destruct (get_best_model_spec demo_evaluate tt (λ m, [("accuracy", m)]) id
              "accuracy" demo_models None)
    as (bn & bm & pre & post & Hrun & _ & _ & _ & Hstate).
  - apply (bool_decide_unpack _). vm_compute. reflexivity.
  - discriminate.
  - intros n m _. split; [reflexivity|]. reflexivity.
  - exists (get_best_model demo_evaluate demo_models tt "accuracy" None).2.
    split; [|rewrite Hstate; reflexivity].
    rewrite (surjective_pairing (get_best_model _ _ _ _ _)), Hrun.
    f_equal. vm_compute in Hrun. by injection Hrun as <- <-.
Defined.

End EvaluatorFacts.

(** ** Training pipeline: publishing the trained models *)
Section TrainingPipelineFacts.
Import Registry RegistryOps TrainingPipeline.

Section Publish.
Context {Obj : Type} (dumps : Obj → string)
        (render_metadata : list (string * string) → string)
        (render_metrics : list (string * Q) → string).

Local Abbreviation publish := (save_models dumps render_metadata render_metrics).
Local Abbreviation register := (register_model dumps render_metadata render_metrics).

Implicit Types (st : State) (trained : list (string * BaseModel (Obj:=Obj)))
               (evaluation : list (string * list (string * Q))).

(** Publishing keeps the registry path, the entries of names it does not
    publish, and whatever exists on disk. *)
Lemma save_models_frame trained evaluation version metadata clock :
  ∀ st i0,
    registry_path (publish st trained evaluation version metadata clock i0)
      = registry_path st ∧
    (∀ n, n ∉ Dict.keys trained →
       registry (publish st trained evaluation version metadata clock i0) !! n
         = registry st !! n) ∧
    (∀ p, is_Some (disk st !! p) →
       is_Some (disk (publish st trained evaluation version metadata clock i0) !! p)).
Proof.
  induction trained as [|[n m] trained IH]; intros st i0; [done|].
  cbn [save_models].
  destruct (IH (register st m n version (Some (default [] (Dict.get n evaluation)))
                  (Some metadata) (clock i0)).2 (S i0)) as (Hrp & Hreg & Hdisk).
  split; [by rewrite Hrp|]. split.
  - intros k Hk. unfold Dict.keys in Hk. simpl in Hk.
    apply not_elem_of_cons in Hk as [Hne Hk].
    rewrite Hreg by done. by apply register_model_other_names.
  - intros p Hp. apply Hdisk.
    by apply (register_model_exists dumps render_metadata render_metrics).
Qed.


End Publish.


End TrainingPipelineFacts.

(** ** Features: selection for training and for inference *)
Section FeaturesFacts.
Import Inference Features.
Context {V : Type} (nan : V).

Implicit Types (self : FeatureBuilder) (df : DataFrame (V:=V)).

Lemma getitem_frame_rows df names :
  match getitem_frame df names with
  | Ok X => getitem_values df names = Ok (rows X)
  | Err e => getitem_values df names = Err e
  end.
Proof.
  unfold getitem_frame, getitem_values.
  by destruct (filter (λ f, f ∉ columns df) names).
Qed.

(** X25. Training and inference read the same matrix off a frame: when
    [get_X_y] returns, [prepare_input] on that frame returns the rows of
    its X, and when [prepare_input] accepts a frame that has the target
    column, [get_X_y] returns those rows as X.  They fail apart: without
    the target column [get_X_y] raises [ValueError] whatever the
    features, and on a missing feature [get_X_y] raises pandas'
    [KeyError] where [prepare_input] raises its own error listing the
    missing features. *)
Theorem get_X_y_matches_prepare_input self df :
  (target self ∉ columns df → ∃ msg, get_X_y self df = Err (ValueError msg)) ∧
  (∀ X y, get_X_y self df = Ok (X, y) →
     prepare_input nan (get_feature_names self) (InFrame df) = Ok (rows X) ∧
     y = getitem_column df (target self) ∧ target self ∈ columns df) ∧
  (∀ M, prepare_input nan (get_feature_names self) (InFrame df) = Ok M →
     target self ∈ columns df →
     ∃ X, get_X_y self df = Ok (X, getitem_column df (target self)) ∧ rows X = M) ∧
  (∀ f, target self ∈ columns df → f ∈ features self → f ∉ columns df →
     (∃ k, get_X_y self df = Err (KeyError k)) ∧
     ∃ ms, f ∈ ms ∧
           prepare_input nan (get_feature_names self) (InFrame df)
             = Err (MissingFeatures ms)).
Proof.
  unfold get_X_y, get_feature_names. cbn [prepare_input]. unfold Inference.select_features.
  pose proof (getitem_frame_rows df (features self)) as Hrows.
  split; [intros Ht; rewrite decide_False by done; by eexists|].
  split.
  { intros X y. case_decide as Ht; [|done].
    destruct (getitem_frame df (features self)) as [X0|e] eqn:Hget; [|done].
    intros [= <- <-]. split; [|done].
    unfold getitem_frame in Hget.
    destruct (filter (λ f, f ∉ columns df) (features self)); [done | discriminate Hget]. }
  split.
  { intros M HM Ht. rewrite decide_True by done.
    destruct (filter (λ f, f ∉ columns df) (features self)) eqn:Hmiss; [|done].
    destruct (getitem_frame df (features self)) as [X0|e]; [|congruence].
    exists X0. split; [done|]. congruence. }
  intros f Ht Hf Hnot. rewrite decide_True by done.
  assert (Hin : f ∈ filter (λ f, f ∉ columns df) (features self))
    by (by apply list_elem_of_filter).
  unfold getitem_frame in *.
  destruct (filter (λ f, f ∉ columns df) (features self)) as [|k ks] eqn:Hmiss;
    [by apply elem_of_nil in Hin|].
  split; [by exists k | by eexists].
Qed.

Lemma filter_eq_singleton (cols : list string) f :
  NoDup cols → f ∈ cols → filter (λ c, c = f) cols = [f].
Proof.
  induction cols as [|c cols IH]; [by intros _ ?%elem_of_nil|].
  intros [Hc Hnd]%NoDup_cons Hin. rewrite filter_cons.
  destruct (decide (c = f)) as [->|Hne].
  - f_equal. apply filter_nil_all. intros x Hx ->. done.
  - apply elem_of_cons in Hin as [->|Hin]; [done | by apply IH].
Qed.

(** X26. [select_features] never raises: features the frame lacks are
    dropped, where [get_X_y] would raise.  The frame returned has the
    rows of the input, only columns of the input and, when the input's
    labels are distinct, exactly the configured features that exist, in
    the configured order, followed by the target when the frame has it and
    it is not a feature already. *)
Theorem select_features_total self df :
  ∃ out,
    select_features self df = Ok out ∧
    length (rows out) = length (rows df) ∧
    (∀ c, c ∈ columns out → c ∈ columns df) ∧
    (NoDup (columns df) →
     columns out
       = filter (λ c, c ∈ columns df) (features self)
         ++ (if decide (target self ∈ columns df ∧ target self ∉ features self)
             then [target self] else [])).
Proof.
  unfold select_features.
  set (sel := if decide (target self ∈ columns df ∧ target self ∉ features self)
              then features self ++ [target self] else features self).
  assert (Hnone : filter (λ f, f ∉ columns df) (filter (λ col, col ∈ columns df) sel) = []).
  { apply filter_nil_all. intros f [Hin _]%list_elem_of_filter Hn. by apply Hn. }
  unfold getitem_frame. rewrite Hnone. eexists. split; [done|]. cbn [rows columns].
  split; [by rewrite length_fmap|]. split.
  - intros c (f & Hc & Hf)%list_elem_of_bind. by apply list_elem_of_filter in Hc as [_ ?].
  - intros Hnd.
    rewrite (bind_singletons _ _ id).
    2:{ intros f [Hf _]%list_elem_of_filter. by apply filter_eq_singleton. }
    rewrite list_fmap_id. unfold sel. case_decide as Ht.
    + rewrite filter_app. f_equal. rewrite filter_cons, decide_True by tauto. done.
    + by rewrite app_nil_r.
Qed.

End FeaturesFacts.

(** ** Configuration: the cache, dotted keys *)
Section ConfigFacts.
Import Config.

Implicit Types (fs : Files) (cache : Cache) (v c : Yaml).

(** X27. A configuration is read once: after a [load] that returned a
    document, every later [load] of that name returns the same document
    and leaves the cache alone, whatever path it is given and whatever
    has become of the files, and so does [get]; only [reload] reads the
    file again, and then returns and caches what the default path
    holds. *)
Theorem config_read_once fs name path cache c cache1 :
  load fs name path cache = (inr c, cache1) →
  (∀ fs' path', load fs' name path' cache1 = (inr c, cache1)) ∧
  (∀ fs' d, get fs' name None d cache1 = (inr c, cache1)) ∧
  (∀ fs' c', fs' !! default_path name = Some (Some c') →
     reload fs' name cache1 = (inr c', <[name := c']> cache1)) ∧
  (∀ fs', fs' !! default_path name = None →
     reload fs' name cache1
       = (inl (ConfigFileNotFound (default_path name)), delete name cache1)).
Proof.
  intros Hload.
  assert (Hc : cache1 !! name = Some c).
  { unfold load in Hload. destruct (cache !! name) as [c0|] eqn:Hn.
    - injection Hload as <- <-. done.
    - destruct (fs !! default (default_path name) path) as [[c0|]|]; try done.
      injection Hload as <- <-. apply lookup_insert_eq. }
  split; [intros fs' path'; unfold load; by rewrite Hc|].
  split; [intros fs' d; unfold get; rewrite Hc; cbn; by rewrite Hc|].
  split.
  - intros fs' c' Hfile. unfold reload, load. rewrite lookup_delete_eq. simpl.
    rewrite Hfile. by rewrite insert_delete_eq.
  - intros fs' Hfile. unfold reload, load. rewrite lookup_delete_eq. simpl.
    by rewrite Hfile.
Qed.

Lemma config_read_once_witness :
  get ∅ "model_config" None YNull (load demo_files "model_config" None ∅).2
    = (inr demo_model_config, (load demo_files "model_config" None ∅).2).
Proof.
  refine (proj1 (proj2 (config_read_once demo_files "model_config" None ∅
                          demo_model_config (load demo_files "model_config" None ∅).2
                          _)) ∅ YNull).
  vm_compute. reflexivity.
Defined.

Lemma split_on_nonempty sep (s : string) : split_on sep s ≠ [].
Proof.
  destruct s as [|ch s]; [done|]. simpl. case_decide; [done|].
  by destruct (split_on sep s).
Qed.

(** Splitting distributes over a separator. *)
Lemma split_on_app sep (a b : string) :
  split_on sep (a +:+ String sep b) = split_on sep a ++ split_on sep b.
Proof.
  induction a as [|ch a IH]; simpl.
  - by rewrite decide_True.
  - case_decide; [by rewrite IH|].
    rewrite IH. pose proof (split_on_nonempty sep a).
    by destruct (split_on sep a).
Qed.

Lemma walk_app v (ks1 ks2 : list string) :
  walk v (ks1 ++ ks2) = walk v ks1 ≫= (λ v', walk v' ks2).
Proof.
  revert v. induction ks1 as [|k ks1 IH]; intros v; [done|].
  simpl. destruct v as [| | |entries]; try done.
  destruct (Dict.get k entries); [apply IH | done].
Qed.

(** X28. A dotted key is resolved step by step: for a cached
    configuration, [get] with key [a.b] answers what the lookup of [b]
    answers in the value found under [a], and the default when [a] leads
    nowhere or to something that is not a mapping; no file is read and the
    cache stays as it is. *)
Theorem config_get_dotted fs name (a b : string) d cache c :
  cache !! name = Some c →
  get fs name (Some (a +:+ "." +:+ b)) d cache
    = (inr match walk c (split_on dot a) with
           | Some v => default d (walk v (split_on dot b))
           | None => d
           end, cache) ∧
  get fs name (Some a) d cache = (inr (default d (walk c (split_on dot a))), cache).
Proof.
  intros Hc. unfold get. rewrite Hc. cbn [fst snd]. rewrite Hc.
  change (a +:+ "." +:+ b) with (a +:+ String dot b).
  rewrite split_on_app, walk_app.
  split; [by destruct (walk c (split_on dot a)) | done].
Qed.

Lemma config_get_dotted_witness :
  get ∅ "model_config" (Some "hybrid_ensemble.voting") YNull
      {[ "model_config" := demo_model_config ]}
    = (inr (YScalar "soft"), {[ "model_config" := demo_model_config ]}).
Proof.
  refine (proj1 (config_get_dotted ∅ "model_config" "hybrid_ensemble" "voting" YNull
                   {[ "model_config" := demo_model_config ]} demo_model_config _)).
  vm_compute. reflexivity.
Defined.

End ConfigFacts.

(** ** Serving: from the registry to predictions *)
Section ServingFacts.
Import Registry RegistryOps Serving.
Context {Obj : Type} (dumps : Obj → string) (loads : string → option Obj)
        (render_metadata : list (string * string) → string)
        (render_metrics : list (string * Q) → string)
        (instantiate : string → Res (BaseModel (Obj:=Obj))).

Local Abbreviation register := (register_model dumps render_metadata render_metrics).

Implicit Types (st : State) (model : BaseModel (Obj:=Obj)).

(** After registration the pickle of the model directory holds the
    registered estimator. *)
Lemma register_model_pickle st model name version metrics metadata now :
  disk (register st model name version metrics metadata now).2
    !! path_join (model_dir st name version) "model.pkl"
  = Some (Blob (dumps (bm_model model))).
Proof.
  unfold register_model.
  pose proof (save_writes_pickle dumps render_metadata model (model_dir st name version)
                metadata (ensure_model_dir st name version (disk st))) as Hsave.
  destruct (save dumps render_metadata model (model_dir st name version) metadata
              (ensure_model_dir st name version (disk st))) as [md d2].
  simpl in Hsave. simpl.
  rewrite lookup_insert_ne by (apply not_eq_sym, (model_pkl_not_index
    {| registry_path := registry_path st; registry := ∅; disk := ∅ |})).
  rewrite ensure_dir_lookup_present.
  - destruct metrics as [[|x m]|]; [done| |done].
    rewrite lookup_insert_ne; [done|]. intros H%path_join_inj. discriminate H.
  - destruct metrics as [[|x m]|]; [by rewrite Hsave| |by rewrite Hsave].
    rewrite lookup_insert_ne; [by rewrite Hsave|]. intros H%path_join_inj. discriminate H.
Qed.

(** X29. What was registered is what serves: after [register_model]
    under a version other than "latest", with a pickle joblib reads back
    and a class [load_model] can instantiate, loading by name and version
    through the pipeline succeeds; the predictor then holds the registered
    estimator in an instance of the class chosen from the path, marked
    trained, and [predict] answers what the registered estimator
    answers, whichever class was chosen and whether or not the registered
    wrapper was marked trained. *)
Theorem serve_what_was_registered {Row}
    (estimator_predict : Obj → list Row → Res (list Z))
    (estimator_predict_proba : Obj → option (list Row → Res Predictor.Proba))
    st model name version metrics metadata now self inst :
  version ≠ "latest" →
  loads (dumps (bm_model model)) = Some (bm_model model) →
  instantiate (model_class_name (model_dir st name version)) = Ok inst →
  ∃ served,
    load_model_from_registry loads instantiate
      (register st model name version metrics metadata now).2 name version self
      = (None, Some served) ∧
    bm_model served = bm_model model ∧ bm_is_trained served = true ∧
    bm_name served = bm_name inst ∧
    ∀ X, Predictor.predict
           (Some (as_predictor estimator_predict estimator_predict_proba served)) X
         = estimator_predict (bm_model model) (Predictor.values X).
Proof.
  intros Hlatest Hrt Hinst.
  destruct (register_model_entry dumps render_metadata render_metrics
              st model name version metrics metadata now)
    as (e & Hreg & _ & _ & _ & Hpath & _).
  destruct (register_model_exists dumps render_metadata render_metrics
              st model name version metrics metadata now) as [[node Hdir] _].
  assert (Hres : resolve_version
                   (Dict.set version e (default [] (registry st !! name))) version
                 = Some version)
    by (unfold resolve_version; by rewrite decide_False).
  assert (Hget : get_model_path (register st model name version metrics metadata now).2
                   name version = Some (model_dir st name version)).
  { rewrite (get_model_path_resolved _ name _ version e version Hreg Hres
               (dict_get_set_eq _ _ _)).
    rewrite Hpath. unfold path_exists. rewrite bool_decide_eq_true_2; [done|].
    by eexists. }
  unfold load_model_from_registry. rewrite Hget.
  unfold load_model. rewrite Hdir, Hinst.
  unfold load. rewrite register_model_pickle, Hrt.
  eexists. split; [done|]. cbn [bm_model bm_is_trained bm_name].
  split; [done|]. split; [done|]. split; [done|].
  intros X. by destruct X.
Qed.

End ServingFacts.

Section ServingExamples.
Import Registry RegistryOps Serving.

Lemma serve_what_was_registered_witness :
  ∃ served,
    load_model_from_registry Some (λ cls, Ok {| bm_name := cls; bm_params := "{}";
                                                bm_model := ""; bm_is_trained := false |})
      (register_model id (λ _, "meta") (λ _, "metrics")
         st_fresh lr_artifact "logistic_regression" "1.0.0" None None
         "2024-03-01T10:15:00").2 "logistic_regression" "1.0.0" None
      = (None, Some served) ∧
    bm_model served = "weights" ∧ bm_name served = "logistic_regression".
Proof.
  destruct (serve_what_was_registered id Some (λ _, "meta") (λ _, "metrics")
              (λ cls, Ok {| bm_name := cls; bm_params := "{}";
                            bm_model := ""; bm_is_trained := false |})
              (λ (o : string) (X : list Z), Ok X) (λ _, None)
              st_fresh lr_artifact "logistic_regression" "1.0.0" None None
              "2024-03-01T10:15:00" None
              {| bm_name := "logistic_regression"; bm_params := "{}";
                 bm_model := ""; bm_is_trained := false |}
              ltac:(discriminate) eq_refl)
    as (served & Hrun & Hmodel & _ & Hname & _).
  - vm_compute. reflexivity.
  - exists served. split; [exact Hrun|]. split; [exact Hmodel | exact Hname].
Defined.

End ServingExamples.
